(** * videoml-cli: the [vml] command line, verified against its specification

    A shallow embedding of [src/cli.ts] (the [generate] and [render]
    commands, the source resolver, the artifact path deriver, the watch
    handler and the top-level error handler) together with the parts of
    Node's [path] and [fs] modules the file calls.  External collaborators
    ([loadVideoFile], [generateComposition], [loadConfig], [findProjectRoot],
    [renderVideoFromScript], [JSON.parse]) are the fields of a type class.
    The [pipeline] command reads back files its own generation call has
    written: it is given the file system as that call leaves it.  The watch
    listener runs on a model of the event loop for async listeners. *)

From Stdlib Require Import String Ascii List Bool Arith Lia.
From Stdlib Require Import Permutation Sorted Orders Mergesort.
From Stdlib Require Import RelationClasses DecimalString.
Import ListNotations.

Local Open Scope string_scope.
Local Open Scope list_scope.

(** String concatenation; [++] stays the list append. *)
Infix "+++" := String.append (right associativity, at level 60).

(** ** Strings as JavaScript uses them *)

Module Js.

(** [s.endsWith(suffix)]: some suffix of [s] is [suffix]. *)
Fixpoint endsWith (s suffix : string) : bool :=
  (s =? suffix) ||
  match s with
  | EmptyString => false
  | String _ s' => endsWith s' suffix
  end.

(** [s.startsWith(p)]. *)
Fixpoint startsWith (s p : string) {struct p} : bool :=
  match p with
  | EmptyString => true
  | String c p' =>
      match s with
      | EmptyString => false
      | String d s' => Ascii.eqb d c && startsWith s' p'
      end
  end.

(** A string in a boolean position: only the empty string is falsy. *)
Definition truthy (s : string) : bool := negb (s =? "").

(** An optional string ([string | undefined]) in a boolean position. *)
Definition truthyOpt (o : option string) : bool :=
  match o with
  | Some s => truthy s
  | None => false
  end.

(** [arr.includes(x)] on strings. *)
Definition includes (l : list string) (x : string) : bool :=
  existsb (String.eqb x) l.

(** [arr.find(p => p === x)]. *)
Definition find_eq (l : list string) (x : string) : option string :=
  List.find (fun p => p =? x) l.

(** [Array.from(new Set(l))]: first occurrences, in order. *)
Fixpoint dedupe_from (seen l : list string) : list string :=
  match l with
  | [] => []
  | x :: rest =>
      if includes seen x then dedupe_from seen rest
      else x :: dedupe_from (x :: seen) rest
  end.

Definition dedupe (l : list string) : list string := dedupe_from [] l.

(** Template literal interpolation of a number. *)
Definition of_nat (n : nat) : string := NilZero.string_of_uint (Nat.to_uint n).

End Js.

(** ** [node:path], POSIX flavour *)

Module Path.

Definition sep : string := "/".

Definition slash : ascii := "/"%char.

(** The pieces of [s] between separators (always at least one piece). *)
Fixpoint split (s : string) : list string :=
  match s with
  | EmptyString => [EmptyString]
  | String c s' =>
      if Ascii.eqb c slash then EmptyString :: split s'
      else match split s' with
           | h :: t => String c h :: t
           | [] => [String c EmptyString]
           end
  end.

(** One step of [normalizeString]: [acc] is the stack of kept segments,
    last one first. *)
Definition push_segment (allowAboveRoot : bool) (acc : list string)
    (seg : string) : list string :=
  if (seg =? "") || (seg =? ".") then acc
  else if seg =? ".." then
    match acc with
    | last :: before =>
        if last =? ".." then seg :: acc else before
    | [] => if allowAboveRoot then [seg] else []
    end
  else seg :: acc.

(** [normalizeString(path, allowAboveRoot)] as its list of segments. *)
Definition normalizeSegments (path : string) (allowAboveRoot : bool)
    : list string :=
  rev (fold_left (push_segment allowAboveRoot) (split path) []).

Definition normalizeString (path : string) (allowAboveRoot : bool) : string :=
  String.concat "/" (normalizeSegments path allowAboveRoot).

Definition isAbsolute (path : string) : bool := Js.startsWith path "/".

(** A string without separator. *)
Fixpoint noSlash (s : string) : bool :=
  match s with
  | EmptyString => true
  | String c s' => negb (Ascii.eqb c slash) && noSlash s'
  end.

(** What a directory entry can be called: not empty, not [.] or [..], no
    separator inside. *)
Definition isName (s : string) : bool :=
  negb (s =? "") && negb (s =? ".") && negb (s =? "..") && noSlash s.

(** The absolute path made of the given names, in normal form. *)
Definition absolute (names : list string) : string :=
  "/" +++ String.concat "/" names.

(** [path.normalize]. *)
Definition normalize (path : string) : string :=
  if path =? "" then "."
  else
    let absolute := isAbsolute path in
    let trailingSeparator := Js.endsWith path "/" in
    let p := normalizeString path (negb absolute) in
    if p =? "" then
      if absolute then "/" else if trailingSeparator then "./" else "."
    else
      let p := if trailingSeparator then p +++ "/" else p in
      if absolute then "/" +++ p else p.

(** [path.join(...args)]: the non-empty arguments glued with [/], then
    normalized. *)
Definition join_all (args : list string) : string :=
  match filter Js.truthy args with
  | [] => "."
  | parts => normalize (String.concat "/" parts)
  end.

Definition join (a b : string) : string := join_all [a; b].

Definition join3 (a b c : string) : string := join_all [a; b; c].

(** [path.resolve(cwd, p)] where [cwd] is [process.cwd()], hence absolute:
    the rightmost absolute argument wins, empty arguments are skipped, and
    the result carries no trailing separator. *)
Definition resolve (cwd p : string) : string :=
  let joined :=
    if isAbsolute p then p
    else if p =? "" then cwd
    else cwd +++ "/" +++ p in
  "/" +++ normalizeString joined false.

(** [path.dirname]; the scan runs from the end of the string down to
    index 1, so it is written on the reversed characters after the first. *)
Fixpoint drop_while_slash (l : list ascii) : list ascii :=
  match l with
  | c :: l' => if Ascii.eqb c slash then drop_while_slash l' else l
  | [] => []
  end.

Fixpoint drop_until_slash (l : list ascii) : list ascii :=
  match l with
  | c :: l' => if Ascii.eqb c slash then l else drop_until_slash l'
  | [] => []
  end.

Definition dirname (path : string) : string :=
  match path with
  | EmptyString => "."
  | String c0 rest =>
      let hasRoot := Ascii.eqb c0 slash in
      let scanned :=
        drop_until_slash (drop_while_slash (rev (list_ascii_of_string rest))) in
      match scanned with
      | [] => if hasRoot then "/" else "."
      | _ :: _ =>
          let e := List.length scanned in
          if hasRoot && (e =? 1)%nat then "//"
          else String.substring 0 e path
      end
  end.

End Path.

(** ** Errors *)

(** What a [throw] carries.  [BabulusError] is the class the top-level handler
    recognises; the other constructors are errors of other classes: the ones
    [fs] raises ([ENOENT], [ENOTDIR], [EISDIR]), [JSON.parse]'s
    [SyntaxError], and whatever else a collaborator raises. *)
Inductive Err : Type :=
  | BabulusError (message : string)
  | SystemError (code path : string)
  | SyntaxError
  | CollaboratorError (description : string).

Definition isBabulusError (e : Err) : bool :=
  match e with BabulusError _ => true | _ => false end.

(** ** [node:fs]: the directory tree the commands read *)

Module Fs.

(** What a directory entry is: a regular file with its content, a directory
    with its entries in [readdirSync] order, or something that is neither
    ([Dirent.isFile()] and [Dirent.isDirectory()] both false: a socket,
    say). *)
#[warnings="-register-all"]
Inductive Node : Type :=
  | File (content : string)
  | Dir (entries : list (string * Node))
  | Special.

Fixpoint lookup_entry (name : string) (entries : list (string * Node))
    : option Node :=
  match entries with
  | [] => None
  | (n, child) :: rest =>
      if n =? name then Some child else lookup_entry name rest
  end.

(** Follow a list of names down from a node. *)
Fixpoint walk (segs : list string) (n : Node) : option Node :=
  match segs with
  | [] => Some n
  | s :: rest =>
      match n with
      | Dir entries =>
          match lookup_entry s entries with
          | Some child => walk rest child
          | None => None
          end
      | _ => None
      end
  end.

(** The node an absolute path names, if any; [fs] is the root directory. *)
Definition lookup (fs : Node) (path : string) : option Node :=
  walk (Path.normalizeSegments path false) fs.

Definition existsSync (fs : Node) (path : string) : bool :=
  match lookup fs path with
  | Some _ => true
  | None => false
  end.

Definition isFile (n : Node) : bool :=
  match n with File _ => true | _ => false end.

(** [statSync(path).isFile()], called on existing paths only. *)
Definition statIsFile (fs : Node) (path : string) : bool :=
  match lookup fs path with
  | Some n => isFile n
  | None => false
  end.

(** The error code of a walk that fails: [ENOTDIR] when it has to go through
    something that is not a directory, [ENOENT] when a directory lacks the
    next name. *)
Fixpoint walkErrno (segs : list string) (n : Node) : string :=
  match segs with
  | [] => "ENOENT"
  | s :: rest =>
      match n with
      | Dir entries =>
          match lookup_entry s entries with
          | Some child => walkErrno rest child
          | None => "ENOENT"
          end
      | _ => "ENOTDIR"
      end
  end.

(** The error code [fs] raises for an absolute path that names nothing. *)
Definition errno (fs : Node) (path : string) : string :=
  walkErrno (Path.normalizeSegments path false) fs.

(** [readFileSync(path, "utf8")]. *)
Definition readFileSync (fs : Node) (path : string) : Err + string :=
  match lookup fs path with
  | Some (File content) => inr content
  | Some (Dir _) => inl (SystemError "EISDIR" path)
  | Some Special => inl (SystemError "ENXIO" path)
  | None => inl (SystemError (errno fs path) path)
  end.

Definition isDirectory (n : Node) : bool :=
  match n with Dir _ => true | _ => false end.

End Fs.

(** ** Requests and effects *)

(** [usagePath] of a generation request: [null], [undefined] or a path. *)
Inductive UsagePath : Type :=
  | UsageDisabled
  | UsageDefault
  | UsageAt (path : string).

(** The types the command line only passes through. *)
Class Domain : Type := {
  CompositionSpec : Type;
  id : CompositionSpec -> string;
  Config : Type;
  Json : Type;
  Number : Type;
  toNumber : string -> Number;
}.

Section Requests.
Context `{Domain}.

(** The argument object of [generateComposition]. *)
Record GenerationRequest : Type := {
  composition : CompositionSpec;
  dslPath : string;
  scriptOut : string;
  timelineOut : string;
  audioOut : string;
  outDir : string;
  config : Config;
  providerOverride : option string;
  sfxProviderOverride : option string;
  musicProviderOverride : option string;
  seedOverride : option Number;
  fresh : bool;
  usagePath : UsagePath;
  log : bool;
  verboseLogs : bool;
}.

(** The argument object of [renderVideoFromScript]. *)
Record RenderRequest : Type := {
  script : Json;
  timeline : option Json;
  title : option string;
  subtitle : option string;
  debugLayout : bool;
  framesDir : string;
  outputPath : string;
  audioPath : option string;
  framePattern : string;
  startFrame : option Number;
  endFrame : option Number;
  deviceScaleFactor : option Number;
  workers : option Number;
  browserBundlePath : option string;
  ffmpegPath : string;
  ffmpegArgs : list string;
  fps : option Number;
  width : option Number;
  height : option Number;
  durationFrames : option Number;
  cleanFrames : bool;
}.

(** What the program does to the outside, in order. *)
Inductive Effect : Type :=
  | SetEnv (name value : string)
  | LoadVideoFile (path : string)
  | LoadConfig (projectDir dsl : option string)
  | GenerateComposition (req : GenerationRequest)
  | RenderVideoFromScript (req : RenderRequest)
  | Watch (dirs : list string)
  | ConsoleError (line : string)
  | ConsoleErrorObject (e : Err).

End Requests.

(** The code outside this file that the commands call.  Their answers are
    taken as functions of their arguments. *)
Class Collaborators `{Domain} : Type := {
  loadVideoFile : string -> Err + list CompositionSpec;
  loadConfig : option string -> option string -> Err + Config;
  findProjectRoot : option string -> Err + string;
  generateComposition : GenerationRequest -> option Err;
  renderVideoFromScript : RenderRequest -> option Err;
  JSON_parse : string -> option Json;
}.

(** ** The monad of the commands: a trace of effects, then a value or a throw *)

Section Monad.
Context `{Domain}.

Definition M (A : Type) : Type := (list Effect * (Err + A))%type.

Definition ret {A} (a : A) : M A := ([], inr a).

Definition throw {A} (e : Err) : M A := ([], inl e).

Definition bind {A B} (m : M A) (k : A -> M B) : M B :=
  match m with
  | (tr, inl e) => (tr, inl e)
  | (tr, inr a) => let (tr', r) := k a in (tr ++ tr', r)
  end.

Definition emit (e : Effect) : M unit := ([e], inr tt).

(** A pure computation that may throw. *)
Definition lift {A} (r : Err + A) : M A := ([], r).

(** A call of a collaborator: the call is recorded, its answer returned. *)
Definition call {A} (e : Effect) (r : Err + A) : M A := ([e], r).

Definition trace {A} (m : M A) : list Effect := fst m.

Definition result {A} (m : M A) : Err + A := snd m.

End Monad.

Notation "x <- m ;; k" := (bind m (fun x => k))
  (at level 61, m at next level, right associativity).
Notation "m ;; k" := (bind m (fun _ => k))
  (at level 61, right associativity).

(** [for (const x of l) body(x)], stopping at the first throw. *)
Fixpoint for_each `{Domain} {A} (l : list A) (body : A -> M unit) : M unit :=
  match l with
  | [] => ret tt
  | x :: rest => body x ;; for_each rest body
  end.

(** The generation calls of a trace. *)
Fixpoint generations `{Domain} (tr : list Effect) : list GenerationRequest :=
  match tr with
  | [] => []
  | GenerateComposition req :: rest => req :: generations rest
  | _ :: rest => generations rest
  end.

(** The render calls of a trace. *)
Fixpoint renders `{Domain} (tr : list Effect) : list RenderRequest :=
  match tr with
  | [] => []
  | RenderVideoFromScript req :: rest => req :: renders rest
  | _ :: rest => renders rest
  end.

(** ** Options of the commands, as commander hands them over *)

Section Options.
Context `{Domain}.

(** [generate]; [optUsage] is false after [--no-usage].  Also the type of
    the option bag [defaultsForComposition] reads. *)
Record GenerateOpts : Type := {
  optScriptOut : option string;
  optTimelineOut : option string;
  optAudioOut : option string;
  optOutDir : option string;
  optUsageOut : option string;
  optUsage : bool;
  optEnv : option string;
  optEnvironment : option string;
  optProvider : option string;
  optSfxProvider : option string;
  optMusicProvider : option string;
  optSeed : option Number;
  optFresh : bool;
  optWatch : bool;
  optQuiet : bool;
  optProjectDir : option string;
}.

(** The empty option bag, [{}]. *)
Definition noOpts : GenerateOpts := {|
  optScriptOut := None; optTimelineOut := None; optAudioOut := None;
  optOutDir := None; optUsageOut := None; optUsage := true;
  optEnv := None; optEnvironment := None; optProvider := None;
  optSfxProvider := None; optMusicProvider := None; optSeed := None;
  optFresh := false; optWatch := false; optQuiet := false;
  optProjectDir := None |}.

(** [render]; [--start] and [--scale] and [--workers] arrive parsed,
    the other numbers as the strings typed. *)
Record RenderOpts : Type := {
  optScript : string;
  optFrames : string;
  optOut : string;
  optTimeline : option string;
  optAudio : option string;
  optTitle : option string;
  optSubtitle : option string;
  optStart : option Number;
  optEnd : option string;
  optPattern : string;
  optScale : option Number;
  optWorkers : option Number;
  optBrowserBundle : option string;
  optFfmpegArg : list string;
  optFps : option string;
  optWidth : option string;
  optHeight : option string;
  optDuration : option string;
  optDebugLayout : bool;
  optClean : bool;
  optFfmpeg : string;
}.

End Options.

(** ** [Array.prototype.sort] on strings

    The default comparison orders strings by their code units; on a total
    antisymmetric order the sorted arrangement of a list is unique, so the
    library's merge sort returns what the engine's sort returns. *)

Module StringOrder <: TotalLeBool.

Definition t : Type := string.

Definition leb (a b : string) : bool := String.leb a b.

Definition leb_total : forall a1 a2, leb a1 a2 = true \/ leb a2 a1 = true :=
  String.leb_total.

End StringOrder.

Module StringSort := Sort StringOrder.

(** ** [src/cli.ts] *)

Section Cli.
Context `{Collaborators}.

Definition newline : string := String (ascii_of_nat 10) EmptyString.

(** The test of [findDslFiles] on an entry name. *)
Definition isDslName (name : string) : bool :=
  Js.endsWith name ".babulus.ts" || Js.endsWith name ".babulus.xml".

(** [findDslFiles(root, recursive)] once [readdirSync(root)] has answered
    with the entries of [dir]; the recursive call reads the entries of the
    child it has just been given. *)
Fixpoint findDslFilesAt (root : string) (dir : Fs.Node) (recursive : bool)
    : list string :=
  match dir with
  | Fs.Dir entries =>
      StringSort.sort
        ((fix loop (es : list (string * Fs.Node)) : list string :=
            match es with
            | [] => []
            | (name, child) :: rest =>
                let full := Path.join root name in
                match child with
                | Fs.Dir _ =>
                    (if recursive then findDslFilesAt full child true else [])
                    ++ loop rest
                | Fs.File _ =>
                    (if isDslName name then [full] else []) ++ loop rest
                | Fs.Special => loop rest
                end
            end) entries)
  | _ => []
  end.

(** [findDslFiles]: [readdirSync] throws on a missing path and on a path
    that is not a directory. *)
Definition findDslFiles (fs : Fs.Node) (root : string) (recursive : bool)
    : Err + list string :=
  match Fs.lookup fs root with
  | Some (Fs.Dir entries) => inr (findDslFilesAt root (Fs.Dir entries) recursive)
  | Some _ => inl (SystemError "ENOTDIR" root)
  | None => inl (SystemError (Fs.errno fs root) root)
  end.

Definition discoverProjectDsls (fs : Fs.Node) (cwd : string)
    : Err + list string :=
  let contentDir := Path.join cwd "content" in
  if Fs.existsSync fs contentDir then findDslFiles fs contentDir true
  else findDslFiles fs cwd false.

Definition noDslMessage : string :=
  "No .babulus.ts or .babulus.xml files found. Pass a file or directory path, or create one under ./content/".

Definition multipleDslMessage (n : nat) : string :=
  "Multiple .babulus.ts/.babulus.xml files found (" +++ Js.of_nat n
  +++ "). Pass a specific file or directory path.".

Definition resolveDslPaths (fs : Fs.Node) (dslArg : option string)
    (cwd : string) : Err + list string :=
  match (if Js.truthyOpt dslArg then dslArg else None) with
  | Some arg =>
      let candidate := Path.resolve cwd arg in
      if negb (Fs.existsSync fs candidate)
      then inl (BabulusError ("Path does not exist: " +++ candidate))
      else if Fs.statIsFile fs candidate then inr [candidate]
      else findDslFiles fs candidate true
  | None =>
      match discoverProjectDsls fs cwd with
      | inl e => inl e
      | inr auto =>
          match auto with
          | [] => inl (BabulusError noDslMessage)
          | first :: others =>
              if (1 <? List.length auto)%nat
              then inl (BabulusError (multipleDslMessage (List.length auto)))
              else inr [first]
          end
      end
  end.

(** One element of [runs]. *)
Record Run : Type := {
  path : string;
  compositions : list CompositionSpec;
}.

Fixpoint loadCompositions (dslPaths : list string) : M (list Run) :=
  match dslPaths with
  | [] => ret []
  | dslPath :: rest =>
      comps <- call (LoadVideoFile dslPath) (loadVideoFile dslPath) ;;
      runs <- loadCompositions rest ;;
      ret ({| path := dslPath; compositions := comps |} :: runs)
  end.

(** The four paths [defaultsForComposition] returns. *)
Record ArtifactPaths : Type := {
  apScriptOut : string;
  apTimelineOut : string;
  apAudioOut : string;
  apOutDir : string;
}.

(** [projectDir ?? findProjectRoot(dslPath)]. *)
Definition projectRootFor (projectDir : option string) (dslPath : option string)
    : Err + string :=
  match projectDir with
  | Some dir => inr dir
  | None => findProjectRoot dslPath
  end.

Definition scriptTemplate (compId : string) : string :=
  "src/videos/" +++ compId +++ "/" +++ compId +++ ".script.json".

Definition timelineTemplate (compId : string) : string :=
  "src/videos/" +++ compId +++ "/" +++ compId +++ ".timeline.json".

Definition audioTemplate (compId : string) : string :=
  "public/videoml/" +++ compId +++ ".wav".

Definition outDirTemplate (compId : string) : string :=
  ".videoml/out/" +++ compId.

(** [typeof v === "string" ? String(v) : fallback]. *)
Definition stringOr (v : option string) (fallback : string) : string :=
  match v with
  | Some s => s
  | None => fallback
  end.

Definition defaultsForComposition (compId dslPath : string)
    (projectDir : option string) (opts : GenerateOpts) : Err + ArtifactPaths :=
  match projectRootFor projectDir (Some dslPath) with
  | inl e => inl e
  | inr root =>
      inr {|
        apScriptOut :=
          stringOr (optScriptOut opts) (Path.join root (scriptTemplate compId));
        apTimelineOut :=
          stringOr (optTimelineOut opts) (Path.join root (timelineTemplate compId));
        apAudioOut :=
          stringOr (optAudioOut opts) (Path.join root (audioTemplate compId));
        apOutDir :=
          stringOr (optOutDir opts) (Path.join root (outDirTemplate compId));
      |}
  end.

Definition findConfigPathForWatch (fs : Fs.Node) (projectDir : option string)
    (dslPath : option string) : option string :=
  match projectRootFor projectDir dslPath with
  | inl _ => None
  | inr root =>
      let videoml := Path.join3 root ".videoml" "config.yml" in
      if Fs.existsSync fs videoml then Some videoml
      else
        let babulus := Path.join3 root ".babulus" "config.yml" in
        if Fs.existsSync fs babulus then Some babulus else None
  end.

(** The condition both guards of [generate] share:
    [opts.scriptOut || opts.timelineOut || opts.audioOut || opts.outDir ||
    opts.usageOut]. *)
Definition anyOutputOverride (opts : GenerateOpts) : bool :=
  Js.truthyOpt (optScriptOut opts) || Js.truthyOpt (optTimelineOut opts)
  || Js.truthyOpt (optAudioOut opts) || Js.truthyOpt (optOutDir opts)
  || Js.truthyOpt (optUsageOut opts).

Definition watchOverrideMessage : string :=
  "When using --watch with multiple DSLs, omit explicit output overrides.".

Definition singleCompositionMessage : string :=
  "Output overrides require a single composition.".

(** [runs.reduce((sum, r) => sum + r.compositions.length, 0)]. *)
Definition totalComps (runs : list Run) : nat :=
  fold_left (fun sum r => sum + List.length (compositions r)) runs 0.

(** The request [runOnce] builds for one composition. *)
Definition requestFor (opts : GenerateOpts) (cfg : Config) (run : Run)
    (comp : CompositionSpec) (paths : ArtifactPaths) : GenerationRequest := {|
  composition := comp;
  dslPath := path run;
  scriptOut := apScriptOut paths;
  timelineOut := apTimelineOut paths;
  audioOut := apAudioOut paths;
  outDir := apOutDir paths;
  config := cfg;
  providerOverride := optProvider opts;
  sfxProviderOverride := optSfxProvider opts;
  musicProviderOverride := optMusicProvider opts;
  seedOverride := optSeed opts;
  fresh := optFresh opts;
  usagePath :=
    if optUsage opts then
      match optUsageOut opts with
      | Some p => UsageAt p
      | None => UsageDefault
      end
    else UsageDisabled;
  log := negb (optQuiet opts);
  verboseLogs := negb (optQuiet opts);
|}.

(** [await generateComposition(req)]. *)
Definition awaitGenerate (req : GenerationRequest) : M unit :=
  call (GenerateComposition req)
       (match generateComposition req with
        | Some e => inl e
        | None => inr tt
        end).

(** The closure [runOnce] of the [generate] action. *)
Definition runOnce (runs : list Run) (projectDir : option string)
    (opts : GenerateOpts) (cfg : Config) (dslSubset : option (list string))
    : M unit :=
  for_each runs (fun run =>
    if match dslSubset with
       | Some subset => negb (Js.includes subset (path run))
       | None => false
       end
    then ret tt
    else
      for_each (compositions run) (fun comp =>
        paths <- lift (defaultsForComposition (id comp) (path run) projectDir opts) ;;
        awaitGenerate (requestFor opts cfg run comp paths))).

(** What the watch handler closes over. *)
Record WatchSession : Type := {
  wsCwd : string;
  wsConfigPath : option string;
  wsDslPaths : list string;
  wsDslDirs : list string;
  wsWatchDirs : list string;
  wsRuns : list Run;
  wsProjectDir : option string;
  wsOpts : GenerateOpts;
  wsConfig : Config;
}.

(** The relevant extensions of the watch handler. *)
Definition hasWatchedExtension (p : string) : bool :=
  Js.endsWith p ".ts" || Js.endsWith p ".xml"
  || Js.endsWith p ".yml" || Js.endsWith p ".yaml".

(** [s.slice(n)]. *)
Definition slice (s : string) (n : nat) : string :=
  String.substring n (String.length s - n) s.

Definition waitingLine : string :=
  newline +++ "Waiting for changes... (Ctrl+C to stop)" +++ newline.

(** [rel] of the listener: the changed path as the log lines show it. *)
Definition relativeTo (cwd absChanged : string) : string :=
  if Js.startsWith absChanged cwd
  then slice absChanged (String.length cwd + 1)
  else absChanged.

(** The listener given to [watcher.on("all", ...)]. *)
Definition onWatchEvent (s : WatchSession) (changedPath : string) : M unit :=
  let rebuild := runOnce (wsRuns s) (wsProjectDir s) (wsOpts s) (wsConfig s) in
  let absChanged := Path.resolve (wsCwd s) changedPath in
  let rel := relativeTo (wsCwd s) absChanged in
  if negb (Js.endsWith absChanged ".ts") && negb (Js.endsWith absChanged ".xml")
     && negb (Js.endsWith absChanged ".yml") && negb (Js.endsWith absChanged ".yaml")
  then ret tt
  else if match wsConfigPath s with
          | Some configPath => Js.truthy configPath && (absChanged =? configPath)
          | None => false
          end
  then
    emit (ConsoleError (newline +++ "CHANGE DETECTED (Config): " +++ rel)) ;;
    emit (ConsoleError "Regenerating all compositions...") ;;
    rebuild None ;;
    emit (ConsoleError waitingLine)
  else
    let dslMatch := Js.find_eq (wsDslPaths s) absChanged in
    match (if Js.truthyOpt dslMatch then dslMatch else None) with
    | Some matched =>
        emit (ConsoleError (newline +++ "CHANGE DETECTED (DSL): " +++ rel)) ;;
        rebuild (Some [matched]) ;;
        emit (ConsoleError waitingLine)
    | None =>
        let isInDslDir :=
          existsb (fun dir => Js.startsWith absChanged (dir +++ Path.sep))
                  (wsDslDirs s) in
        if isInDslDir
           && (Js.endsWith absChanged ".ts" || Js.endsWith absChanged ".xml")
        then
          emit (ConsoleError (newline +++ "CHANGE DETECTED (Shared): " +++ rel)) ;;
          emit (ConsoleError "Shared file changed; regenerating all compositions...") ;;
          rebuild None ;;
          emit (ConsoleError waitingLine)
        else ret tt
    end.

(** [a ?? b]. *)
Definition orElse {A} (a b : option A) : option A :=
  match a with
  | Some _ => a
  | None => b
  end.

(** The first statements of the [generate] action:
    [const envArg = opts.env ?? opts.environment;
     if (envArg) process.env.VIDEOML_ENV = envArg]. *)
Definition envStep (opts : GenerateOpts) : M unit :=
  let envArg := orElse (optEnv opts) (optEnvironment opts) in
  match envArg with
  | Some v => if Js.truthy v then emit (SetEnv "VIDEOML_ENV" v) else ret tt
  | None => ret tt
  end.

(** The action of [generate]: [None] when it has run once, the session when
    it is left watching. *)
Definition generate (fs : Fs.Node) (cwd : string) (dslArg : option string)
    (opts : GenerateOpts) : M (option WatchSession) :=
  envStep opts ;;
  let projectDir :=
    match optProjectDir opts with
    | Some d => if Js.truthy d then Some (Path.resolve cwd d) else None
    | None => None
    end in
  dslPaths <- lift (resolveDslPaths fs dslArg cwd) ;;
  (if optWatch opts && anyOutputOverride opts
      && negb (List.length dslPaths =? 1)%nat
   then throw (BabulusError watchOverrideMessage) else ret tt) ;;
  runs <- loadCompositions dslPaths ;;
  (if anyOutputOverride opts && negb (totalComps runs =? 1)%nat
   then throw (BabulusError singleCompositionMessage) else ret tt) ;;
  cfg <- call (LoadConfig projectDir (hd_error dslPaths))
              (loadConfig projectDir (hd_error dslPaths)) ;;
  if negb (optWatch opts) then
    runOnce runs projectDir opts cfg None ;;
    ret None
  else
    let configPath := findConfigPathForWatch fs projectDir (hd_error dslPaths) in
    let dslDirs := Js.dedupe (map Path.dirname dslPaths) in
    let watchDirs :=
      match configPath with
      | Some c => if Js.truthy c then dslDirs ++ [Path.dirname c] else dslDirs
      | None => dslDirs
      end in
    emit (Watch watchDirs) ;;
    emit (ConsoleError ("Watching for changes... (Ctrl+C to stop)" +++ newline)) ;;
    (if negb (optQuiet opts) then
       emit (ConsoleError
         ("Watching directories:" +++ newline
          +++ String.concat newline (map (fun d => "  - " +++ d) watchDirs)
          +++ newline))
     else ret tt) ;;
    ret (Some {|
      wsCwd := cwd; wsConfigPath := configPath; wsDslPaths := dslPaths;
      wsDslDirs := dslDirs; wsWatchDirs := watchDirs; wsRuns := runs;
      wsProjectDir := projectDir; wsOpts := opts; wsConfig := cfg |}).

(** The action of [render]. *)
Definition render (fs : Fs.Node) (cwd : string) (opts : RenderOpts) : M unit :=
  let scriptPath := Path.resolve cwd (optScript opts) in
  let framesDir := Path.resolve cwd (optFrames opts) in
  let outputPath := Path.resolve cwd (optOut opts) in
  let resolveIfGiven (o : option string) :=
    match o with
    | Some p => if Js.truthy p then Some (Path.resolve cwd p) else None
    | None => None
    end in
  let audioPath := resolveIfGiven (optAudio opts) in
  let timelinePath := resolveIfGiven (optTimeline opts) in
  let readJson (p : string) : M Json :=
    text <- lift (Fs.readFileSync fs p) ;;
    match JSON_parse text with
    | Some j => ret j
    | None => throw SyntaxError
    end in
  script <- readJson scriptPath ;;
  timeline <- match timelinePath with
              | Some p => j <- readJson p ;; ret (Some j)
              | None => ret None
              end ;;
  let req := {|
    script := script;
    timeline := timeline;
    title := optTitle opts;
    subtitle := optSubtitle opts;
    debugLayout := optDebugLayout opts;
    framesDir := framesDir;
    outputPath := outputPath;
    audioPath := audioPath;
    framePattern := optPattern opts;
    startFrame := optStart opts;
    endFrame := option_map toNumber (optEnd opts);
    deviceScaleFactor := optScale opts;
    workers := optWorkers opts;
    browserBundlePath := resolveIfGiven (optBrowserBundle opts);
    ffmpegPath := optFfmpeg opts;
    ffmpegArgs := optFfmpegArg opts;
    fps := option_map toNumber (optFps opts);
    width := option_map toNumber (optWidth opts);
    height := option_map toNumber (optHeight opts);
    durationFrames := option_map toNumber (optDuration opts);
    cleanFrames := optClean opts;
  |} in
  call (RenderVideoFromScript req)
       (match renderVideoFromScript req with
        | Some e => inl e
        | None => inr tt
        end) ;;
  emit (ConsoleError ("write: " +++ outputPath)).

(** [program.parseAsync(process.argv).catch(...)]: the trace with what the
    handler prints, and the exit code ([process.exit(2)], [process.exit(1)],
    or 0 when the handler is not entered). *)
Definition parseAsyncCatch {A} (action : M A) : list Effect * nat :=
  match action with
  | (tr, inr _) => (tr, 0)
  | (tr, inl err) =>
      match err with
      | BabulusError message => (tr ++ [ConsoleError message], 2)
      | _ => (tr ++ [ConsoleErrorObject err], 1)
      end
  end.

Inductive Command : Type :=
  | CmdGenerate (dslArg : option string) (opts : GenerateOpts)
  | CmdRender (opts : RenderOpts).

(** One invocation of the program. *)
Definition vml (fs : Fs.Node) (cwd : string) (cmd : Command)
    : list Effect * nat :=
  match cmd with
  | CmdGenerate dslArg opts => parseAsyncCatch (generate fs cwd dslArg opts)
  | CmdRender opts => parseAsyncCatch (render fs cwd opts)
  end.

Definition effects (outcome : list Effect * nat) : list Effect := fst outcome.

Definition exitCode (outcome : list Effect * nat) : nat := snd outcome.

(** *** The watch listener on the event loop

    Line 118 hands [watcher.on("all", ...)] an [async] function.  Two facts
    of the platform decide what that means.  An emitter calls its listeners
    and drops what they return: nobody waits for the promise of a listener
    call, and nobody handles its rejection.  And a call of an [async]
    function runs at once up to its first [await] of a pending promise, and
    then, each time the promise it waits for has settled, up to the next
    one.  What a listener is to know from one call to the next, it has to
    keep in the variables it closes over. *)

(** How a call of an async function is left at the end of a turn: suspended
    at an [await], with what it needs to go on, or settled. *)
Inductive Paused (F : Type) : Type :=
  | Awaiting (frame : F)
  | Returned
  | Rejected (e : Err).

#[global] Arguments Awaiting {F} frame.
#[global] Arguments Returned {F}.
#[global] Arguments Rejected {F} e.

(** An async listener over variables of type [V], its suspended calls of
    type [F]: what a call does up to its first [await], and what a suspended
    call does, once its promise has settled, up to the next.  A turn gives
    the effects in order, the variables as it leaves them, and how the call
    is left. *)
Record AsyncListener (V F : Type) : Type := {
  onEvent : string -> V -> list Effect * V * Paused F;
  onSettled : F -> V -> list Effect * V * Paused F;
}.

#[global] Arguments onEvent {V F} _ _ _.
#[global] Arguments onSettled {V F} _ _ _.

(** The process while it watches: the listener's variables, what has been
    done so far, the listener calls suspended at an [await] (their promise
    pending), and the rejection nobody handled, on which Node ends the
    process. *)
Record Loop (V F : Type) : Type := {
  variables : V;
  performed : list Effect;
  inFlight : list F;
  unhandled : option Err;
}.

#[global] Arguments variables {V F} _.
#[global] Arguments performed {V F} _.
#[global] Arguments inFlight {V F} _.
#[global] Arguments unhandled {V F} _.

(** What the event loop takes up next: a change event of the watcher, or the
    settling of the promise that the [k]-th suspended call waits for. *)
Inductive LoopEvent : Type :=
  | Changed (changedPath : string)
  | Settled (k : nat).

(** The loop after a turn of a listener call; [before] and [after] are the
    suspended calls on either side of it, which stay as they are. *)
Definition afterTurn {V F : Type} (l : Loop V F) (before after : list F)
    (turn : list Effect * V * Paused F) : Loop V F :=
  let '(did, vars, how) := turn in
  {| variables := vars;
     performed := performed l ++ did;
     inFlight :=
       before
       ++ match how with
          | Awaiting frame => [frame]
          | _ => []
          end
       ++ after;
     unhandled :=
       match how with
       | Rejected e => Some e
       | _ => None
       end |}.

Definition step {V F : Type} (listener : AsyncListener V F) (l : Loop V F)
    (ev : LoopEvent) : Loop V F :=
  match unhandled l with
  | Some _ => l
  | None =>
      match ev with
      | Changed changedPath =>
          afterTurn l (inFlight l) []
            (onEvent listener changedPath (variables l))
      | Settled k =>
          match nth_error (inFlight l) k with
          | Some frame =>
              afterTurn l (firstn k (inFlight l)) (skipn (S k) (inFlight l))
                (onSettled listener frame (variables l))
          | None => l
          end
      end
  end.

(** The loop after a sequence of events, from a session just started. *)
Definition eventLoop {V F : Type} (listener : AsyncListener V F) (vars : V)
    (events : list LoopEvent) : Loop V F :=
  fold_left (step listener) events
    {| variables := vars; performed := []; inFlight := []; unhandled := None |}.

(** The promises the code of this file awaits while it watches are those of
    [generateComposition]: [await generateComposition(...)] in [runOnce]
    (line 72), reached through [await runOnce(...)] (lines 134, 142 and 151).
    So a turn of a call goes up to and including its next generation call,
    which is then issued and pending; [untilAwait] gives the effects of the
    turn and, if the call is suspended, those it has still to come. *)
Fixpoint untilAwait (tr : list Effect) : list Effect * option (list Effect) :=
  match tr with
  | [] => ([], None)
  | GenerateComposition req :: rest => ([GenerateComposition req], Some rest)
  | e :: rest => let (did, left) := untilAwait rest in (e :: did, left)
  end.

(** One turn of a call, given by what it has still to do and how it ends. *)
Definition advance (call : M unit) : list Effect * Paused (M unit) :=
  match untilAwait (trace call) with
  | (did, Some rest) => (did, Awaiting (rest, result call))
  | (did, None) =>
      (did, match result call with
            | inl e => Rejected e
            | inr _ => Returned
            end)
  end.

(** The listener of line 118.  Everything it closes over is a constant
    ([cwd], [configPath], [dslPaths], [dslDirs], and through [runOnce]
    [runs], [projectDir], [opts] and [config]): it keeps no variable. *)
Definition watchListener (s : WatchSession) : AsyncListener unit (M unit) := {|
  onEvent := fun changedPath vars =>
    let (did, how) := advance (onWatchEvent s changedPath) in (did, vars, how);
  onSettled := fun frame vars =>
    let (did, how) := advance frame in (did, vars, how);
|}.

(** *** The listener the specification describes

    Not the code, but what the specification asks of a watch engine, to
    compare: a single-flight queue.  A change that triggers a rebuild while
    one is in flight is only noted; when the rebuild in flight completes and
    a change has been noted, one rebuild of everything follows. *)

Record Flight : Type := {
  rebuilding : bool;
  queued : bool;
}.

Definition singleFlightListener (s : WatchSession)
    : AsyncListener Flight (M unit) := {|
  onEvent := fun changedPath flight =>
    let call := onWatchEvent s changedPath in
    match generations (trace call) with
    | [] => let (did, how) := advance call in (did, flight, how)
    | _ =>
        if rebuilding flight
        then ([], {| rebuilding := true; queued := true |}, Returned)
        else
          let (did, how) := advance call in
          (did, {| rebuilding := true; queued := false |}, how)
    end;
  onSettled := fun frame flight =>
    match advance frame with
    | (did, Returned) =>
        if queued flight then
          let (did', how) :=
            advance (runOnce (wsRuns s) (wsProjectDir s) (wsOpts s)
                       (wsConfig s) None) in
          (did ++ did',
           {| rebuilding := match how with Awaiting _ => true | _ => false end;
              queued := false |},
           how)
        else (did, {| rebuilding := false; queued := false |}, Returned)
    | (did, how) => (did, flight, how)
    end;
|}.

End Cli.

(** ** Well-formed directory trees

    In a directory no two entries share a name, and every name is a plain
    name. *)

Module Tree.

Fixpoint distinct (names : list string) : bool :=
  match names with
  | [] => true
  | n :: rest => negb (Js.includes rest n) && distinct rest
  end.

Fixpoint wellFormed (n : Fs.Node) : bool :=
  match n with
  | Fs.Dir entries =>
      forallb Path.isName (map fst entries)
      && distinct (map fst entries)
      && (fix children (es : list (string * Fs.Node)) : bool :=
            match es with
            | [] => true
            | (_, child) :: rest => wellFormed child && children rest
            end) entries
  | _ => true
  end.

(** The matching files below a node, each as its list of names from the
    root of the file system ([prefix] names the node), in directory order. *)
Fixpoint dslFiles (prefix : list string) (n : Fs.Node) (recursive : bool)
    : list (list string) :=
  match n with
  | Fs.Dir entries =>
      (fix loop (es : list (string * Fs.Node)) : list (list string) :=
         match es with
         | [] => []
         | (name, child) :: rest =>
             match child with
             | Fs.Dir _ =>
                 (if recursive then dslFiles (prefix ++ [name]) child true else [])
                 ++ loop rest
             | Fs.File _ =>
                 (if isDslName name then [prefix ++ [name]] else []) ++ loop rest
             | Fs.Special => loop rest
             end
         end) entries
  | _ => []
  end.

(** What one directory entry contributes to the scan and to the listing. *)
Definition scanEntry (root : string) (recursive : bool)
    (e : string * Fs.Node) : list string :=
  match snd e with
  | Fs.Dir _ =>
      if recursive then findDslFilesAt (Path.join root (fst e)) (snd e) true
      else []
  | Fs.File _ => if isDslName (fst e) then [Path.join root (fst e)] else []
  | Fs.Special => []
  end.

Definition listEntry (prefix : list string) (recursive : bool)
    (e : string * Fs.Node) : list (list string) :=
  match snd e with
  | Fs.Dir _ =>
      if recursive then dslFiles (prefix ++ [fst e]) (snd e) true else []
  | Fs.File _ => if isDslName (fst e) then [prefix ++ [fst e]] else []
  | Fs.Special => []
  end.

End Tree.

(** ** A small world to run the commands in *)

Module Demo.

#[global] Instance domain : Domain := {|
  CompositionSpec := string;
  id := fun c => c;
  Config := unit;
  Json := string;
  Number := nat;
  toNumber := fun _ => 0;
|}.

(** Every source file declares the composition [intro]; [two.babulus.ts]
    declares [outro] as well. *)
#[global] Instance collaborators : Collaborators := {|
  loadVideoFile := fun p =>
    if Js.endsWith p "two.babulus.ts" then inr ["intro"; "outro"]
    else inr ["intro"];
  loadConfig := fun _ _ => inr tt;
  findProjectRoot := fun _ => inr "/p";
  generateComposition := fun _ => None;
  renderVideoFromScript := fun _ => None;
  JSON_parse := fun text => Some text;
|}.

(** The composition of that name. *)
Definition comp (name : string) : CompositionSpec := name.

(** What loading [/p/two.babulus.ts] gives. *)
Definition twoRuns : list Run :=
  [{| path := "/p/two.babulus.ts";
      compositions := [comp "intro"; comp "outro"] |}].

Definition fs : Fs.Node :=
  Fs.Dir [
    ("p", Fs.Dir [
      (".videoml", Fs.Dir [("config.yml", Fs.File "")]);
      ("content", Fs.Dir [
        ("b.babulus.xml", Fs.File "");
        ("notes.txt", Fs.File "");
        ("a.babulus.ts", Fs.File "");
        ("sub", Fs.Dir [
          ("c.babulus.ts", Fs.File "");
          ("c.png", Fs.File "")])]);
      ("solo", Fs.Dir [("intro.babulus.ts", Fs.File "")]);
      ("two.babulus.ts", Fs.File "");
      ("intro.babulus.tsx", Fs.File "");
      ("video.yml", Fs.File "");
      ("notes.txt", Fs.File "");
      ("intro.script.json", Fs.File "{}")]);
    ("q", Fs.Dir [
      ("x.babulus.ts", Fs.File "");
      ("y.babulus.xml", Fs.File "")])].

Definition watching : GenerateOpts := {|
  optScriptOut := None; optTimelineOut := None; optAudioOut := None;
  optOutDir := None; optUsageOut := None; optUsage := true;
  optEnv := None; optEnvironment := None; optProvider := None;
  optSfxProvider := None; optMusicProvider := None; optSeed := None;
  optFresh := false; optWatch := true; optQuiet := true;
  optProjectDir := None |}.

Definition withScriptOut (p : string) : GenerateOpts := {|
  optScriptOut := Some p; optTimelineOut := None; optAudioOut := None;
  optOutDir := None; optUsageOut := None; optUsage := true;
  optEnv := None; optEnvironment := None; optProvider := None;
  optSfxProvider := None; optMusicProvider := None; optSeed := None;
  optFresh := false; optWatch := false; optQuiet := true;
  optProjectDir := None |}.

Definition withUsageOut (p : string) : GenerateOpts := {|
  optScriptOut := None; optTimelineOut := None; optAudioOut := None;
  optOutDir := None; optUsageOut := Some p; optUsage := true;
  optEnv := None; optEnvironment := None; optProvider := None;
  optSfxProvider := None; optMusicProvider := None; optSeed := None;
  optFresh := false; optWatch := false; optQuiet := true;
  optProjectDir := None |}.

Definition renderOf (scriptArg : string) : RenderOpts := {|
  optScript := scriptArg; optFrames := "frames"; optOut := "out.mp4";
  optTimeline := None; optAudio := None; optTitle := None;
  optSubtitle := None; optStart := Some 0; optEnd := None;
  optPattern := "frame-%06d.png"; optScale := Some 1; optWorkers := None;
  optBrowserBundle := None; optFfmpegArg := []; optFps := None;
  optWidth := None; optHeight := None; optDuration := None;
  optDebugLayout := false; optClean := true; optFfmpeg := "ffmpeg" |}.

(** The session of [vml generate --watch <source>] in [/p], for a source
    that resolves to [dslPaths] and loads as [runs]. *)
Definition session (dslPaths : list string) (runs : list Run) : WatchSession := {|
  wsCwd := "/p";
  wsConfigPath := Some "/p/.videoml/config.yml";
  wsDslPaths := dslPaths;
  wsDslDirs := Js.dedupe (map Path.dirname dslPaths);
  wsWatchDirs := Js.dedupe (map Path.dirname dslPaths) ++ ["/p/.videoml"];
  wsRuns := runs;
  wsProjectDir := None;
  wsOpts := watching;
  wsConfig := tt;
|}.

Definition oneRun (source : string) : list Run :=
  [{| path := source; compositions := [comp "intro"] |}].

(** [vml generate --watch solo], [... intro.babulus.tsx], [... video.yml]. *)
Definition soloSession : WatchSession :=
  session ["/p/solo/intro.babulus.ts"] (oneRun "/p/solo/intro.babulus.ts").

Definition tsxSession : WatchSession :=
  session ["/p/intro.babulus.tsx"] (oneRun "/p/intro.babulus.tsx").

Definition ymlSession : WatchSession :=
  session ["/p/video.yml"] (oneRun "/p/video.yml").

(** The session [generate --watch] leaves behind, if it gets that far. *)
Definition sessionOf (dslArg : string) : option WatchSession :=
  match result (generate fs "/p" (Some dslArg) watching) with
  | inr (Some s) => Some s
  | _ => None
  end.

End Demo.

(** ** The [pipeline] command

    [pipeline] reads back the script and the timeline its own generation
    call has written, so it sees two file systems: [fs] when it starts and
    [fsGenerated] once [generateComposition] has returned. *)

Section Pipeline.
Context `{Collaborators}.

Record PipelineOpts : Type := {
  popOut : option string;
  popFrames : option string;
  popProjectDir : option string;
}.

(** [publicRoot(projectDir)], with [cwd] for [process.cwd()]. *)
Definition publicRoot (cwd : string) (projectDir : option string) : string :=
  match projectDir with
  | Some dir =>
      if Js.truthy dir then Path.join dir "public" else Path.join cwd "public"
  | None => Path.join cwd "public"
  end.

(** [JSON.parse(readFileSync(p, "utf8"))]. *)
Definition readJson (fs : Fs.Node) (p : string) : M Json :=
  text <- lift (Fs.readFileSync fs p) ;;
  match JSON_parse text with
  | Some j => ret j
  | None => throw SyntaxError
  end.

Definition pipelinePathsMessage : string :=
  "Pipeline expects a single DSL path.".

Definition pipelineCompositionMessage : string :=
  "Pipeline requires a single composition in the DSL.".

(** The request of the generation call of [pipeline]. *)
Definition pipelineGeneration (comp : CompositionSpec) (source : string)
    (paths : ArtifactPaths) (cfg : Config) : GenerationRequest := {|
  composition := comp;
  dslPath := source;
  scriptOut := apScriptOut paths;
  timelineOut := apTimelineOut paths;
  audioOut := apAudioOut paths;
  outDir := apOutDir paths;
  config := cfg;
  providerOverride := None;
  sfxProviderOverride := None;
  musicProviderOverride := None;
  seedOverride := None;
  fresh := false;
  usagePath := UsageDefault;
  log := false;
  verboseLogs := true;
|}.

(** The request of the render call of [pipeline]. *)
Definition pipelineRender (scriptData timelineData : Json)
    (frames output audio : string) : RenderRequest := {|
  script := scriptData;
  timeline := Some timelineData;
  title := None;
  subtitle := None;
  debugLayout := false;
  framesDir := frames;
  outputPath := output;
  audioPath := Some audio;
  framePattern := "frame-%06d.png";
  startFrame := Some (toNumber "0");
  endFrame := None;
  deviceScaleFactor := Some (toNumber "1");
  workers := None;
  browserBundlePath := None;
  ffmpegPath := "ffmpeg";
  ffmpegArgs := [];
  fps := None;
  width := None;
  height := None;
  durationFrames := None;
  cleanFrames := true;
|}.

(** The action of [pipeline]. *)
Definition pipeline (fs fsGenerated : Fs.Node) (cwd : string)
    (dslArg : option string) (opts : PipelineOpts) : M unit :=
  let projectDir :=
    match popProjectDir opts with
    | Some d => if Js.truthy d then Some (Path.resolve cwd d) else None
    | None => None
    end in
  dslPaths <- lift (resolveDslPaths fs dslArg cwd) ;;
  match dslPaths with
  | [source] =>
      comps <- call (LoadVideoFile source) (loadVideoFile source) ;;
      match comps with
      | [comp] =>
          paths <- lift (defaultsForComposition (id comp) source projectDir noOpts) ;;
          cfg <- call (LoadConfig projectDir (Some source))
                      (loadConfig projectDir (Some source)) ;;
          awaitGenerate (pipelineGeneration comp source paths cfg) ;;
          let output :=
            match (if Js.truthyOpt (popOut opts) then popOut opts else None) with
            | Some o => Path.resolve cwd o
            | None =>
                Path.join3 (publicRoot cwd projectDir) "videoml"
                  (id comp +++ ".mp4")
            end in
          let frames :=
            match (if Js.truthyOpt (popFrames opts) then popFrames opts else None) with
            | Some f => Path.resolve cwd f
            | None => Path.join (apOutDir paths) "frames"
            end in
          scriptData <- readJson fsGenerated (apScriptOut paths) ;;
          timelineData <- readJson fsGenerated (apTimelineOut paths) ;;
          let req :=
            pipelineRender scriptData timelineData frames output
              (apAudioOut paths) in
          call (RenderVideoFromScript req)
               (match renderVideoFromScript req with
                | Some e => inl e
                | None => inr tt
                end) ;;
          emit (ConsoleError ("write: " +++ output))
      | _ => throw (BabulusError pipelineCompositionMessage)
      end
  | _ => throw (BabulusError pipelinePathsMessage)
  end.

(** [vml pipeline ...] as a whole. *)
Definition vmlPipeline (fs fsGenerated : Fs.Node) (cwd : string)
    (dslArg : option string) (opts : PipelineOpts) : list Effect * nat :=
  parseAsyncCatch (pipeline fs fsGenerated cwd dslArg opts).

End Pipeline.

(** ** [bin/vml.js]: the launcher

    [process.exit(result.status ?? 1)]: the status of the child, or 1 when
    the child was ended by a signal and has none. *)

Definition launcherExit (status : option nat) : nat :=
  match status with
  | Some code => code
  | None => 1
  end.

Module DemoPipeline.

(** [/p] once [intro] of [/p/solo/intro.babulus.ts] has been generated. *)
Definition fsGenerated : Fs.Node :=
  Fs.Dir [
    ("p", Fs.Dir [
      ("solo", Fs.Dir [("intro.babulus.ts", Fs.File "")]);
      ("src", Fs.Dir [
        ("videos", Fs.Dir [
          ("intro", Fs.Dir [
            ("intro.script.json", Fs.File "{script}");
            ("intro.timeline.json", Fs.File "{timeline}")])])])])].

Definition plain : PipelineOpts :=
  {| popOut := None; popFrames := None; popProjectDir := None |}.

End DemoPipeline.

(** ** A second world, where collaborators fail

    The loader refuses [.txt] files, no project root is found without a
    source path, generating [outro] fails, rendering fails, and the empty
    text is not JSON.  The types are those of [Demo]. *)

Module Strict.

Definition collaborators : @Collaborators Demo.domain := {|
  loadVideoFile := fun p =>
    if Js.endsWith p ".txt" then inl (CollaboratorError "not a source file")
    else if Js.endsWith p "two.babulus.ts"
         then inr [Demo.comp "intro"; Demo.comp "outro"]
         else inr [Demo.comp "intro"];
  loadConfig := fun _ _ => inr tt;
  findProjectRoot := fun dsl =>
    match dsl with
    | Some _ => inr "/p"
    | None => inl (CollaboratorError "no project marker")
    end;
  generateComposition := fun req =>
    if @id Demo.domain (composition req) =? "outro"
    then Some (CollaboratorError "provider down")
    else None;
  renderVideoFromScript := fun _ => Some (CollaboratorError "encoder failed");
  JSON_parse := fun text => if text =? "" then None else Some text;
|}.

End Strict.

(** * Facts about strings and paths *)

Section PathFacts.

Lemma append_nil_r (s : string) : s +++ "" = s.
Proof. induction s as [|c s IH]; simpl; [reflexivity | now rewrite IH]. Qed.

Lemma append_assoc (a b c : string) : (a +++ b) +++ c = a +++ b +++ c.
Proof. induction a as [|x a IH]; simpl; [reflexivity | now rewrite IH]. Qed.

Lemma length_append (a b : string) :
  String.length (a +++ b) = String.length a + String.length b.
Proof. induction a as [|x a IH]; simpl; [reflexivity | now rewrite IH]. Qed.

(** [endsWith] only looks at the end: a long enough tail decides. *)
Lemma endsWith_append (a b suffix : string) :
  String.length suffix <= String.length b ->
  Js.endsWith (a +++ b) suffix = Js.endsWith b suffix.
Proof.
  intros Hlen. induction a as [|c a IH]; [reflexivity|].
  cbn [String.append Js.endsWith]. rewrite IH.
  destruct (String.eqb_spec (String c (a +++ b)) suffix) as [E|_]; [|reflexivity].
  exfalso. subst suffix. cbn [String.length] in Hlen.
  rewrite length_append in Hlen. lia.
Qed.

Lemma endsWith_refl (s : string) : Js.endsWith s s = true.
Proof. destruct s; simpl; rewrite ?String.eqb_refl, ?Ascii.eqb_refl; reflexivity. Qed.

Lemma endsWith_app_same (a suffix : string) :
  Js.endsWith (a +++ suffix) suffix = true.
Proof. rewrite endsWith_append by lia. apply endsWith_refl. Qed.

Lemma endsWith_spec (s suffix : string) :
  Js.endsWith s suffix = true <-> exists a, s = a +++ suffix.
Proof.
  split.
  - induction s as [|c s IH]; cbn [Js.endsWith]; intros Hs.
    + rewrite orb_false_r in Hs. apply String.eqb_eq in Hs. now exists "".
    + apply orb_true_iff in Hs. destruct Hs as [Hs|Hs].
      * apply String.eqb_eq in Hs. now exists "".
      * destruct (IH Hs) as [a ->]. now exists (String c a).
  - intros [a ->]. apply endsWith_app_same.
Qed.

(** Two different endings of the same length exclude each other. *)
Lemma endsWith_same_length (s x y : string) :
  String.length x = String.length y -> x <> y ->
  Js.endsWith s x = true -> Js.endsWith s y = false.
Proof.
  intros Hlen Hne Hx. destruct (Js.endsWith s y) eqn:Hy; [|reflexivity].
  exfalso. apply endsWith_spec in Hx. apply endsWith_spec in Hy.
  destruct Hx as [a ->]. destruct Hy as [b Hb].
  apply Hne. clear Hne. revert b Hb.
  induction a as [|c a IH]; intros b Hb.
  - destruct b as [|d b]; [exact Hb|]. exfalso.
    apply (f_equal String.length) in Hb. cbn in Hb.
    rewrite length_append in Hb. lia.
  - destruct b as [|d b].
    + exfalso. apply (f_equal String.length) in Hb. cbn in Hb.
      rewrite length_append in Hb. lia.
    + cbn in Hb. injection Hb as _ Hb. exact (IH b Hb).
Qed.

Lemma split_nonempty (s : string) : Path.split s <> [].
Proof.
  induction s as [|c s IH]; simpl; [discriminate|].
  destruct (Ascii.eqb c Path.slash); [discriminate|].
  destruct (Path.split s); [contradiction | discriminate].
Qed.

Lemma split_noSlash (s : string) :
  Path.noSlash s = true -> Path.split s = [s].
Proof.
  induction s as [|c s IH]; simpl; [reflexivity|].
  intros Hs. apply andb_true_iff in Hs. destruct Hs as [Hc Hs].
  apply negb_true_iff in Hc. rewrite Hc, (IH Hs). reflexivity.
Qed.

Lemma split_append_slash (a b : string) :
  Path.split (a +++ String Path.slash b) = Path.split a ++ Path.split b.
Proof.
  induction a as [|c a IH]; [reflexivity|].
  cbn [String.append Path.split]. rewrite IH.
  destruct (Ascii.eqb c Path.slash); [reflexivity|].
  pose proof (split_nonempty a) as Hne.
  destruct (Path.split a); [contradiction | reflexivity].
Qed.

Lemma concat_cons2 (sep a b : string) (l : list string) :
  String.concat sep (a :: b :: l) = a +++ sep +++ String.concat sep (b :: l).
Proof. reflexivity. Qed.

Lemma split_concat (names : list string) :
  names <> [] -> Forall (fun n => Path.noSlash n = true) names ->
  Path.split (String.concat "/" names) = names.
Proof.
  induction names as [|n rest IH]; [contradiction|].
  intros _ Hall. inversion Hall as [|? ? Hn Hrest]; subst.
  destruct rest as [|m rest'].
  - cbn. now apply split_noSlash.
  - rewrite concat_cons2.
    change (n +++ "/" +++ String.concat "/" (m :: rest'))
      with (n +++ String Path.slash (String.concat "/" (m :: rest'))).
    rewrite split_append_slash, split_noSlash by assumption.
    cbn [app]. f_equal. apply IH; [discriminate | assumption].
Qed.

Lemma isName_noSlash (n : string) : Path.isName n = true -> Path.noSlash n = true.
Proof. unfold Path.isName. intros Hn. now apply andb_true_iff in Hn. Qed.

Lemma push_segment_name (b : bool) (acc : list string) (n : string) :
  Path.isName n = true -> Path.push_segment b acc n = n :: acc.
Proof.
  unfold Path.isName, Path.push_segment. intros Hn.
  repeat (apply andb_true_iff in Hn; destruct Hn as [Hn ?]).
  repeat match goal with
  | Hx : negb _ = true |- _ => apply negb_true_iff in Hx; rewrite Hx
  end.
  reflexivity.
Qed.

Lemma fold_push_names (b : bool) (names acc : list string) :
  Forall (fun n => Path.isName n = true) names ->
  fold_left (Path.push_segment b) names acc = rev names ++ acc.
Proof.
  revert acc. induction names as [|n rest IH]; intros acc Hall; [reflexivity|].
  inversion Hall; subst. cbn [fold_left rev].
  rewrite push_segment_name, IH by assumption.
  now rewrite <- app_assoc.
Qed.

Lemma Forall_isName_noSlash (names : list string) :
  Forall (fun n => Path.isName n = true) names ->
  Forall (fun n => Path.noSlash n = true) names.
Proof. apply Forall_impl. exact isName_noSlash. Qed.

Lemma split_absolute (names : list string) :
  Forall (fun n => Path.isName n = true) names ->
  Path.split (Path.absolute names)
  = match names with [] => [""; ""] | _ => "" :: names end.
Proof.
  intros Hall. destruct names as [|n rest]; [reflexivity|].
  change (Path.split (Path.absolute (n :: rest)))
    with ("" :: Path.split (String.concat "/" (n :: rest))).
  rewrite split_concat;
    [reflexivity | discriminate | now apply Forall_isName_noSlash].
Qed.

(** A path in normal form is its own list of segments. *)
Lemma normalizeSegments_absolute (names : list string) (b : bool) :
  Forall (fun n => Path.isName n = true) names ->
  Path.normalizeSegments (Path.absolute names) b = names.
Proof.
  intros Hall. unfold Path.normalizeSegments. rewrite split_absolute by assumption.
  destruct names as [|n rest]; [reflexivity|].
  change (fold_left (Path.push_segment b) ("" :: n :: rest) [])
    with (fold_left (Path.push_segment b) (n :: rest) []).
  rewrite fold_push_names by assumption.
  now rewrite app_nil_r, rev_involutive.
Qed.

Lemma absolute_inj (l1 l2 : list string) :
  Forall (fun n => Path.isName n = true) l1 ->
  Forall (fun n => Path.isName n = true) l2 ->
  Path.absolute l1 = Path.absolute l2 -> l1 = l2.
Proof.
  intros H1 H2 E.
  rewrite <- (normalizeSegments_absolute l1 false H1).
  rewrite <- (normalizeSegments_absolute l2 false H2).
  now rewrite E.
Qed.

Lemma truthy_nonempty (s : string) : s <> "" -> Js.truthy s = true.
Proof.
  intros Hs. unfold Js.truthy. apply negb_true_iff. now apply String.eqb_neq.
Qed.

Lemma isName_nonempty (n : string) : Path.isName n = true -> n <> "".
Proof.
  unfold Path.isName. intros Hn E. subst n. discriminate Hn.
Qed.

Lemma append_nonempty_r (a b : string) : b <> "" -> a +++ b <> "".
Proof.
  intros Hb E. apply (f_equal String.length) in E.
  rewrite length_append in E. destruct b; [contradiction | cbn in E; lia].
Qed.

Lemma concat_last (l : list string) (x : string) :
  String.concat "/" (l ++ [x])
  = match l with
    | [] => x
    | _ => String.concat "/" l +++ String Path.slash x
    end.
Proof.
  induction l as [|a l IH]; [reflexivity|].
  destruct l as [|b l]; [reflexivity|].
  change ((a :: b :: l) ++ [x]) with (a :: b :: (l ++ [x])).
  rewrite !concat_cons2.
  change (b :: l ++ [x]) with ((b :: l) ++ [x]). rewrite IH.
  now rewrite !append_assoc.
Qed.

Lemma concat_last_suffix (l : list string) (x : string) :
  exists pre, String.concat "/" (l ++ [x]) = pre +++ x.
Proof.
  rewrite concat_last. destruct l as [|a l].
  - now exists "".
  - exists (String.concat "/" (a :: l) +++ "/"). now rewrite append_assoc.
Qed.

Lemma endsWith_name_slash (n : string) :
  Path.noSlash n = true -> Js.endsWith n "/" = false.
Proof.
  induction n as [|c n IH]; [reflexivity|].
  cbn [Path.noSlash Js.endsWith]. intros Hn.
  apply andb_true_iff in Hn. destruct Hn as [Hc Hn].
  rewrite (IH Hn), orb_false_r. apply negb_true_iff in Hc.
  cbn [String.eqb]. change "/"%char with Path.slash. now rewrite Hc.
Qed.

Lemma endsWith_slash_after_name (pre x : string) :
  Path.isName x = true -> Js.endsWith (pre +++ x) "/" = false.
Proof.
  intros Hx. rewrite endsWith_append.
  - now apply endsWith_name_slash, isName_noSlash.
  - pose proof (isName_nonempty x Hx). destruct x; [contradiction | cbn; lia].
Qed.

(** [normalize] on a path without trailing separator that keeps at least
    one segment. *)
Lemma normalize_plain (path : string) :
  path <> "" -> Js.endsWith path "/" = false ->
  Path.normalizeString path (negb (Path.isAbsolute path)) <> "" ->
  Path.normalize path
  = (if Path.isAbsolute path then "/" else "")
    +++ Path.normalizeString path (negb (Path.isAbsolute path)).
Proof.
  intros Hne Htrail Hseg. unfold Path.normalize.
  apply String.eqb_neq in Hne. apply String.eqb_neq in Hseg.
  rewrite Hne, Htrail, Hseg. now destruct (Path.isAbsolute path).
Qed.

(** Where [normalize] ends when the path ends in a name. *)
Lemma normalize_ends_with_name (pre x : string) :
  Path.isName x = true ->
  exists pre', Path.normalize (pre +++ String Path.slash x) = pre' +++ x.
Proof.
  intros Hx.
  assert (Hseg : exists pre2, forall b,
            Path.normalizeString (pre +++ String Path.slash x) b
            = pre2 b +++ x).
  { exists (fun b =>
      match rev (fold_left (Path.push_segment b) (Path.split pre) []) with
      | [] => ""
      | l => String.concat "/" l +++ "/"
      end).
    intros b. unfold Path.normalizeString, Path.normalizeSegments.
    rewrite split_append_slash, (split_noSlash x) by now apply isName_noSlash.
    rewrite fold_left_app. cbn [fold_left].
    rewrite push_segment_name by assumption. cbn [rev].
    rewrite concat_last.
    destruct (rev (fold_left (Path.push_segment b) (Path.split pre) []));
      [reflexivity | now rewrite append_assoc]. }
  destruct Hseg as [pre2 Hseg].
  rewrite normalize_plain.
  - rewrite Hseg. destruct (Path.isAbsolute _).
    + exists ("/" +++ pre2 false). reflexivity.
    + now exists (pre2 true).
  - now apply append_nonempty_r.
  - change (pre +++ String Path.slash x) with (pre +++ "/" +++ x).
    rewrite <- append_assoc. now apply endsWith_slash_after_name.
  - rewrite Hseg. apply append_nonempty_r. now apply isName_nonempty.
Qed.

(** [path.join(..., x)] ends with [x] when [x] is a plain name. *)
Lemma join_all_ends_with_name (args : list string) (x : string) :
  Path.isName x = true ->
  exists pre, Path.join_all (args ++ [x]) = pre +++ x.
Proof.
  intros Hx. unfold Path.join_all. rewrite filter_app. cbn [filter].
  rewrite (truthy_nonempty x) by now apply isName_nonempty.
  destruct (filter Js.truthy args) as [|a parts] eqn:Hparts.
  - cbn [app String.concat]. rewrite normalize_plain.
    + unfold Path.normalizeString, Path.normalizeSegments.
      rewrite (split_noSlash x) by now apply isName_noSlash.
      cbn [fold_left]. rewrite push_segment_name by assumption.
      cbn [rev app String.concat].
      destruct (Path.isAbsolute x); [now exists "/" | now exists ""].
    + now apply isName_nonempty.
    + now apply endsWith_name_slash, isName_noSlash.
    + unfold Path.normalizeString, Path.normalizeSegments.
      rewrite (split_noSlash x) by now apply isName_noSlash.
      cbn [fold_left]. rewrite push_segment_name by assumption.
      cbn [rev app String.concat]. now apply isName_nonempty.
  - destruct ((a :: parts) ++ [x]) as [|y ys] eqn:E.
    { destruct parts; discriminate E. }
    rewrite <- E, concat_last. now apply normalize_ends_with_name.
Qed.

(** Joining a normal absolute path with a relative path made of names. *)
Lemma join_absolute (names rel : list string) :
  Forall (fun n => Path.isName n = true) names ->
  Forall (fun n => Path.isName n = true) rel ->
  rel <> [] ->
  Path.join (Path.absolute names) (String.concat "/" rel)
  = Path.absolute (names ++ rel).
Proof.
  intros Hnames Hrel Hne.
  destruct (exists_last Hne) as [front [x Erel]].
  assert (Hx : Path.isName x = true).
  { subst rel. apply Forall_app in Hrel. destruct Hrel as [_ Hx]. now inversion Hx. }
  destruct (concat_last_suffix front x) as [pre Epre].
  assert (Hb : String.concat "/" rel <> "").
  { subst rel. rewrite Epre. apply append_nonempty_r. now apply isName_nonempty. }
  assert (Esegs : forall b, Path.normalizeString
            (Path.absolute names +++ "/" +++ String.concat "/" rel) b
          = String.concat "/" (names ++ rel)).
  { intros b. unfold Path.normalizeString, Path.normalizeSegments.
    change (Path.absolute names +++ "/" +++ String.concat "/" rel)
      with (Path.absolute names +++ String Path.slash (String.concat "/" rel)).
    rewrite split_append_slash, split_absolute by assumption.
    rewrite (split_concat rel Hne) by now apply Forall_isName_noSlash.
    assert (Efold : forall l, fold_left (Path.push_segment b) (l ++ rel) []
              = fold_left (Path.push_segment b) rel
                  (fold_left (Path.push_segment b) l [])).
    { intros l. apply fold_left_app. }
    destruct names as [|n names'].
    - rewrite Efold.
      change (fold_left (Path.push_segment b) [""; ""] []) with (@nil string).
      rewrite fold_push_names by assumption. now rewrite app_nil_r, rev_involutive.
    - rewrite Efold.
      change (fold_left (Path.push_segment b) ("" :: n :: names') [])
        with (fold_left (Path.push_segment b) (n :: names') []).
      rewrite !fold_push_names by assumption.
      rewrite app_nil_r, rev_app_distr, !rev_involutive. reflexivity. }
  assert (Hseg : String.concat "/" (names ++ rel) <> "").
  { subst rel. rewrite app_assoc.
    destruct (concat_last_suffix (names ++ front) x) as [pre3 E3].
    rewrite E3. apply append_nonempty_r. now apply isName_nonempty. }
  unfold Path.join, Path.join_all. cbn [filter].
  change (Js.truthy (Path.absolute names)) with true. cbv iota.
  rewrite (truthy_nonempty _ Hb). rewrite concat_cons2. cbn [String.concat].
  rewrite normalize_plain.
  - rewrite Esegs. reflexivity.
  - discriminate.
  - subst rel. rewrite Epre, <- !append_assoc. now apply endsWith_slash_after_name.
  - now rewrite Esegs.
Qed.

End PathFacts.

(** * The [generate] command: guards before generation *)

Section GenerateFacts.
Context `{Collaborators}.

Lemma bind_ret_l {A B} (a : A) (k : A -> M B) : bind (ret a) k = k a.
Proof. unfold bind, ret. now destruct (k a). Qed.

Lemma bind_throw {A B} (e : Err) (k : A -> M B) : bind (throw e) k = throw e.
Proof. reflexivity. Qed.

Lemma bind_inr {A B} (tr : list Effect) (a : A) (k : A -> M B) :
  bind (tr, inr a) k = (tr ++ trace (k a), result (k a)).
Proof. unfold bind, trace, result. now destruct (k a). Qed.

Lemma bind_inl {A B} (tr : list Effect) (e : Err) (k : A -> M B) :
  bind (tr, inl e) k = (tr, inl e).
Proof. reflexivity. Qed.

Lemma bind_lift_inr {A B} (a : A) (k : A -> M B) : bind (lift (inr a)) k = k a.
Proof. apply bind_ret_l. Qed.

Lemma generations_app (t1 t2 : list Effect) :
  generations (t1 ++ t2) = generations t1 ++ generations t2.
Proof.
  induction t1 as [|e t1 IH]; [reflexivity|].
  destruct e; cbn; rewrite IH; reflexivity.
Qed.

(** Loading compositions calls the loader and nothing else. *)
Lemma loadCompositions_trace (dslPaths : list string) :
  generations (trace (loadCompositions dslPaths)) = [].
Proof.
  induction dslPaths as [|p rest IH]; [reflexivity|].
  cbn [loadCompositions]. unfold bind at 1, call.
  destruct (loadVideoFile p) as [e|comps]; [reflexivity|].
  unfold bind at 1. destruct (loadCompositions rest) as [tr [e|runs]]; cbn in *.
  - exact IH.
  - now rewrite app_nil_r.
Qed.

(** The environment step of [generate] cannot throw and generates nothing. *)
Lemma envStep_ok (opts : GenerateOpts) :
  exists tr, envStep opts = (tr, inr tt) /\ generations tr = [].
Proof.
  unfold envStep. destruct (orElse _ _) as [v|].
  - destruct (Js.truthy v); eexists; split; reflexivity.
  - eexists; split; reflexivity.
Qed.

(** What [generate] does when a guard on output overrides fires. *)
Lemma generate_rejected (fs : Fs.Node) (cwd : string) (dslArg : option string)
    (opts : GenerateOpts) (dslPaths : list string) (tr : list Effect)
    (runs : list Run) :
  resolveDslPaths fs dslArg cwd = inr dslPaths ->
  loadCompositions dslPaths = (tr, inr runs) ->
  anyOutputOverride opts = true ->
  totalComps runs <> 1 ->
  result (generate fs cwd dslArg opts)
  = inl (BabulusError
           (if optWatch opts && negb (List.length dslPaths =? 1)%nat
            then watchOverrideMessage else singleCompositionMessage))
  /\ generations (trace (generate fs cwd dslArg opts)) = [].
Proof.
  intros Hres Hload Hany Htotal.
  unfold generate.
  destruct (envStep_ok opts) as [tr0 [-> Htr0]].
  rewrite Hres, bind_inr. unfold lift. rewrite bind_inr.
  rewrite Hany, andb_true_r. cbn [andb].
  apply Nat.eqb_neq in Htotal.
  destruct (optWatch opts && negb (List.length dslPaths =? 1)%nat).
  - rewrite bind_throw. cbn. rewrite app_nil_r. now split.
  - rewrite bind_ret_l, Hload, bind_inr, Htotal. cbn [negb].
    rewrite bind_throw. cbn. rewrite !app_nil_r, generations_app, Htr0.
    pose proof (loadCompositions_trace dslPaths) as Hl. rewrite Hload in Hl.
    cbn in Hl. now rewrite Hl.
Qed.

Lemma truthyOpt_Some (p : string) : p <> "" -> Js.truthyOpt (Some p) = true.
Proof. exact (truthy_nonempty p). Qed.

End GenerateFacts.

Section GenerateClaims.
Context `{Collaborators}.

Lemma parseAsyncCatch_babulus {A} (tr : list Effect) (message : string) :
  parseAsyncCatch (A := A) (tr, inl (BabulusError message))
  = (tr ++ [ConsoleError message], 2).
Proof. reflexivity. Qed.

Lemma generate_rejected_outcome (fs : Fs.Node) (cwd : string)
    (dslArg : option string) (opts : GenerateOpts) (message : string) :
  result (generate fs cwd dslArg opts) = inl (BabulusError message) ->
  generations (trace (generate fs cwd dslArg opts)) = [] ->
  generations (effects (vml fs cwd (CmdGenerate dslArg opts))) = []
  /\ exitCode (vml fs cwd (CmdGenerate dslArg opts)) = 2.
Proof.
  cbn [vml]. destruct (generate fs cwd dslArg opts) as [tr r].
  unfold result, trace. cbn [fst snd]. intros -> Htr.
  rewrite parseAsyncCatch_babulus.
  cbn [effects exitCode fst snd]. rewrite generations_app, Htr. now split.
Qed.

(** The guard on output overrides, where it works.  In the [generate]
    command, once the source paths are resolved and their compositions
    loaded, a script, timeline, audio or out-dir override given as a
    non-empty string, together with a total number of compositions other
    than one, makes the action throw a [BabulusError], the validation error,
    which ends the process with exit code 2; no [generateComposition] call
    occurs in the action or in the whole invocation. *)
Theorem generate_override_requires_single_composition
    (fs : Fs.Node) (cwd : string) (dslArg : option string)
    (opts : GenerateOpts) (dslPaths : list string) (tr : list Effect)
    (runs : list Run) (p : string) :
  resolveDslPaths fs dslArg cwd = inr dslPaths ->
  loadCompositions dslPaths = (tr, inr runs) ->
  Js.truthy p = true ->
  optScriptOut opts = Some p \/ optTimelineOut opts = Some p
  \/ optAudioOut opts = Some p \/ optOutDir opts = Some p ->
  totalComps runs <> 1 ->
  (exists message,
     result (generate fs cwd dslArg opts) = inl (BabulusError message))
  /\ generations (trace (generate fs cwd dslArg opts)) = []
  /\ generations (effects (vml fs cwd (CmdGenerate dslArg opts))) = []
  /\ exitCode (vml fs cwd (CmdGenerate dslArg opts)) = 2.
Proof.
  intros Hres Hload Hp Hover Htotal.
  assert (Hany : anyOutputOverride opts = true).
  { unfold anyOutputOverride.
    destruct Hover as [E|[E|[E|E]]]; rewrite E; cbn [Js.truthyOpt]; rewrite Hp;
      now rewrite ?orb_true_r. }
  destruct (generate_rejected fs cwd dslArg opts dslPaths tr runs
              Hres Hload Hany Htotal) as [Hr Hg].
  split; [eauto|]. split; [exact Hg|].
  eapply generate_rejected_outcome; eassumption.
Qed.

(** C8, as the code has it.  [--usage-out] counts as an output override:
    with it set to a non-empty string and a total number of compositions
    other than one, the action throws a validation error before any
    [generateComposition] call, and the process ends with exit code 2,
    whether or not a script, timeline, audio or out-dir override is given.
    The error is the one any of those four overrides gets in the same
    invocation: "Output overrides require a single composition.", or, in
    watch mode with a number of source paths other than one, the message of
    the watch guard, which lists [--usage-out] too and throws first. *)
Theorem generate_usage_out_is_an_override
    (fs : Fs.Node) (cwd : string) (dslArg : option string)
    (opts : GenerateOpts) (dslPaths : list string) (tr : list Effect)
    (runs : list Run) (p : string) :
  resolveDslPaths fs dslArg cwd = inr dslPaths ->
  loadCompositions dslPaths = (tr, inr runs) ->
  optUsageOut opts = Some p ->
  Js.truthy p = true ->
  totalComps runs <> 1 ->
  result (generate fs cwd dslArg opts)
  = inl (BabulusError
           (if optWatch opts && negb (List.length dslPaths =? 1)%nat
            then watchOverrideMessage else singleCompositionMessage))
  /\ generations (trace (generate fs cwd dslArg opts)) = []
  /\ generations (effects (vml fs cwd (CmdGenerate dslArg opts))) = []
  /\ exitCode (vml fs cwd (CmdGenerate dslArg opts)) = 2
  /\ (forall opts' q,
        optWatch opts' = optWatch opts ->
        Js.truthy q = true ->
        optScriptOut opts' = Some q \/ optTimelineOut opts' = Some q
        \/ optAudioOut opts' = Some q \/ optOutDir opts' = Some q ->
        result (generate fs cwd dslArg opts')
        = result (generate fs cwd dslArg opts)).
Proof.
  intros Hres Hload Husage Hp Htotal.
  assert (Hany : anyOutputOverride opts = true).
  { unfold anyOutputOverride. rewrite Husage. cbn [Js.truthyOpt].
    now rewrite Hp, !orb_true_r. }
  destruct (generate_rejected fs cwd dslArg opts dslPaths tr runs
              Hres Hload Hany Htotal) as [Hr Hg].
  split; [exact Hr|]. split; [exact Hg|].
  destruct (generate_rejected_outcome fs cwd dslArg opts _ Hr Hg) as [Hv He].
  split; [exact Hv|]. split; [exact He|].
  intros opts' q Hwatch Hq Hover.
  assert (Hany' : anyOutputOverride opts' = true).
  { unfold anyOutputOverride.
    destruct Hover as [E|[E|[E|E]]]; rewrite E; cbn [Js.truthyOpt]; rewrite Hq;
      now rewrite ?orb_true_r. }
  destruct (generate_rejected fs cwd dslArg opts' dslPaths tr runs
              Hres Hload Hany' Htotal) as [Hr' _].
  now rewrite Hr', Hr, Hwatch.
Qed.

End GenerateClaims.

Lemma generate_override_requires_single_composition_witness :
  (exists message,
     result (generate Demo.fs "/p" (Some "two.babulus.ts")
               (Demo.withScriptOut "x.json"))
     = inl (BabulusError message))
  /\ generations (trace (generate Demo.fs "/p" (Some "two.babulus.ts")
                           (Demo.withScriptOut "x.json"))) = []
  /\ generations (effects (vml Demo.fs "/p"
                             (CmdGenerate (Some "two.babulus.ts")
                                (Demo.withScriptOut "x.json")))) = []
  /\ exitCode (vml Demo.fs "/p"
                 (CmdGenerate (Some "two.babulus.ts")
                    (Demo.withScriptOut "x.json"))) = 2.
Proof.
  apply (generate_override_requires_single_composition
           Demo.fs "/p" (Some "two.babulus.ts") (Demo.withScriptOut "x.json")
           ["/p/two.babulus.ts"] [LoadVideoFile "/p/two.babulus.ts"]
           Demo.twoRuns "x.json").
  - reflexivity.
  - reflexivity.
  - reflexivity.
  - left. reflexivity.
  - vm_compute. lia.
Defined.

Lemma generate_usage_out_is_an_override_witness :
  result (generate Demo.fs "/p" (Some "two.babulus.ts")
            (Demo.withUsageOut "usage.json"))
  = inl (BabulusError singleCompositionMessage)
  /\ generations (trace (generate Demo.fs "/p" (Some "two.babulus.ts")
                           (Demo.withUsageOut "usage.json"))) = [].
Proof.
  destruct (generate_usage_out_is_an_override
              Demo.fs "/p" (Some "two.babulus.ts")
              (Demo.withUsageOut "usage.json")
              ["/p/two.babulus.ts"] [LoadVideoFile "/p/two.babulus.ts"]
              Demo.twoRuns "usage.json")
    as [Hr [Hg _]].
  - reflexivity.
  - reflexivity.
  - reflexivity.
  - reflexivity.
  - vm_compute. lia.
  - split; [exact Hr | exact Hg].
Defined.

(** * The source resolver *)

Section ResolverFacts.

Lemma split_pieces_noSlash (s : string) :
  Forall (fun n => Path.noSlash n = true) (Path.split s).
Proof.
  induction s as [|c s IH]; cbn [Path.split].
  - repeat constructor.
  - destruct (Ascii.eqb c Path.slash) eqn:Hc.
    + constructor; [reflexivity | exact IH].
    + destruct (Path.split s) as [|h t]; inversion IH; subst;
        constructor; cbn [Path.noSlash]; rewrite ?Hc; auto.
Qed.

Lemma push_segment_keeps_names (acc : list string) (seg : string) :
  Forall (fun n => Path.isName n = true) acc ->
  Path.noSlash seg = true ->
  Forall (fun n => Path.isName n = true) (Path.push_segment false acc seg).
Proof.
  intros Hacc Hseg. unfold Path.push_segment.
  destruct (seg =? "") eqn:E1; [exact Hacc|].
  destruct (seg =? ".") eqn:E2; [exact Hacc|]. cbn [orb].
  destruct (seg =? "..") eqn:E3.
  - destruct acc as [|last before]; [constructor|].
    inversion Hacc as [|? ? Hlast Hbefore]; subst.
    destruct (last =? "..") eqn:E4; [|exact Hbefore].
    apply String.eqb_eq in E4. subst last. discriminate Hlast.
  - constructor; [|exact Hacc].
    unfold Path.isName. now rewrite E1, E2, E3, Hseg.
Qed.

Lemma fold_push_keeps_names (segs acc : list string) :
  Forall (fun n => Path.noSlash n = true) segs ->
  Forall (fun n => Path.isName n = true) acc ->
  Forall (fun n => Path.isName n = true)
         (fold_left (Path.push_segment false) segs acc).
Proof.
  revert acc. induction segs as [|seg segs IH]; intros acc Hsegs Hacc;
    [exact Hacc|].
  inversion Hsegs; subst. cbn [fold_left].
  apply IH; [assumption|]. now apply push_segment_keeps_names.
Qed.

(** Below the root, normalization keeps plain names only. *)
Lemma normalizeSegments_names (p : string) :
  Forall (fun n => Path.isName n = true) (Path.normalizeSegments p false).
Proof.
  unfold Path.normalizeSegments. apply Forall_rev.
  apply fold_push_keeps_names; [apply split_pieces_noSlash | constructor].
Qed.

(** [path.resolve] answers with a normal absolute path. *)
Lemma resolve_absolute (cwd p : string) :
  exists names,
    Forall (fun n => Path.isName n = true) names
    /\ Path.resolve cwd p = Path.absolute names.
Proof.
  unfold Path.resolve.
  match goal with
  | |- context [Path.normalizeString ?j false] =>
      exists (Path.normalizeSegments j false)
  end.
  split; [apply normalizeSegments_names | reflexivity].
Qed.

Lemma lookup_absolute (fs : Fs.Node) (names : list string) :
  Forall (fun n => Path.isName n = true) names ->
  Fs.lookup fs (Path.absolute names) = Fs.walk names fs.
Proof.
  intros Hn. unfold Fs.lookup. now rewrite normalizeSegments_absolute.
Qed.

(** Resolving the empty argument names the working directory. *)
Lemma lookup_resolve_empty (fs : Fs.Node) (cwd : string) :
  Fs.lookup fs (Path.resolve cwd "") = Fs.lookup fs cwd.
Proof.
  change (Path.resolve cwd "")
    with (Path.absolute (Path.normalizeSegments cwd false)).
  now rewrite lookup_absolute by apply normalizeSegments_names.
Qed.

End ResolverFacts.

Section ResolverClaims.
Context `{Collaborators}.

(** C10.  An explicit argument that names an existing regular file is
    returned as it resolves, alone in the list, whatever the file is called:
    the resolver never looks at the name of a file it is given.  (The working
    directory is a directory, as [process.cwd()] is.) *)
Theorem resolveDslPaths_explicit_file
    (fs : Fs.Node) (cwd arg : string) (entries : list (string * Fs.Node)) :
  Fs.lookup fs cwd = Some (Fs.Dir entries) ->
  Fs.statIsFile fs (Path.resolve cwd arg) = true ->
  resolveDslPaths fs (Some arg) cwd = inr [Path.resolve cwd arg].
Proof.
  intros Hcwd Hfile. unfold resolveDslPaths.
  assert (Harg : Js.truthy arg = true).
  { destruct (String.eqb_spec arg "") as [E|E]; [|now apply truthy_nonempty].
    exfalso. subst arg. unfold Fs.statIsFile in Hfile.
    rewrite lookup_resolve_empty, Hcwd in Hfile. discriminate Hfile. }
  assert (Hexists : Fs.existsSync fs (Path.resolve cwd arg) = true).
  { unfold Fs.existsSync. unfold Fs.statIsFile in Hfile.
    now destruct (Fs.lookup fs (Path.resolve cwd arg)). }
  cbn [Js.truthyOpt]. now rewrite Harg, Hexists, Hfile.
Qed.

(** C3, as the code has it.  Without an argument the resolver wants exactly
    one candidate: two or more discovered files are the ambiguity error,
    whether discovery went through [content/] (recursively) or through the
    working directory itself (not recursively). *)
Theorem resolveDslPaths_discovery_ambiguous
    (fs : Fs.Node) (cwd : string) (auto : list string) :
  discoverProjectDsls fs cwd = inr auto ->
  2 <= List.length auto ->
  resolveDslPaths fs None cwd
  = inl (BabulusError (multipleDslMessage (List.length auto))).
Proof.
  intros Hauto Hlen. unfold resolveDslPaths. cbn [Js.truthyOpt].
  rewrite Hauto. destruct auto as [|first others]; [cbn in Hlen; lia|].
  destruct (Nat.ltb_spec 1 (List.length (first :: others))) as [_|Hlt];
    [reflexivity | lia].
Qed.

End ResolverClaims.

Lemma resolveDslPaths_explicit_file_witness :
  isDslName "notes.txt" = false
  /\ resolveDslPaths Demo.fs (Some "notes.txt") "/p" = inr ["/p/notes.txt"].
Proof.
  split; [reflexivity|].
  refine (resolveDslPaths_explicit_file Demo.fs "/p" "notes.txt" _ _ _).
  - reflexivity.
  - reflexivity.
Defined.

Lemma resolveDslPaths_discovery_ambiguous_witness :
  resolveDslPaths Demo.fs None "/q"
  = inl (BabulusError (multipleDslMessage 2)).
Proof.
  apply (resolveDslPaths_discovery_ambiguous Demo.fs "/q"
           ["/q/x.babulus.ts"; "/q/y.babulus.xml"]).
  - reflexivity.
  - simpl. lia.
Defined.

(** C3 as stated fails: [/p/content] holds three matching files, and the
    resolver called without argument does not return them. *)
Lemma resolveDslPaths_content_counterexample :
  Fs.existsSync Demo.fs (Path.join "/p" "content") = true
  /\ discoverProjectDsls Demo.fs "/p"
     = inr ["/p/content/a.babulus.ts"; "/p/content/b.babulus.xml";
            "/p/content/sub/c.babulus.ts"]
  /\ resolveDslPaths Demo.fs None "/p"
     = inl (BabulusError (multipleDslMessage 3))
  /\ ~ (exists files, resolveDslPaths Demo.fs None "/p" = inr files).
Proof.
  repeat split; try reflexivity.
  intros [files E]. vm_compute in E. discriminate E.
Qed.

(** * The [render] command *)

(** A walk along [pre ++ rest] is the walk along [pre], then along [rest]. *)
Lemma walk_app (pre rest : list string) (n : Fs.Node) :
  Fs.walk (pre ++ rest) n
  = match Fs.walk pre n with
    | Some m => Fs.walk rest m
    | None => None
    end.
Proof.
  revert n. induction pre as [|s pre IH]; intros n; [reflexivity|].
  cbn [app Fs.walk]. destruct n as [content|entries|]; try reflexivity.
  destruct (Fs.lookup_entry s entries) as [child|]; [apply IH | reflexivity].
Qed.

Lemma walkErrno_app (pre rest : list string) (n m : Fs.Node) :
  Fs.walk pre n = Some m ->
  Fs.walkErrno (pre ++ rest) n = Fs.walkErrno rest m.
Proof.
  revert n. induction pre as [|s pre IH]; intros n.
  - cbn. intros E. now injection E as <-.
  - cbn [app Fs.walk Fs.walkErrno].
    destruct n as [content|entries|]; try discriminate.
    destruct (Fs.lookup_entry s entries) as [child|]; [apply IH | discriminate].
Qed.

(** Where a failing walk stops, and the error code that goes with it. *)
Lemma walk_fails (segs : list string) (n : Fs.Node) :
  Fs.walk segs n = None ->
  exists pre name rest m,
    segs = pre ++ name :: rest
    /\ Fs.walk pre n = Some m
    /\ ((Fs.isDirectory m = false /\ Fs.walkErrno segs n = "ENOTDIR")
        \/ (exists entries,
              m = Fs.Dir entries /\ Fs.lookup_entry name entries = None
              /\ Fs.walkErrno segs n = "ENOENT")).
Proof.
  revert n. induction segs as [|s segs IH]; intros n; [discriminate|].
  cbn [Fs.walk Fs.walkErrno].
  destruct n as [content|entries|].
  - intros _. exists [], s, segs, (Fs.File content). repeat split. now left.
  - destruct (Fs.lookup_entry s entries) as [child|] eqn:Hs.
    + intros Hwalk.
      destruct (IH child Hwalk) as (pre & name & rest & m & -> & Hpre & Hcase).
      exists (s :: pre), name, rest, m. split; [reflexivity|].
      split; [cbn [Fs.walk]; now rewrite Hs|]. exact Hcase.
    + intros _. exists [], s, segs, (Fs.Dir entries). repeat split.
      right. exists entries. repeat split. exact Hs.
  - intros _. exists [], s, segs, Fs.Special. repeat split. now left.
Qed.

(** The error code of a walk that is stopped by a given name. *)
Lemma walk_stopped (pre rest : list string) (name : string) (n m : Fs.Node) :
  Fs.walk pre n = Some m ->
  (Fs.isDirectory m = false ->
   Fs.walk (pre ++ name :: rest) n = None
   /\ Fs.walkErrno (pre ++ name :: rest) n = "ENOTDIR")
  /\ (forall entries,
        m = Fs.Dir entries -> Fs.lookup_entry name entries = None ->
        Fs.walk (pre ++ name :: rest) n = None
        /\ Fs.walkErrno (pre ++ name :: rest) n = "ENOENT").
Proof.
  intros Hpre. rewrite walk_app, Hpre, (walkErrno_app _ _ _ _ Hpre).
  split.
  - intros Hm. destruct m; [| discriminate Hm |]; now split.
  - intros entries -> Hname. cbn [Fs.walk Fs.walkErrno]. rewrite Hname.
    now split.
Qed.

Section RenderClaims.
Context `{Collaborators}.

(** C4, as the code has it.  When the script path names nothing that exists,
    or names a directory, the [render] action stops at its first read with
    the error [readFileSync] throws: [ENOENT] when a directory on the way
    lacks the next name, [ENOTDIR] when a name on the way is not a
    directory, [EISDIR] when the path names a directory.  None of them is a
    [BabulusError], so the top-level handler prints the error object and
    ends the process with exit code 1; the renderer is never called. *)
Theorem render_missing_script
    (fs : Fs.Node) (cwd : string) (opts : RenderOpts) :
  let scriptPath := Path.resolve cwd (optScript opts) in
  let names := Path.normalizeSegments scriptPath false in
  Fs.existsSync fs scriptPath = false
  \/ (exists entries, Fs.lookup fs scriptPath = Some (Fs.Dir entries)) ->
  exists code,
    result (render fs cwd opts) = inl (SystemError code scriptPath)
    /\ vml fs cwd (CmdRender opts)
       = ([ConsoleErrorObject (SystemError code scriptPath)], 1)
    /\ renders (effects (vml fs cwd (CmdRender opts))) = []
    /\ exitCode (vml fs cwd (CmdRender opts)) = 1
    /\ (code = "EISDIR"
        <-> exists entries, Fs.lookup fs scriptPath = Some (Fs.Dir entries))
    /\ (code = "ENOTDIR"
        <-> exists pre name rest n,
              names = pre ++ name :: rest
              /\ Fs.walk pre fs = Some n /\ Fs.isDirectory n = false)
    /\ (code = "ENOENT"
        <-> exists pre name rest entries,
              names = pre ++ name :: rest
              /\ Fs.walk pre fs = Some (Fs.Dir entries)
              /\ Fs.lookup_entry name entries = None).
Proof.
  intros scriptPath names Hcase.
  assert (Hrun : forall code,
            Fs.readFileSync fs scriptPath = inl (SystemError code scriptPath) ->
            result (render fs cwd opts) = inl (SystemError code scriptPath)
            /\ vml fs cwd (CmdRender opts)
               = ([ConsoleErrorObject (SystemError code scriptPath)], 1)
            /\ renders (effects (vml fs cwd (CmdRender opts))) = []
            /\ exitCode (vml fs cwd (CmdRender opts)) = 1).
  { intros code Hread.
    assert (Hrender : render fs cwd opts
                      = ([], inl (SystemError code scriptPath))).
    { unfold render. fold scriptPath. rewrite Hread. reflexivity. }
    cbn [vml]. rewrite Hrender. repeat split. }
  assert (Hstop : forall pre name rest n,
            names = pre ++ name :: rest -> Fs.walk pre fs = Some n ->
            (Fs.isDirectory n = false ->
             Fs.lookup fs scriptPath = None
             /\ Fs.errno fs scriptPath = "ENOTDIR")
            /\ (forall entries,
                  n = Fs.Dir entries -> Fs.lookup_entry name entries = None ->
                  Fs.lookup fs scriptPath = None
                  /\ Fs.errno fs scriptPath = "ENOENT")).
  { intros pre name rest n Hnames Hpre. unfold Fs.lookup, Fs.errno.
    fold names. rewrite Hnames. now apply walk_stopped. }
  destruct Hcase as [Hmissing|[entries Hdir]].
  - assert (Hnone : Fs.lookup fs scriptPath = None).
    { unfold Fs.existsSync in Hmissing.
      destruct (Fs.lookup fs scriptPath); [discriminate Hmissing | reflexivity]. }
    exists (Fs.errno fs scriptPath).
    destruct (Hrun (Fs.errno fs scriptPath)) as (H1 & H2 & H3 & H4).
    { unfold Fs.readFileSync. now rewrite Hnone. }
    split; [exact H1|]. split; [exact H2|]. split; [exact H3|].
    split; [exact H4|].
    destruct (walk_fails names fs Hnone)
      as (pre & name & rest & n & Hnames & Hpre & Hwhy).
    unfold Fs.errno at 1 2 3. fold names.
    destruct Hwhy as [[Hn ->]|[es [-> [Hname ->]]]].
    + split; [|split].
      * split; [discriminate|]. intros [es Hes]. rewrite Hnone in Hes.
        discriminate Hes.
      * split; [|reflexivity]. intros _. now exists pre, name, rest, n.
      * split; [discriminate|].
        intros (pre' & name' & rest' & es & Hnames' & Hpre' & Hname').
        destruct (Hstop pre' name' rest' _ Hnames' Hpre') as [_ Hent].
        destruct (Hent es eq_refl Hname') as [_ Hcode].
        destruct (Hstop pre name rest _ Hnames Hpre) as [Hnot _].
        destruct (Hnot Hn) as [_ Hcode']. rewrite Hcode in Hcode'.
        discriminate Hcode'.
    + split; [|split].
      * split; [discriminate|]. intros [es' Hes]. rewrite Hnone in Hes.
        discriminate Hes.
      * split; [discriminate|].
        intros (pre' & name' & rest' & n' & Hnames' & Hpre' & Hn').
        destruct (Hstop pre' name' rest' _ Hnames' Hpre') as [Hnot _].
        destruct (Hnot Hn') as [_ Hcode].
        destruct (Hstop pre name rest _ Hnames Hpre) as [_ Hent].
        destruct (Hent es eq_refl Hname) as [_ Hcode'].
        rewrite Hcode in Hcode'. discriminate Hcode'.
      * split; [|reflexivity]. intros _. now exists pre, name, rest, es.
  - exists "EISDIR".
    destruct (Hrun "EISDIR") as (H1 & H2 & H3 & H4).
    { unfold Fs.readFileSync. now rewrite Hdir. }
    split; [exact H1|]. split; [exact H2|]. split; [exact H3|].
    split; [exact H4|]. split; [|split].
    + split; [|reflexivity]. intros _. now exists entries.
    + split; [discriminate|].
      intros (pre & name & rest & n & Hnames & Hpre & Hn).
      destruct (Hstop pre name rest _ Hnames Hpre) as [Hnot _].
      destruct (Hnot Hn) as [Hnone _]. rewrite Hnone in Hdir.
      discriminate Hdir.
    + split; [discriminate|].
      intros (pre & name & rest & es & Hnames & Hpre & Hname).
      destruct (Hstop pre name rest _ Hnames Hpre) as [_ Hent].
      destruct (Hent es eq_refl Hname) as [Hnone _]. rewrite Hnone in Hdir.
      discriminate Hdir.
Qed.

End RenderClaims.

Lemma render_missing_script_witness :
  vml Demo.fs "/p" (CmdRender (Demo.renderOf "notes.txt/x.json"))
  = ([ConsoleErrorObject (SystemError "ENOTDIR" "/p/notes.txt/x.json")], 1).
Proof.
  destruct (render_missing_script Demo.fs "/p" (Demo.renderOf "notes.txt/x.json"))
    as (code & _ & Hvml & _ & _ & _ & [_ Hnotdir] & _).
  - left. reflexivity.
  - rewrite Hnotdir in Hvml; [exact Hvml|].
    exists ["p"; "notes.txt"], "x.json", [], (Fs.File "").
    split; [reflexivity | split; reflexivity].
Defined.

(** C4 as stated fails: with no file at the script path the error is not
    of the [BabulusError] family and the exit code is not 2. *)
Lemma render_missing_script_counterexample :
  Fs.existsSync Demo.fs (Path.resolve "/p" (optScript (Demo.renderOf "missing.json")))
  = false
  /\ (forall e, result (render Demo.fs "/p" (Demo.renderOf "missing.json")) = inl e ->
                isBabulusError e = false)
  /\ exitCode (vml Demo.fs "/p" (CmdRender (Demo.renderOf "missing.json"))) <> 2.
Proof.
  split; [reflexivity|]. split.
  - intros e E. vm_compute in E. injection E as <-. reflexivity.
  - vm_compute. lia.
Qed.

(** * The artifact path deriver *)

Section DeriverFacts.

Lemma concat_app (a b : list string) :
  a <> [] -> b <> [] ->
  String.concat "/" (a ++ b)
  = String.concat "/" a +++ "/" +++ String.concat "/" b.
Proof.
  intros Ha Hb. induction a as [|x a IH]; [contradiction|].
  destruct a as [|y a].
  - destruct b as [|z b]; [contradiction | reflexivity].
  - change ((x :: y :: a) ++ b) with (x :: (y :: a) ++ b).
    change ((y :: a) ++ b) with (y :: a ++ b) at 1.
    rewrite concat_cons2. change (y :: a ++ b) with ((y :: a) ++ b).
    rewrite IH by discriminate. rewrite concat_cons2.
    now rewrite !append_assoc.
Qed.

(** Under a normal absolute root other than [/], joining is gluing. *)
Lemma join_literal (names rel : list string) :
  names <> [] -> rel <> [] ->
  Forall (fun n => Path.isName n = true) names ->
  Forall (fun n => Path.isName n = true) rel ->
  Path.join (Path.absolute names) (String.concat "/" rel)
  = Path.absolute names +++ "/" +++ String.concat "/" rel.
Proof.
  intros Hn Hr Hnames Hrel. rewrite join_absolute by assumption.
  unfold Path.absolute. rewrite concat_app by assumption.
  reflexivity.
Qed.

Lemma noSlash_append (a b : string) :
  Path.noSlash (a +++ b) = Path.noSlash a && Path.noSlash b.
Proof.
  induction a as [|c a IH]; [reflexivity|].
  cbn [String.append Path.noSlash]. now rewrite IH, andb_assoc.
Qed.

(** A name followed by an extension of two characters or more is a name. *)
Lemma isName_with_extension (n ext : string) :
  Path.noSlash n = true -> Path.noSlash ext = true ->
  2 <= String.length ext -> ext <> ".." ->
  Path.isName (n +++ ext) = true.
Proof.
  intros Hn Hext Hlen Hdots. unfold Path.isName.
  rewrite noSlash_append, Hn, Hext. cbn [andb]. rewrite andb_true_r.
  assert (Hl : 2 <= String.length (n +++ ext))
    by (rewrite length_append; lia).
  destruct (String.eqb_spec (n +++ ext) "") as [E|_];
    [rewrite E in Hl; cbn in Hl; lia|].
  destruct (String.eqb_spec (n +++ ext) ".") as [E|_];
    [rewrite E in Hl; cbn in Hl; lia|].
  destruct (String.eqb_spec (n +++ ext) "..") as [E|_]; [|reflexivity].
  exfalso. destruct n as [|c n].
  - now apply Hdots.
  - apply (f_equal String.length) in E. cbn in E.
    rewrite length_append in E. lia.
Qed.

End DeriverFacts.

Section DeriverClaims.
Context `{Collaborators}.

(** C6.  Under the project root (the explicit project directory, else what
    [findProjectRoot] answers for the source path) the deriver returns, for
    each of the four fields on its own, the override string when that option
    is given and otherwise the default [<root>/src/videos/<id>/<id>.script.json],
    [<root>/src/videos/<id>/<id>.timeline.json], [<root>/public/videoml/<id>.wav],
    [<root>/.videoml/out/<id>], where [<root>/...] is [path.join(root, ...)];
    for a root in normal form other than [/] and an id that is a plain name
    the joined paths are those very strings. *)
Theorem defaultsForComposition_fields
    (compId dslPath : string) (projectDir : option string)
    (opts : GenerateOpts) (root : string) :
  projectRootFor projectDir (Some dslPath) = inr root ->
  exists paths,
    defaultsForComposition compId dslPath projectDir opts = inr paths
    /\ apScriptOut paths
       = match optScriptOut opts with
         | Some override => override
         | None => Path.join root
                     ("src/videos/" +++ compId +++ "/" +++ compId +++ ".script.json")
         end
    /\ apTimelineOut paths
       = match optTimelineOut opts with
         | Some override => override
         | None => Path.join root
                     ("src/videos/" +++ compId +++ "/" +++ compId +++ ".timeline.json")
         end
    /\ apAudioOut paths
       = match optAudioOut opts with
         | Some override => override
         | None => Path.join root ("public/videoml/" +++ compId +++ ".wav")
         end
    /\ apOutDir paths
       = match optOutDir opts with
         | Some override => override
         | None => Path.join root (".videoml/out/" +++ compId)
         end
    /\ (forall names,
          names <> [] ->
          Forall (fun n => Path.isName n = true) names ->
          root = Path.absolute names ->
          Path.isName compId = true ->
          Path.join root
            ("src/videos/" +++ compId +++ "/" +++ compId +++ ".script.json")
          = root +++ "/src/videos/" +++ compId +++ "/" +++ compId +++ ".script.json"
          /\ Path.join root
               ("src/videos/" +++ compId +++ "/" +++ compId +++ ".timeline.json")
             = root +++ "/src/videos/" +++ compId +++ "/" +++ compId
               +++ ".timeline.json"
          /\ Path.join root ("public/videoml/" +++ compId +++ ".wav")
             = root +++ "/public/videoml/" +++ compId +++ ".wav"
          /\ Path.join root (".videoml/out/" +++ compId)
             = root +++ "/.videoml/out/" +++ compId).
Proof.
  intros Hroot. unfold defaultsForComposition. rewrite Hroot.
  eexists. split; [reflexivity|]. cbn [apScriptOut apTimelineOut apAudioOut apOutDir].
  unfold stringOr, scriptTemplate, timelineTemplate, audioTemplate, outDirTemplate.
  repeat (split; [reflexivity|]).
  intros names Hne Hnames -> Hid.
  pose proof (isName_noSlash compId Hid) as Hslash.
  assert (Hs : Path.isName (compId +++ ".script.json") = true)
    by (apply isName_with_extension; [assumption | reflexivity | cbn; lia | discriminate]).
  assert (Ht : Path.isName (compId +++ ".timeline.json") = true)
    by (apply isName_with_extension; [assumption | reflexivity | cbn; lia | discriminate]).
  assert (Hw : Path.isName (compId +++ ".wav") = true)
    by (apply isName_with_extension; [assumption | reflexivity | cbn; lia | discriminate]).
  repeat split.
  - apply (join_literal names ["src"; "videos"; compId; compId +++ ".script.json"]);
      [assumption | discriminate | assumption | repeat constructor; assumption].
  - apply (join_literal names ["src"; "videos"; compId; compId +++ ".timeline.json"]);
      [assumption | discriminate | assumption | repeat constructor; assumption].
  - apply (join_literal names ["public"; "videoml"; compId +++ ".wav"]);
      [assumption | discriminate | assumption | repeat constructor; assumption].
  - apply (join_literal names [".videoml"; "out"; compId]);
      [assumption | discriminate | assumption | repeat constructor; assumption].
Qed.

End DeriverClaims.

Lemma defaultsForComposition_fields_witness :
  defaultsForComposition "intro" "/p/solo/intro.babulus.ts" (Some "/p") noOpts
  = inr {| apScriptOut := "/p/src/videos/intro/intro.script.json";
           apTimelineOut := "/p/src/videos/intro/intro.timeline.json";
           apAudioOut := "/p/public/videoml/intro.wav";
           apOutDir := "/p/.videoml/out/intro" |}
  /\ defaultsForComposition "intro" "/p/solo/intro.babulus.ts" None
       (Demo.withScriptOut "custom/script.json")
     = inr {| apScriptOut := "custom/script.json";
              apTimelineOut := "/p/src/videos/intro/intro.timeline.json";
              apAudioOut := "/p/public/videoml/intro.wav";
              apOutDir := "/p/.videoml/out/intro" |}.
Proof.
  split.
  - destruct (defaultsForComposition_fields "intro" "/p/solo/intro.babulus.ts"
                (Some "/p") noOpts "/p") as [paths [E [Hs [Ht [Ha [Ho _]]]]]].
    + reflexivity.
    + rewrite E. destruct paths. vm_compute in Hs, Ht, Ha, Ho.
      rewrite Hs, Ht, Ha, Ho. reflexivity.
  - destruct (defaultsForComposition_fields "intro" "/p/solo/intro.babulus.ts"
                None (Demo.withScriptOut "custom/script.json") "/p")
      as [paths [E [Hs [Ht [Ha [Ho _]]]]]].
    + reflexivity.
    + rewrite E. destruct paths. vm_compute in Hs, Ht, Ha, Ho.
      rewrite Hs, Ht, Ha, Ho. reflexivity.
Defined.

(** * The watch listener *)

Section WatchFacts.
Context `{Collaborators}.

Lemma endsWith_shorter (s a b : string) :
  Js.endsWith s (a +++ b) = true -> Js.endsWith s b = true.
Proof.
  intros Hs. apply endsWith_spec in Hs. destruct Hs as [x ->].
  rewrite <- append_assoc. apply endsWith_app_same.
Qed.

(** A path that ends in [.yml] or [.yaml] ends neither in [.ts] nor in
    [.xml]. *)
Lemma yaml_is_not_source (p : string) :
  Js.endsWith p ".yml" = true \/ Js.endsWith p ".yaml" = true ->
  Js.endsWith p ".ts" = false /\ Js.endsWith p ".xml" = false.
Proof.
  intros [Hy|Hy]; split.
  - apply (endsWith_same_length p "yml" ".ts"); [reflexivity | discriminate|].
    exact (endsWith_shorter p "." "yml" Hy).
  - apply (endsWith_same_length p ".yml" ".xml"); [reflexivity | discriminate|].
    exact Hy.
  - apply (endsWith_same_length p "aml" ".ts"); [reflexivity | discriminate|].
    exact (endsWith_shorter p ".y" "aml" Hy).
  - apply (endsWith_same_length p "yaml" ".xml"); [reflexivity | discriminate|].
    exact (endsWith_shorter p "." "yaml" Hy).
Qed.

(** The config path the watcher looks for always ends in [config.yml]. *)
Lemma findConfigPathForWatch_yml (fs : Fs.Node) (projectDir dsl : option string)
    (configPath : string) :
  findConfigPathForWatch fs projectDir dsl = Some configPath ->
  Js.endsWith configPath ".yml" = true /\ Js.truthy configPath = true.
Proof.
  unfold findConfigPathForWatch.
  destruct (projectRootFor projectDir dsl) as [e|root]; [discriminate|].
  assert (Hjoin : forall dir, exists pre,
            Path.join3 root dir "config.yml" = pre +++ "config.yml").
  { intros dir. apply (join_all_ends_with_name [root; dir] "config.yml").
    reflexivity. }
  assert (Hboth : forall dir,
            Js.endsWith (Path.join3 root dir "config.yml") ".yml" = true
            /\ Js.truthy (Path.join3 root dir "config.yml") = true).
  { intros dir. destruct (Hjoin dir) as [pre ->]. split.
    - rewrite endsWith_append by (cbn; lia). reflexivity.
    - apply truthy_nonempty, append_nonempty_r. discriminate. }
  destruct (Fs.existsSync fs (Path.join3 root ".videoml" "config.yml")).
  - intros E. injection E as <-. apply Hboth.
  - destruct (Fs.existsSync fs (Path.join3 root ".babulus" "config.yml"));
      [|discriminate].
    intros E. injection E as <-. apply Hboth.
Qed.

Lemma result_bind {A B} (m : M A) (k : A -> M B) :
  result (bind m k)
  = match result m with
    | inl e => inl e
    | inr a => result (k a)
    end.
Proof.
  destruct m as [tr [e|a]]; [reflexivity|].
  rewrite bind_inr. reflexivity.
Qed.

Lemma result_guard (cond : bool) (e : Err) :
  result (if cond then throw e else ret tt : M unit)
  = if cond then inl e else inr tt.
Proof. now destruct cond. Qed.

(** What a session left by [generate] closes over. *)
Lemma generate_session (fs : Fs.Node) (cwd : string) (dslArg : option string)
    (opts : GenerateOpts) (s : WatchSession) :
  result (generate fs cwd dslArg opts) = inr (Some s) ->
  wsCwd s = cwd
  /\ resolveDslPaths fs dslArg cwd = inr (wsDslPaths s)
  /\ result (loadCompositions (wsDslPaths s)) = inr (wsRuns s)
  /\ wsConfigPath s
     = findConfigPathForWatch fs (wsProjectDir s) (hd_error (wsDslPaths s))
  /\ wsDslDirs s = Js.dedupe (map Path.dirname (wsDslPaths s)).
Proof.
  unfold generate. rewrite result_bind.
  destruct (envStep_ok opts) as [tr0 [-> _]]. cbn [result snd].
  rewrite result_bind. unfold lift at 1. cbn [result snd].
  destruct (resolveDslPaths fs dslArg cwd) as [e|dslPaths]; [discriminate|].
  rewrite result_bind, result_guard.
  destruct (optWatch opts && anyOutputOverride opts
            && negb (List.length dslPaths =? 1)%nat); [discriminate|].
  rewrite result_bind.
  destruct (result (loadCompositions dslPaths)) as [e|runs] eqn:Hload;
    [discriminate|].
  rewrite result_bind, result_guard.
  destruct (anyOutputOverride opts && negb (totalComps runs =? 1)%nat);
    [discriminate|].
  rewrite result_bind. unfold call at 1. cbn [result snd].
  destruct (loadConfig _ (hd_error dslPaths)) as [e|cfg]; [discriminate|].
  destruct (optWatch opts); cbn [negb].
  - rewrite !result_bind. cbn [emit result snd].
    destruct (negb (optQuiet opts)); cbn [emit ret result snd];
      intros E; injection E as <-; cbn; repeat split; try reflexivity;
      exact Hload.
  - rewrite result_bind.
    destruct (result (runOnce runs _ opts cfg None)); discriminate.
Qed.

Lemma find_eq_In (l : list string) (x : string) :
  In x l -> Js.find_eq l x = Some x.
Proof.
  unfold Js.find_eq. induction l as [|y l IH]; [contradiction|].
  intros [->|Hin]; cbn [find].
  - now rewrite String.eqb_refl.
  - destruct (String.eqb_spec y x) as [->|_]; [reflexivity | now apply IH].
Qed.

Lemma find_eq_not_In (l : list string) (x : string) :
  ~ In x l -> Js.find_eq l x = None.
Proof.
  unfold Js.find_eq. induction l as [|y l IH]; [reflexivity|].
  intros Hnot. cbn [find].
  destruct (String.eqb_spec y x) as [->|_].
  - exfalso. apply Hnot. now left.
  - apply IH. intros Hin. apply Hnot. now right.
Qed.

Lemma resolve_truthy (cwd p : string) : Js.truthy (Path.resolve cwd p) = true.
Proof. reflexivity. Qed.

(** A rebuild scoped to one source is the rebuild of the runs of that
    source. *)
Lemma runOnce_scoped (runs : list Run) (projectDir : option string)
    (opts : GenerateOpts) (cfg : Config) (source : string) :
  runOnce runs projectDir opts cfg (Some [source])
  = runOnce (filter (fun r => path r =? source) runs) projectDir opts cfg None.
Proof.
  unfold runOnce. induction runs as [|r runs IH]; [reflexivity|].
  cbn [for_each filter].
  change (Js.includes [source] (path r)) with ((path r =? source) || false).
  rewrite orb_false_r.
  destruct (path r =? source); cbn [negb].
  - cbn [for_each]. rewrite IH. reflexivity.
  - rewrite bind_ret_l. exact IH.
Qed.

(** The extension filter at the head of the listener. *)
Lemma extension_filter (p : string) :
  negb (Js.endsWith p ".ts") && negb (Js.endsWith p ".xml")
  && negb (Js.endsWith p ".yml") && negb (Js.endsWith p ".yaml")
  = negb (hasWatchedExtension p).
Proof.
  unfold hasWatchedExtension.
  destruct (Js.endsWith p ".ts"), (Js.endsWith p ".xml"),
    (Js.endsWith p ".yml"), (Js.endsWith p ".yaml"); reflexivity.
Qed.

End WatchFacts.

Section WatchClaims.
Context `{Collaborators}.

(** C5, as the code has it.  In a session left by [generate --watch], with
    [absChanged] the resolved path of the event:
    - a change of the config path runs [runOnce()] over every loaded run;
    - a change of a tracked source path that ends in one of [.ts], [.xml],
      [.yml], [.yaml] and is not the config path runs [runOnce] scoped to
      that path, which is the rebuild of exactly the runs of that source;
    - a change of a path without one of those four endings does nothing at
      all. *)
Theorem watch_event_classification
    (fs : Fs.Node) (cwd : string) (dslArg : option string)
    (opts : GenerateOpts) (s : WatchSession) (changedPath : string) :
  result (generate fs cwd dslArg opts) = inr (Some s) ->
  let absChanged := Path.resolve (wsCwd s) changedPath in
  let rel := relativeTo (wsCwd s) absChanged in
  let rebuild := runOnce (wsRuns s) (wsProjectDir s) (wsOpts s) (wsConfig s) in
  (wsConfigPath s = Some absChanged ->
     onWatchEvent s changedPath
     = (emit (ConsoleError (newline +++ "CHANGE DETECTED (Config): " +++ rel)) ;;
        emit (ConsoleError "Regenerating all compositions...") ;;
        rebuild None ;;
        emit (ConsoleError waitingLine))
     /\ result (loadCompositions (wsDslPaths s)) = inr (wsRuns s))
  /\ (In absChanged (wsDslPaths s) ->
      hasWatchedExtension absChanged = true ->
      wsConfigPath s <> Some absChanged ->
      onWatchEvent s changedPath
      = (emit (ConsoleError (newline +++ "CHANGE DETECTED (DSL): " +++ rel)) ;;
         rebuild (Some [absChanged]) ;;
         emit (ConsoleError waitingLine))
      /\ rebuild (Some [absChanged])
         = runOnce (filter (fun r => path r =? absChanged) (wsRuns s))
             (wsProjectDir s) (wsOpts s) (wsConfig s) None)
  /\ (hasWatchedExtension absChanged = false ->
      onWatchEvent s changedPath = ret tt).
Proof.
  intros Hsession absChanged rel rebuild.
  destruct (generate_session fs cwd dslArg opts s Hsession)
    as [_ [_ [Hruns [Hconfig _]]]].
  split; [|split].
  - intros Hc. split; [|exact Hruns].
    rewrite Hc in Hconfig. symmetry in Hconfig.
    destruct (findConfigPathForWatch_yml _ _ _ _ Hconfig) as [Hyml Htruthy].
    unfold onWatchEvent. fold absChanged. rewrite extension_filter.
    unfold hasWatchedExtension. rewrite Hyml, !orb_true_r. cbn [orb negb].
    rewrite Hc, Htruthy, String.eqb_refl. reflexivity.
  - intros Hin Hext Hnot. split; [|apply runOnce_scoped].
    unfold onWatchEvent. fold absChanged. rewrite extension_filter, Hext.
    cbn [negb].
    assert (Hcfg : match wsConfigPath s with
                   | Some configPath =>
                       Js.truthy configPath && (absChanged =? configPath)
                   | None => false
                   end = false).
    { destruct (wsConfigPath s) as [c|]; [|reflexivity].
      destruct (String.eqb_spec absChanged c) as [E|_];
        [|apply andb_false_r].
      exfalso. apply Hnot. now rewrite E. }
    rewrite Hcfg, (find_eq_In _ _ Hin). cbn [Js.truthyOpt].
    unfold absChanged at 1. rewrite resolve_truthy. reflexivity.
  - intros Hext. unfold onWatchEvent. fold absChanged.
    rewrite extension_filter, Hext. reflexivity.
Qed.

(** C9, as the code has it.  A change of a path that ends in [.yml] or
    [.yaml], is not the config path and is not itself a tracked source path
    does nothing at all: it passes the extension filter and matches none of
    the three branches. *)
Theorem watch_event_yaml_ignored (s : WatchSession) (changedPath : string) :
  let absChanged := Path.resolve (wsCwd s) changedPath in
  Js.endsWith absChanged ".yml" = true \/ Js.endsWith absChanged ".yaml" = true ->
  wsConfigPath s <> Some absChanged ->
  ~ In absChanged (wsDslPaths s) ->
  hasWatchedExtension absChanged = true
  /\ onWatchEvent s changedPath = ret tt.
Proof.
  intros absChanged Hyaml Hnot Hnotin.
  assert (Hext : hasWatchedExtension absChanged = true).
  { unfold hasWatchedExtension.
    destruct Hyaml as [E|E]; rewrite E; now rewrite ?orb_true_r. }
  split; [exact Hext|].
  destruct (yaml_is_not_source absChanged Hyaml) as [Hts Hxml].
  unfold onWatchEvent. fold absChanged. rewrite extension_filter, Hext.
  cbn [negb].
  assert (Hcfg : match wsConfigPath s with
                 | Some configPath =>
                     Js.truthy configPath && (absChanged =? configPath)
                 | None => false
                 end = false).
  { destruct (wsConfigPath s) as [c|]; [|reflexivity].
    destruct (String.eqb_spec absChanged c) as [E|_];
      [|apply andb_false_r].
    exfalso. apply Hnot. now rewrite E. }
  rewrite Hcfg, (find_eq_not_In _ _ Hnotin). cbn [Js.truthyOpt].
  rewrite Hts, Hxml, andb_false_r. reflexivity.
Qed.

End WatchClaims.

Lemma demo_sessions :
  Demo.sessionOf "solo" = Some Demo.soloSession
  /\ Demo.sessionOf "intro.babulus.tsx" = Some Demo.tsxSession
  /\ Demo.sessionOf "video.yml" = Some Demo.ymlSession.
Proof. repeat split. Qed.

Lemma watch_event_classification_witness :
  generations (trace (onWatchEvent Demo.soloSession ".videoml/config.yml"))
  = generations (trace (runOnce (wsRuns Demo.soloSession) None Demo.watching tt None))
  /\ onWatchEvent Demo.soloSession "solo/intro.babulus.ts"
     = (emit (ConsoleError (newline +++ "CHANGE DETECTED (DSL): solo/intro.babulus.ts")) ;;
        runOnce (wsRuns Demo.soloSession) None Demo.watching tt
          (Some ["/p/solo/intro.babulus.ts"]) ;;
        emit (ConsoleError waitingLine))
  /\ onWatchEvent Demo.soloSession "solo/picture.png" = ret tt.
Proof.
  assert (Hsession : result (generate Demo.fs "/p" (Some "solo") Demo.watching)
                     = inr (Some Demo.soloSession)) by reflexivity.
  split; [|split].
  - destruct (watch_event_classification Demo.fs "/p" (Some "solo") Demo.watching
                Demo.soloSession ".videoml/config.yml" Hsession)
      as [Hconfig _].
    destruct Hconfig as [E _]; [reflexivity|]. rewrite E. reflexivity.
  - destruct (watch_event_classification Demo.fs "/p" (Some "solo") Demo.watching
                Demo.soloSession "solo/intro.babulus.ts" Hsession)
      as [_ [Hsource _]].
    destruct Hsource as [E _].
    + simpl. left. reflexivity.
    + reflexivity.
    + simpl. discriminate.
    + exact E.
  - destruct (watch_event_classification Demo.fs "/p" (Some "solo") Demo.watching
                Demo.soloSession "solo/picture.png" Hsession)
      as [_ [_ Hother]].
    apply Hother. reflexivity.
Defined.

(** C5 as stated fails: [/p/intro.babulus.tsx], given on the command line,
    is the tracked source path of the session, a rebuild scoped to it would
    generate, and yet a change of it triggers nothing. *)
Lemma watch_event_classification_counterexample :
  result (generate Demo.fs "/p" (Some "intro.babulus.tsx") Demo.watching)
  = inr (Some Demo.tsxSession)
  /\ In (Path.resolve (wsCwd Demo.tsxSession) "intro.babulus.tsx")
        (wsDslPaths Demo.tsxSession)
  /\ generations (trace (runOnce (wsRuns Demo.tsxSession) None Demo.watching tt
                           (Some ["/p/intro.babulus.tsx"]))) <> []
  /\ onWatchEvent Demo.tsxSession "intro.babulus.tsx" = ret tt.
Proof.
  split; [reflexivity|]. split; [left; reflexivity|].
  split; [discriminate | reflexivity].
Qed.

Lemma watch_event_yaml_ignored_witness :
  hasWatchedExtension (Path.resolve (wsCwd Demo.soloSession) "solo/voices.yaml")
  = true
  /\ onWatchEvent Demo.soloSession "solo/voices.yaml" = ret tt.
Proof.
  apply (watch_event_yaml_ignored Demo.soloSession "solo/voices.yaml").
  - right. reflexivity.
  - simpl. discriminate.
  - simpl. intros [E|[]]. discriminate E.
Defined.

(** C9 as stated fails: [/p/video.yml], given on the command line, ends in
    [.yml], lies in the watched directory [/p] and is not the config path,
    and a change of it triggers the rebuild of its source. *)
Lemma watch_event_yaml_counterexample :
  result (generate Demo.fs "/p" (Some "video.yml") Demo.watching)
  = inr (Some Demo.ymlSession)
  /\ Js.endsWith (Path.resolve (wsCwd Demo.ymlSession) "video.yml") ".yml" = true
  /\ In (Path.dirname (Path.resolve (wsCwd Demo.ymlSession) "video.yml"))
        (wsWatchDirs Demo.ymlSession)
  /\ wsConfigPath Demo.ymlSession
     <> Some (Path.resolve (wsCwd Demo.ymlSession) "video.yml")
  /\ List.length (generations (trace (onWatchEvent Demo.ymlSession "video.yml"))) = 1.
Proof.
  split; [reflexivity|]. split; [reflexivity|]. split; [left; reflexivity|].
  split; [discriminate | reflexivity].
Qed.

(** * The directory scan *)

Section ScanFacts.

(** Induction on directory trees. *)
Lemma Node_induction (P : Fs.Node -> Prop) :
  (forall content, P (Fs.File content)) ->
  P Fs.Special ->
  (forall entries, Forall (fun e => P (snd e)) entries -> P (Fs.Dir entries)) ->
  forall n, P n.
Proof.
  intros HF HS HD. fix IH 1. intros [content|entries|].
  - apply HF.
  - apply HD. induction entries as [|[name child] entries IHentries].
    + constructor.
    + constructor; [apply IH | exact IHentries].
  - apply HS.
Qed.

(** The string order of [sort] is transitive. *)
Lemma ascii_compare_lt_trans (a b c : ascii) :
  Ascii.compare a b = Lt -> Ascii.compare b c = Lt -> Ascii.compare a c = Lt.
Proof.
  unfold Ascii.compare. rewrite !BinNat.N.compare_lt_iff.
  apply BinNat.N.lt_trans.
Qed.

Lemma string_leb_trans (s1 s2 s3 : string) :
  String.leb s1 s2 = true -> String.leb s2 s3 = true -> String.leb s1 s3 = true.
Proof.
  unfold String.leb. revert s2 s3.
  induction s1 as [|a s1 IH]; intros [|b s2] [|c s3]; cbn [String.compare];
    try (intros; reflexivity); try discriminate.
  destruct (Ascii.compare a b) eqn:Eab; try discriminate;
    destruct (Ascii.compare b c) eqn:Ebc; try discriminate; intros H12 H23.
  - apply Ascii.compare_eq_iff in Eab. apply Ascii.compare_eq_iff in Ebc.
    subst. assert (E : Ascii.compare c c = Eq).
    { unfold Ascii.compare. apply BinNat.N.compare_refl. }
    rewrite E. exact (IH s2 s3 H12 H23).
  - apply Ascii.compare_eq_iff in Eab. subst. now rewrite Ebc.
  - apply Ascii.compare_eq_iff in Ebc. subst. now rewrite Eab.
  - now rewrite (ascii_compare_lt_trans a b c Eab Ebc).
Qed.

Lemma StringOrder_transitive : Transitive (fun a b => is_true (StringOrder.leb a b)).
Proof. intros a b c. apply string_leb_trans. Qed.

Lemma findDslFilesAt_Dir (root : string) (entries : list (string * Fs.Node))
    (recursive : bool) :
  findDslFilesAt root (Fs.Dir entries) recursive
  = StringSort.sort (flat_map (Tree.scanEntry root recursive) entries).
Proof.
  cbn [findDslFilesAt]. f_equal.
  induction entries as [|[name child] entries IH]; [reflexivity|].
  cbn [flat_map]. rewrite <- IH. unfold Tree.scanEntry. cbn [fst snd].
  destruct child; reflexivity.
Qed.

Lemma dslFiles_Dir (prefix : list string) (entries : list (string * Fs.Node))
    (recursive : bool) :
  Tree.dslFiles prefix (Fs.Dir entries) recursive
  = flat_map (Tree.listEntry prefix recursive) entries.
Proof.
  cbn [Tree.dslFiles].
  induction entries as [|[name child] entries IH]; [reflexivity|].
  cbn [flat_map]. rewrite <- IH. unfold Tree.listEntry. cbn [fst snd].
  destruct child; reflexivity.
Qed.

Lemma wellFormed_Dir (entries : list (string * Fs.Node)) :
  Tree.wellFormed (Fs.Dir entries)
  = forallb Path.isName (map fst entries)
    && Tree.distinct (map fst entries)
    && forallb (fun e => Tree.wellFormed (snd e)) entries.
Proof.
  cbn [Tree.wellFormed]. f_equal.
  induction entries as [|[name child] entries IH]; [reflexivity|].
  cbn [forallb snd]. now rewrite <- IH.
Qed.

(** What well-formedness gives at one entry of a directory. *)
Lemma wellFormed_entry (entries : list (string * Fs.Node)) (name : string)
    (child : Fs.Node) :
  Tree.wellFormed (Fs.Dir entries) = true ->
  In (name, child) entries ->
  Path.isName name = true /\ Tree.wellFormed child = true.
Proof.
  rewrite wellFormed_Dir. intros Hwf Hin.
  apply andb_true_iff in Hwf. destruct Hwf as [Hwf Hchildren].
  apply andb_true_iff in Hwf. destruct Hwf as [Hnames _].
  rewrite forallb_forall in Hnames, Hchildren. split.
  - apply Hnames. apply in_map_iff. now exists (name, child).
  - exact (Hchildren (name, child) Hin).
Qed.

Lemma includes_In (l : list string) (x : string) :
  Js.includes l x = true <-> In x l.
Proof.
  unfold Js.includes. rewrite existsb_exists. split.
  - intros [y [Hy E]]. apply String.eqb_eq in E. now subst.
  - intros Hx. exists x. split; [exact Hx | apply String.eqb_refl].
Qed.

Lemma distinct_tail (n : string) (rest : list string) :
  Tree.distinct (n :: rest) = true ->
  ~ In n rest /\ Tree.distinct rest = true.
Proof.
  cbn [Tree.distinct]. intros Hd. apply andb_true_iff in Hd.
  destruct Hd as [Hn Hrest]. split; [|exact Hrest].
  intros Hin. apply includes_In in Hin. rewrite Hin in Hn. discriminate Hn.
Qed.

Lemma wellFormed_tail (e : string * Fs.Node) (entries : list (string * Fs.Node)) :
  Tree.wellFormed (Fs.Dir (e :: entries)) = true ->
  Tree.wellFormed (Fs.Dir entries) = true.
Proof.
  rewrite !wellFormed_Dir. cbn [map forallb]. intros Hwf.
  apply andb_true_iff in Hwf. destruct Hwf as [Hwf Hchildren].
  apply andb_true_iff in Hwf. destruct Hwf as [Hnames Hdistinct].
  apply andb_true_iff in Hnames. destruct Hnames as [_ Hnames].
  apply andb_true_iff in Hchildren. destruct Hchildren as [_ Hchildren].
  destruct (distinct_tail _ _ Hdistinct) as [_ Hd].
  now rewrite Hnames, Hd, Hchildren.
Qed.

(** With distinct names an entry is what looking up its name finds. *)
Lemma lookup_entry_In (entries : list (string * Fs.Node)) (name : string)
    (child : Fs.Node) :
  Tree.distinct (map fst entries) = true ->
  In (name, child) entries ->
  Fs.lookup_entry name entries = Some child.
Proof.
  induction entries as [|[n c] entries IH]; [contradiction|].
  cbn [map fst]. intros Hd Hin. destruct (distinct_tail _ _ Hd) as [Hn Hrest].
  cbn [Fs.lookup_entry]. destruct Hin as [E|Hin].
  - injection E as -> ->. now rewrite String.eqb_refl.
  - destruct (String.eqb_spec n name) as [->|_]; [|now apply IH].
    exfalso. apply Hn. apply in_map_iff. now exists (name, child).
Qed.

Lemma lookup_entry_Some (entries : list (string * Fs.Node)) (name : string)
    (child : Fs.Node) :
  Fs.lookup_entry name entries = Some child -> In (name, child) entries.
Proof.
  induction entries as [|[n c] entries IH]; [discriminate|].
  cbn [Fs.lookup_entry]. destruct (String.eqb_spec n name) as [->|_].
  - intros E. injection E as ->. now left.
  - intros E. right. now apply IH.
Qed.

(** Walking a well-formed tree goes through plain names and ends in a
    well-formed tree. *)
Lemma walk_wellFormed (segs : list string) (n m : Fs.Node) :
  Tree.wellFormed n = true -> Fs.walk segs n = Some m ->
  Forall (fun s => Path.isName s = true) segs /\ Tree.wellFormed m = true.
Proof.
  revert n. induction segs as [|x segs IH]; intros n Hwf Hwalk.
  - injection Hwalk as <-. split; [constructor | exact Hwf].
  - cbn [Fs.walk] in Hwalk. destruct n as [c|entries|]; try discriminate.
    destruct (Fs.lookup_entry x entries) as [child|] eqn:Hl; [|discriminate].
    apply lookup_entry_Some in Hl.
    destruct (wellFormed_entry entries x child Hwf Hl) as [Hx Hchild].
    destruct (IH child Hchild Hwalk) as [Hsegs Hm].
    split; [constructor; assumption | exact Hm].
Qed.

Lemma join_name (prefix : list string) (name : string) :
  Forall (fun n => Path.isName n = true) prefix ->
  Path.isName name = true ->
  Path.join (Path.absolute prefix) name = Path.absolute (prefix ++ [name]).
Proof.
  intros Hprefix Hname.
  apply (join_absolute prefix [name]);
    [assumption | repeat constructor; assumption | discriminate].
Qed.

(** The scan is, up to its order, the listing turned into paths. *)
Lemma scan_is_listing (n : Fs.Node) :
  forall prefix,
    Forall (fun s => Path.isName s = true) prefix ->
    Tree.wellFormed n = true ->
    Permutation (findDslFilesAt (Path.absolute prefix) n true)
                (map Path.absolute (Tree.dslFiles prefix n true)).
Proof.
  induction n as [content| |entries IH] using Node_induction;
    intros prefix Hprefix Hwf; try constructor.
  rewrite findDslFilesAt_Dir, dslFiles_Dir.
  etransitivity; [symmetry; apply StringSort.Permuted_sort|].
  induction entries as [|[name child] entries IHentries]; [constructor|].
  inversion IH as [|? ? IHchild IHrest]; subst. cbn [snd] in IHchild.
  destruct (wellFormed_entry _ name child Hwf (or_introl eq_refl))
    as [Hname Hchild].
  cbn [flat_map]. rewrite map_app. apply Permutation_app.
  - unfold Tree.scanEntry, Tree.listEntry. cbn [fst snd].
    rewrite (join_name prefix name Hprefix Hname).
    destruct child as [content|children|].
    + destruct (isDslName name); constructor. constructor.
    + apply IHchild; [|exact Hchild].
      apply Forall_app. split; [exact Hprefix | now repeat constructor].
    + constructor.
  - apply IHentries; [exact IHrest | exact (wellFormed_tail _ _ Hwf)].
Qed.

(** The listing holds exactly the regular files with a matching name that
    walking down from the node reaches. *)
Lemma dslFiles_reached (n : Fs.Node) :
  forall prefix l,
    Tree.wellFormed n = true ->
    (In l (Tree.dslFiles prefix n true) <->
     exists rel content,
       l = prefix ++ rel
       /\ Fs.walk rel n = Some (Fs.File content)
       /\ isDslName (last rel "") = true).
Proof.
  induction n as [content| |entries IH] using Node_induction;
    intros prefix l Hwf.
  - split; [contradiction|].
    intros [rel [c [_ [Hwalk Hname]]]]. destruct rel as [|x rel].
    + discriminate Hname.
    + discriminate Hwalk.
  - split; [contradiction|].
    intros [rel [c [_ [Hwalk _]]]]. destruct rel; discriminate Hwalk.
  - rewrite dslFiles_Dir, in_flat_map. split.
    + intros [[name child] [Hin Hl]].
      assert (Hlook : Fs.lookup_entry name entries = Some child).
      { apply lookup_entry_In; [|exact Hin]. rewrite wellFormed_Dir in Hwf.
        apply andb_true_iff in Hwf. destruct Hwf as [Hwf _].
        now apply andb_true_iff in Hwf. }
      destruct (wellFormed_entry _ name child Hwf Hin) as [_ Hchild].
      rewrite Forall_forall in IH. specialize (IH (name, child) Hin).
      cbn [snd] in IH. unfold Tree.listEntry in Hl. cbn [fst snd] in Hl.
      destruct child as [content|children|]; [| |contradiction].
      * destruct (isDslName name) eqn:Hname; [|contradiction].
        destruct Hl as [<-|[]]. exists [name], content.
        cbn [Fs.walk last]. now rewrite Hlook.
      * apply (IH (prefix ++ [name]) l Hchild) in Hl.
        destruct Hl as [rel [content [-> [Hwalk Hname]]]].
        exists (name :: rel), content. rewrite <- app_assoc.
        split; [reflexivity|]. cbn [Fs.walk]. rewrite Hlook.
        split; [exact Hwalk|]. destruct rel as [|x rel];
          [discriminate Hwalk | exact Hname].
    + intros [rel [content [-> [Hwalk Hname]]]].
      destruct rel as [|name rel]; [discriminate Hwalk|].
      cbn [Fs.walk] in Hwalk.
      destruct (Fs.lookup_entry name entries) as [child|] eqn:Hlook;
        [|discriminate].
      apply lookup_entry_Some in Hlook. exists (name, child).
      split; [exact Hlook|].
      destruct (wellFormed_entry _ name child Hwf Hlook) as [_ Hchild].
      rewrite Forall_forall in IH. specialize (IH (name, child) Hlook).
      cbn [snd] in IH. unfold Tree.listEntry. cbn [fst snd].
      destruct rel as [|x rel].
      * injection Hwalk as ->. cbn [last] in Hname. rewrite Hname. now left.
      * destruct child as [c|children|]; try discriminate Hwalk.
        apply (IH (prefix ++ [name]) _ Hchild).
        exists (x :: rel), content. rewrite <- app_assoc.
        split; [reflexivity|]. split; [exact Hwalk | exact Hname].
Qed.

(** Every listed file lies below the node, and below the entry that lists
    it. *)
Lemma dslFiles_below (n : Fs.Node) :
  forall above l,
    In l (Tree.dslFiles above n true) -> exists rel, l = above ++ rel.
Proof.
  induction n as [content| |entries IH] using Node_induction;
    intros above l; try contradiction.
  rewrite dslFiles_Dir, in_flat_map. intros [[n c] [Hin Hl]].
  rewrite Forall_forall in IH. specialize (IH (n, c) Hin). cbn [snd] in IH.
  unfold Tree.listEntry in Hl. cbn [fst snd] in Hl.
  destruct c as [content|grandchildren|]; [| |contradiction].
  - destruct (isDslName n); [|contradiction].
    destruct Hl as [<-|[]]. now exists [n].
  - destruct (IH _ _ Hl) as [rel ->]. exists (n :: rel).
    now rewrite <- app_assoc.
Qed.

Lemma listEntry_below (prefix : list string) (e : string * Fs.Node)
    (l : list string) :
  In l (Tree.listEntry prefix true e) -> exists rel, l = prefix ++ fst e :: rel.
Proof.
  destruct e as [name child]. unfold Tree.listEntry. cbn [fst snd].
  destruct child as [content|children|]; [| |contradiction].
  - destruct (isDslName name); [|contradiction].
    intros [<-|[]]. now exists [].
  - intros Hl. destruct (dslFiles_below _ _ _ Hl) as [rel ->].
    exists rel. now rewrite <- app_assoc.
Qed.

(** In a well-formed tree the listing names no file twice. *)
Lemma dslFiles_NoDup (n : Fs.Node) :
  forall prefix,
    Tree.wellFormed n = true -> NoDup (Tree.dslFiles prefix n true).
Proof.
  induction n as [content| |entries IH] using Node_induction;
    intros prefix Hwf; try constructor.
  rewrite dslFiles_Dir.
  induction entries as [|[name child] entries IHentries]; [constructor|].
  inversion IH as [|? ? IHchild IHrest]; subst. cbn [snd] in IHchild.
  destruct (wellFormed_entry _ name child Hwf (or_introl eq_refl))
    as [_ Hchild].
  cbn [flat_map]. apply NoDup_app.
  - unfold Tree.listEntry. cbn [fst snd].
    destruct child as [content|children|]; [| |constructor].
    + destruct (isDslName name); repeat constructor. intros [].
    + apply IHchild. exact Hchild.
  - apply IHentries; [exact IHrest | exact (wellFormed_tail _ _ Hwf)].
  - intros l Hhere Hthere.
    apply listEntry_below in Hhere. destruct Hhere as [rel ->].
    apply in_flat_map in Hthere. destruct Hthere as [[name' child'] [Hin Hl]].
    apply listEntry_below in Hl. destruct Hl as [rel' E].
    apply app_inv_head in E. injection E as E _. cbn [fst] in E. subst name'.
    rewrite wellFormed_Dir in Hwf.
    apply andb_true_iff in Hwf. destruct Hwf as [Hwf _].
    apply andb_true_iff in Hwf. destruct Hwf as [_ Hdistinct].
    cbn [map fst] in Hdistinct.
    destruct (distinct_tail _ _ Hdistinct) as [Hnot _].
    apply Hnot. apply in_map_iff. now exists (name, child').
Qed.

End ScanFacts.

Section ScanClaims.

(** C7.  In a well-formed directory tree the recursive scan of a directory
    returns exactly the regular files below it whose name ends in
    [.babulus.ts] or [.babulus.xml], each by its path: no other file, no
    directory, every matching file.  The list is sorted in the order of the
    strings and holds no path twice. *)
Theorem findDslFiles_exact
    (fs : Fs.Node) (rootNames : list string)
    (entries : list (string * Fs.Node)) :
  Tree.wellFormed fs = true ->
  Forall (fun n => Path.isName n = true) rootNames ->
  Fs.lookup fs (Path.absolute rootNames) = Some (Fs.Dir entries) ->
  exists found,
    findDslFiles fs (Path.absolute rootNames) true = inr found
    /\ (forall p,
          In p found <->
          exists rel content,
            p = Path.absolute (rootNames ++ rel)
            /\ Fs.walk (rootNames ++ rel) fs = Some (Fs.File content)
            /\ isDslName (last rel "") = true)
    /\ StronglySorted (fun a b => String.leb a b = true) found
    /\ NoDup found.
Proof.
  intros Hwf Hroot Hlookup.
  assert (Hwalk : Fs.walk rootNames fs = Some (Fs.Dir entries))
    by now rewrite <- lookup_absolute.
  destruct (walk_wellFormed _ _ _ Hwf Hwalk) as [_ Hdir].
  pose proof (scan_is_listing (Fs.Dir entries) rootNames Hroot Hdir) as Hperm.
  assert (Hnames : forall l, In l (Tree.dslFiles rootNames (Fs.Dir entries) true) ->
                     Forall (fun n => Path.isName n = true) l).
  { intros l Hl. apply (dslFiles_reached _ rootNames l Hdir) in Hl.
    destruct Hl as [rel [content [-> [Hrel _]]]].
    destruct (walk_wellFormed _ _ _ Hdir Hrel) as [Hn _].
    apply Forall_app. now split. }
  exists (findDslFilesAt (Path.absolute rootNames) (Fs.Dir entries) true).
  split; [|split; [|split]].
  - unfold findDslFiles. now rewrite Hlookup.
  - intros p. split.
    + intros Hp. apply (Permutation_in _ Hperm) in Hp.
      apply in_map_iff in Hp. destruct Hp as [l [<- Hl]].
      apply (dslFiles_reached _ rootNames l Hdir) in Hl.
      destruct Hl as [rel [content [-> [Hrel Hname]]]].
      exists rel, content. rewrite walk_app, Hwalk. now repeat split.
    + intros [rel [content [-> [Hrel Hname]]]].
      apply (Permutation_in _ (Permutation_sym Hperm)).
      apply in_map. apply (dslFiles_reached _ rootNames _ Hdir).
      exists rel, content. rewrite walk_app, Hwalk in Hrel. now repeat split.
  - rewrite findDslFilesAt_Dir.
    exact (StringSort.StronglySorted_sort _ StringOrder_transitive).
  - apply (Permutation_NoDup (Permutation_sym Hperm)).
    apply NoDup_map_NoDup_ForallPairs; [|now apply dslFiles_NoDup].
    intros x y Hx Hy E. apply absolute_inj; auto.
Qed.

End ScanClaims.

Lemma findDslFiles_exact_witness :
  findDslFiles Demo.fs "/p/content" true
  = inr ["/p/content/a.babulus.ts"; "/p/content/b.babulus.xml";
         "/p/content/sub/c.babulus.ts"]
  /\ NoDup ["/p/content/a.babulus.ts"; "/p/content/b.babulus.xml";
            "/p/content/sub/c.babulus.ts"].
Proof.
  destruct (findDslFiles_exact Demo.fs ["p"; "content"]
              [("b.babulus.xml", Fs.File ""); ("notes.txt", Fs.File "");
               ("a.babulus.ts", Fs.File "");
               ("sub", Fs.Dir [("c.babulus.ts", Fs.File "");
                               ("c.png", Fs.File "")])])
    as [found [Hfound [_ [_ Hnodup]]]].
  - reflexivity.
  - repeat constructor.
  - reflexivity.
  - assert (E : found = ["/p/content/a.babulus.ts"; "/p/content/b.babulus.xml";
                         "/p/content/sub/c.babulus.ts"]).
    { vm_compute in Hfound. now injection Hfound. }
    rewrite <- E. split; [exact Hfound | exact Hnodup].
Defined.

(** C8 as stated fails: in watch mode over the three sources of
    [/p/content], with [--usage-out] set and three compositions in all, the
    batch is rejected, but not with the single-composition error. *)
Lemma generate_usage_out_counterexample :
  resolveDslPaths Demo.fs (Some "content") "/p"
  = inr ["/p/content/a.babulus.ts"; "/p/content/b.babulus.xml";
         "/p/content/sub/c.babulus.ts"]
  /\ (exists runs,
        result (loadCompositions
                  ["/p/content/a.babulus.ts"; "/p/content/b.babulus.xml";
                   "/p/content/sub/c.babulus.ts"]) = inr runs
        /\ totalComps runs = 3)
  /\ result (generate Demo.fs "/p" (Some "content")
               {| optScriptOut := None; optTimelineOut := None;
                  optAudioOut := None; optOutDir := None;
                  optUsageOut := Some "usage.json"; optUsage := true;
                  optEnv := None; optEnvironment := None; optProvider := None;
                  optSfxProvider := None; optMusicProvider := None;
                  optSeed := None; optFresh := false; optWatch := true;
                  optQuiet := true; optProjectDir := None |})
     = inl (BabulusError watchOverrideMessage)
  /\ watchOverrideMessage <> singleCompositionMessage.
Proof.
  split; [reflexivity|]. split; [eexists; split; reflexivity|].
  split; [reflexivity | discriminate].
Qed.

(** C1, at the input where the code departs from it:
    [vml generate two.babulus.ts --script-out ""] in [/p].  The source
    declares two compositions and the script override is the empty string,
    which the guards read as absent and [defaultsForComposition] as given:
    the batch is not rejected, and both compositions are generated with the
    empty script path. *)
Theorem generate_empty_override_not_rejected :
  resolveDslPaths Demo.fs (Some "two.babulus.ts") "/p" = inr ["/p/two.babulus.ts"]
  /\ loadCompositions ["/p/two.babulus.ts"]
     = ([LoadVideoFile "/p/two.babulus.ts"], inr Demo.twoRuns)
  /\ totalComps Demo.twoRuns = 2
  /\ optScriptOut (Demo.withScriptOut "") = Some ""
  /\ result (generate Demo.fs "/p" (Some "two.babulus.ts") (Demo.withScriptOut ""))
     = inr None
  /\ map (fun req => (id (composition req), scriptOut req))
         (generations
            (trace (generate Demo.fs "/p" (Some "two.babulus.ts")
                      (Demo.withScriptOut ""))))
     = [("intro", ""); ("outro", "")]
  /\ exitCode (vml Demo.fs "/p"
                 (CmdGenerate (Some "two.babulus.ts") (Demo.withScriptOut ""))) = 0.
Proof. repeat split. Qed.

(** * The path functions on sample inputs *)

Example join_intro :
  Path.join "/p" "src/videos/intro/intro.script.json"
  = "/p/src/videos/intro/intro.script.json".
Proof. reflexivity. Qed.

Example join_root : Path.join "/" "content" = "/content".
Proof. reflexivity. Qed.

Example join_dots : Path.join "/a/b/" "../c/./d" = "/a/c/d".
Proof. reflexivity. Qed.

Example resolve_rel : Path.resolve "/home/u/proj" "content/a.babulus.ts"
  = "/home/u/proj/content/a.babulus.ts".
Proof. reflexivity. Qed.

Example resolve_abs : Path.resolve "/home/u/proj" "/tmp/x/../y/" = "/tmp/y".
Proof. reflexivity. Qed.

Example resolve_empty : Path.resolve "/home/u" "" = "/home/u".
Proof. reflexivity. Qed.

Example dirname_file : Path.dirname "/p/content/a.babulus.ts" = "/p/content".
Proof. reflexivity. Qed.

Example dirname_top : Path.dirname "/a" = "/".
Proof. reflexivity. Qed.

Example dirname_rel : Path.dirname "a" = ".".
Proof. reflexivity. Qed.

Example dirname_trailing : Path.dirname "/a/b/" = "/a".
Proof. reflexivity. Qed.

Example endsWith_ts : Js.endsWith "/p/a.babulus.ts" ".ts" = true.
Proof. reflexivity. Qed.

Example endsWith_tsx : Js.endsWith "/p/a.babulus.tsx" ".ts" = false.
Proof. reflexivity. Qed.

Example scan_of_content :
  findDslFiles Demo.fs "/p/content" true
  = inr ["/p/content/a.babulus.ts"; "/p/content/b.babulus.xml";
         "/p/content/sub/c.babulus.ts"].
Proof. reflexivity. Qed.

Example scan_not_recursive :
  findDslFiles Demo.fs "/p" false = inr ["/p/two.babulus.ts"].
Proof. reflexivity. Qed.

Example discovery_single :
  resolveDslPaths Demo.fs None "/p/solo" = inr ["/p/solo/intro.babulus.ts"].
Proof. reflexivity. Qed.

Example missing_argument_path :
  resolveDslPaths Demo.fs (Some "nowhere") "/p"
  = inl (BabulusError "Path does not exist: /p/nowhere").
Proof. reflexivity. Qed.

Example settle_finishes_rebuild :
  inFlight
    (eventLoop (watchListener Demo.soloSession) tt
       [Changed "solo/intro.babulus.ts"; Changed "solo/intro.babulus.ts";
        Settled 0])
  = inFlight
      (eventLoop (watchListener Demo.soloSession) tt
         [Changed "solo/intro.babulus.ts"]).
Proof. reflexivity. Qed.

Example singleFlight_queues :
  let idle := {| rebuilding := false; queued := false |} in
  let twice := [Changed "solo/intro.babulus.ts"; Changed "solo/intro.babulus.ts"] in
  List.length
    (inFlight (eventLoop (singleFlightListener Demo.soloSession) idle twice)) = 1
  /\ List.length
       (generations
          (performed (eventLoop (singleFlightListener Demo.soloSession) idle
                        twice))) = 1
  /\ List.length
       (generations
          (performed (eventLoop (singleFlightListener Demo.soloSession) idle
                        (twice ++ [Settled 0])))) = 2.
Proof. repeat split. Qed.

Example render_script_missing :
  vml Demo.fs "/p" (CmdRender (Demo.renderOf "missing.json"))
  = ([ConsoleErrorObject (SystemError "ENOENT" "/p/missing.json")], 1).
Proof. reflexivity. Qed.

Example render_script_is_a_directory :
  vml Demo.fs "/p" (CmdRender (Demo.renderOf "solo"))
  = ([ConsoleErrorObject (SystemError "EISDIR" "/p/solo")], 1).
Proof. reflexivity. Qed.

(** * Beyond the claims: the loader adapter *)

Section LoaderProperties.
Context `{Collaborators}.

Lemma trace_bind {A B} (m : M A) (k : A -> M B) :
  trace (bind m k)
  = trace m ++ match result m with
               | inl _ => []
               | inr a => trace (k a)
               end.
Proof.
  destruct m as [tr [e|a]].
  - cbn. now rewrite app_nil_r.
  - rewrite bind_inr. reflexivity.
Qed.

(** What a successful [loadCompositions] has done and what it returns. *)
Lemma loadCompositions_returns
    (dslPaths : list string) (tr : list Effect) (runs : list Run) :
  loadCompositions dslPaths = (tr, inr runs) ->
  tr = map LoadVideoFile dslPaths
  /\ map path runs = dslPaths
  /\ Forall (fun r => loadVideoFile (path r) = inr (compositions r)) runs.
Proof.
  revert tr runs. induction dslPaths as [|p rest IH]; intros tr runs.
  - cbn. intros E. injection E as <- <-. repeat split. constructor.
  - cbn [loadCompositions]. unfold call.
    destruct (loadVideoFile p) as [e|comps] eqn:Hp; [discriminate|].
    rewrite bind_inr.
    destruct (loadCompositions rest) as [tr' [e|runs']] eqn:Hrest.
    + cbn. discriminate.
    + destruct (IH tr' runs' eq_refl) as [Htr [Hpaths Hall]].
      rewrite bind_inr. cbn. rewrite app_nil_r.
      intros E. injection E as <- <-. cbn [map path]. subst tr'.
      rewrite Hpaths. repeat split. constructor; [exact Hp | exact Hall].
Qed.

(** X1.  When [loadCompositions] returns, it has called the loader once for
    each source path, in order and nothing else, and it returns one run per
    source path, in the same order, holding what the loader answered for
    that path. *)
Theorem loadCompositions_runs
    (dslPaths : list string) (tr : list Effect) (runs : list Run) :
  loadCompositions dslPaths = (tr, inr runs) ->
  tr = map LoadVideoFile dslPaths
  /\ map path runs = dslPaths
  /\ Forall (fun r => loadVideoFile (path r) = inr (compositions r)) runs.
Proof.
  exact (loadCompositions_returns dslPaths tr runs).
Qed.

(** X2.  A source the loader refuses stops the loading: the sources after it
    are not loaded, and the loader's error is what [loadCompositions]
    throws. *)
Theorem loadCompositions_stops_at_failure
    (before after : list string) (p : string) (e : Err) :
  Forall (fun q => exists comps, loadVideoFile q = inr comps) before ->
  loadVideoFile p = inl e ->
  loadCompositions (before ++ p :: after)
  = (map LoadVideoFile (before ++ [p]), inl e).
Proof.
  intros Hbefore Hp. induction before as [|q before IH].
  - cbn [app loadCompositions]. unfold call. rewrite Hp. reflexivity.
  - inversion Hbefore as [|? ? [comps Hq] Hrest]; subst.
    cbn [app loadCompositions]. unfold call. rewrite Hq, bind_inr.
    rewrite (IH Hrest). reflexivity.
Qed.

End LoaderProperties.

Lemma loadCompositions_runs_witness :
  map path Demo.twoRuns = ["/p/two.babulus.ts"].
Proof.
  destruct (loadCompositions_runs ["/p/two.babulus.ts"]
              [LoadVideoFile "/p/two.babulus.ts"] Demo.twoRuns)
    as [_ [Hpaths _]].
  - reflexivity.
  - exact Hpaths.
Defined.

Lemma loadCompositions_stops_at_failure_witness :
  @loadCompositions Demo.domain Strict.collaborators
    ["/p/solo/intro.babulus.ts"; "/p/notes.txt"; "/p/two.babulus.ts"]
  = ([LoadVideoFile "/p/solo/intro.babulus.ts"; LoadVideoFile "/p/notes.txt"],
     inl (CollaboratorError "not a source file")).
Proof.
  apply (@loadCompositions_stops_at_failure Demo.domain Strict.collaborators
           ["/p/solo/intro.babulus.ts"] ["/p/two.babulus.ts"] "/p/notes.txt").
  - constructor; [|constructor]. eexists. reflexivity.
  - reflexivity.
Defined.

(** * Beyond the claims: the source resolver *)

Section ResolverProperties.

(** X3.  Without an argument the resolver returns a list exactly when
    discovery finds one file, and then it returns that file alone; when
    discovery finds none, the error is the one that tells the user to pass a
    path or to create a file under [content/]. *)
Theorem resolveDslPaths_discovery_exactly_one
    (fs : Fs.Node) (cwd : string) (l : list string) :
  (resolveDslPaths fs None cwd = inr l
   <-> exists x, discoverProjectDsls fs cwd = inr [x] /\ l = [x])
  /\ (discoverProjectDsls fs cwd = inr []
      -> resolveDslPaths fs None cwd = inl (BabulusError noDslMessage)).
Proof.
  unfold resolveDslPaths. cbn [Js.truthyOpt].
  destruct (discoverProjectDsls fs cwd) as [e|auto]; split.
  - split; [discriminate | intros [x [E _]]; discriminate E].
  - discriminate.
  - destruct auto as [|first [|second others]]; cbn.
    + split; [discriminate | intros [x [E _]]; discriminate E].
    + split.
      * intros E. injection E as <-. now exists first.
      * intros [x [E ->]]. now injection E as ->.
    + split; [discriminate | intros [x [E _]]; discriminate E].
  - intros E. injection E as ->. reflexivity.
Qed.

Lemma normalize_keeps_absolute (p : string) :
  Path.isAbsolute p = true -> Path.isAbsolute (Path.normalize p) = true.
Proof.
  intros Hp. unfold Path.normalize.
  destruct (String.eqb_spec p "") as [->|_]; [discriminate Hp|].
  rewrite Hp. cbn [negb].
  destruct (Path.normalizeString p false =? ""); [reflexivity|].
  destruct (Js.endsWith p "/"); reflexivity.
Qed.

Lemma append_keeps_absolute (a b : string) :
  Path.isAbsolute a = true -> Path.isAbsolute (a +++ b) = true.
Proof. destruct a as [|c a]; [discriminate | exact (fun Ha => Ha)]. Qed.

Lemma join_keeps_absolute (a b : string) :
  Path.isAbsolute a = true -> Path.isAbsolute (Path.join a b) = true.
Proof.
  intros Ha. unfold Path.join, Path.join_all. cbn [filter].
  assert (Hta : Js.truthy a = true) by (destruct a; [discriminate Ha | reflexivity]).
  rewrite Hta. destruct (Js.truthy b); apply normalize_keeps_absolute.
  - rewrite concat_cons2. now apply append_keeps_absolute.
  - exact Ha.
Qed.

Lemma findDslFilesAt_absolute (n : Fs.Node) :
  forall root recursive,
    Path.isAbsolute root = true ->
    Forall (fun p => Path.isAbsolute p = true) (findDslFilesAt root n recursive).
Proof.
  induction n as [content| |entries IH] using Node_induction;
    intros root recursive Hroot; try constructor.
  rewrite findDslFilesAt_Dir. rewrite Forall_forall. intros p Hp.
  apply (Permutation_in _ (Permutation_sym (StringSort.Permuted_sort _))) in Hp.
  apply in_flat_map in Hp. destruct Hp as [[name child] [Hin Hp]].
  rewrite Forall_forall in IH. specialize (IH (name, child) Hin). cbn [snd] in IH.
  unfold Tree.scanEntry in Hp. cbn [fst snd] in Hp.
  pose proof (join_keeps_absolute root name Hroot) as Hjoin.
  destruct child as [content|children|]; [| |contradiction].
  - destruct (isDslName name); [|contradiction]. destruct Hp as [<-|[]]. exact Hjoin.
  - destruct recursive; [|contradiction].
    specialize (IH (Path.join root name) true Hjoin).
    rewrite Forall_forall in IH. now apply IH.
Qed.

Lemma findDslFiles_absolute (fs : Fs.Node) (root : string) (recursive : bool)
    (l : list string) :
  Path.isAbsolute root = true ->
  findDslFiles fs root recursive = inr l ->
  Forall (fun p => Path.isAbsolute p = true) l.
Proof.
  intros Hroot. unfold findDslFiles.
  destruct (Fs.lookup fs root) as [[c|entries|]|]; try discriminate.
  intros E. injection E as <-.
  exact (findDslFilesAt_absolute (Fs.Dir entries) root recursive Hroot).
Qed.

(** X4.  Run in an absolute working directory, the resolver returns absolute
    paths only, whichever way it finds them: the file named, the scan of the
    directory named, or discovery. *)
Theorem resolveDslPaths_absolute
    (fs : Fs.Node) (dslArg : option string) (cwd : string) (l : list string) :
  Path.isAbsolute cwd = true ->
  resolveDslPaths fs dslArg cwd = inr l ->
  Forall (fun p => Path.isAbsolute p = true) l.
Proof.
  intros Hcwd. unfold resolveDslPaths.
  destruct (if Js.truthyOpt dslArg then dslArg else None) as [arg|].
  - destruct (negb (Fs.existsSync fs (Path.resolve cwd arg))); [discriminate|].
    destruct (Fs.statIsFile fs (Path.resolve cwd arg)).
    + intros E. injection E as <-. repeat constructor.
    + now apply findDslFiles_absolute.
  - destruct (discoverProjectDsls fs cwd) as [e|auto] eqn:Hauto; [discriminate|].
    assert (Hall : Forall (fun p => Path.isAbsolute p = true) auto).
    { unfold discoverProjectDsls in Hauto.
      destruct (Fs.existsSync fs (Path.join cwd "content")).
      - apply (findDslFiles_absolute _ _ _ _ (join_keeps_absolute _ _ Hcwd) Hauto).
      - apply (findDslFiles_absolute _ _ _ _ Hcwd Hauto). }
    destruct auto as [|first others]; [discriminate|].
    destruct (1 <? List.length (first :: others))%nat; [discriminate|].
    intros E. injection E as <-. inversion Hall; subst. now repeat constructor.
Qed.

End ResolverProperties.

Lemma resolveDslPaths_absolute_witness :
  Forall (fun p => Path.isAbsolute p = true)
    ["/p/content/a.babulus.ts"; "/p/content/b.babulus.xml";
     "/p/content/sub/c.babulus.ts"].
Proof.
  apply (resolveDslPaths_absolute Demo.fs (Some "content") "/p").
  - reflexivity.
  - reflexivity.
Defined.

(** * Beyond the claims: the generation loop *)

Section RunOnceProperties.
Context `{Collaborators}.

Lemma generations_bind {A B} (m : M A) (k : A -> M B) :
  generations (trace (bind m k))
  = generations (trace m)
    ++ match result m with
       | inl _ => []
       | inr a => generations (trace (k a))
       end.
Proof.
  rewrite trace_bind, generations_app. now destruct (result m).
Qed.

(** A property of every generation call passes through [bind] and loops. *)
Lemma generations_bind_Forall {A B} (P : GenerationRequest -> Prop)
    (m : M A) (k : A -> M B) :
  Forall P (generations (trace m)) ->
  (forall a, Forall P (generations (trace (k a)))) ->
  Forall P (generations (trace (bind m k))).
Proof.
  intros Hm Hk. rewrite generations_bind. apply Forall_app. split; [exact Hm|].
  destruct (result m); [constructor | apply Hk].
Qed.

Lemma for_each_Forall {A} (P : GenerationRequest -> Prop) (l : list A)
    (body : A -> M unit) :
  (forall x, In x l -> Forall P (generations (trace (body x)))) ->
  Forall P (generations (trace (for_each l body))).
Proof.
  induction l as [|x l IH]; intros Hbody; [constructor|].
  cbn [for_each]. apply generations_bind_Forall.
  - apply Hbody. now left.
  - intros _. apply IH. intros y Hy. apply Hbody. now right.
Qed.

(** What one turn of the inner loop of [runOnce] calls. *)
Lemma runOnce_turn (projectDir : option string) (opts : GenerateOpts)
    (cfg : Config) (run : Run) (comp : CompositionSpec) :
  (exists e, defaultsForComposition (id comp) (path run) projectDir opts = inl e
             /\ (paths <- lift (defaultsForComposition (id comp) (path run)
                                  projectDir opts) ;;
                 awaitGenerate (requestFor opts cfg run comp paths))
                = ([], inl e))
  \/ (exists paths,
        defaultsForComposition (id comp) (path run) projectDir opts = inr paths
        /\ (paths <- lift (defaultsForComposition (id comp) (path run)
                             projectDir opts) ;;
            awaitGenerate (requestFor opts cfg run comp paths))
           = ([GenerateComposition (requestFor opts cfg run comp paths)],
              match generateComposition (requestFor opts cfg run comp paths) with
              | Some e => inl e
              | None => inr tt
              end)).
Proof.
  destruct (defaultsForComposition (id comp) (path run) projectDir opts)
    as [e|paths].
  - left. exists e. split; reflexivity.
  - right. exists paths. split; [reflexivity|].
    unfold lift. rewrite bind_inr. reflexivity.
Qed.

(** X5.  Every generation call of [runOnce] is made for a composition of a
    run in scope, with the paths [defaultsForComposition] derives for it and
    the options as given: an output override is passed on as it is, the
    provider, seed and [--fresh] options too, and the usage ledger is off
    after [--no-usage] whatever [--usage-out] says. *)
Theorem runOnce_requests
    (runs : list Run) (projectDir : option string) (opts : GenerateOpts)
    (cfg : Config) (dslSubset : option (list string)) :
  Forall
    (fun req =>
       (exists run comp paths,
          In run runs /\ In comp (compositions run)
          /\ defaultsForComposition (id comp) (path run) projectDir opts
             = inr paths
          /\ req = requestFor opts cfg run comp paths)
       /\ In (dslPath req) (map path runs)
       /\ (forall subset, dslSubset = Some subset -> In (dslPath req) subset)
       /\ (forall p, optScriptOut opts = Some p -> scriptOut req = p)
       /\ (forall p, optTimelineOut opts = Some p -> timelineOut req = p)
       /\ (forall p, optAudioOut opts = Some p -> audioOut req = p)
       /\ (forall p, optOutDir opts = Some p -> outDir req = p)
       /\ (optUsage opts = false -> usagePath req = UsageDisabled)
       /\ (forall p, optUsage opts = true -> optUsageOut opts = Some p ->
                     usagePath req = UsageAt p)
       /\ fresh req = optFresh opts
       /\ providerOverride req = optProvider opts
       /\ seedOverride req = optSeed opts)
    (generations (trace (runOnce runs projectDir opts cfg dslSubset))).
Proof.
  unfold runOnce. apply for_each_Forall. intros run Hrun.
  destruct (match dslSubset with
            | Some subset => negb (Js.includes subset (path run))
            | None => false
            end) eqn:Hscope; [constructor|].
  apply for_each_Forall. intros comp Hcomp.
  destruct (runOnce_turn projectDir opts cfg run comp)
    as [[e [_ ->]]|[paths [Hpaths ->]]]; [constructor|].
  cbn [trace fst generations]. constructor; [|constructor].
  split; [now exists run, comp, paths|].
  split; [cbn [requestFor dslPath]; apply in_map_iff; now exists run|].
  split.
  { intros subset ->. apply negb_false_iff in Hscope.
    now apply includes_In in Hscope. }
  unfold defaultsForComposition in Hpaths.
  destruct (projectRootFor projectDir (Some (path run))) as [e|root];
    [discriminate|].
  injection Hpaths as <-. cbn.
  repeat split; try (intros p ->; reflexivity).
  - intros ->. reflexivity.
  - intros p -> ->. reflexivity.
Qed.

Lemma Forall_removelast {A} (P : A -> Prop) (l : list A) :
  Forall P l -> Forall P (removelast l).
Proof.
  induction l as [|x l IH]; [trivial|].
  intros Hl. inversion Hl; subst. cbn [removelast].
  destruct l; [constructor | constructor; auto].
Qed.

(** Calls made in order, each after the one before has succeeded. *)
Lemma orderly_bind {A B} (m : M A) (k : A -> M B) :
  Forall (fun req => generateComposition req = None)
         (removelast (generations (trace m))) ->
  (forall a, result m = inr a ->
             Forall (fun req => generateComposition req = None)
                    (generations (trace m))) ->
  (forall a, Forall (fun req => generateComposition req = None)
                    (removelast (generations (trace (k a))))) ->
  Forall (fun req => generateComposition req = None)
         (removelast (generations (trace (bind m k)))).
Proof.
  intros Hlast Hall Hk. rewrite generations_bind.
  destruct (result m) as [e|a] eqn:Hr.
  - now rewrite app_nil_r.
  - destruct (generations (trace (k a))) as [|g gs] eqn:Hg.
    + rewrite app_nil_r. exact Hlast.
    + rewrite removelast_app by discriminate. apply Forall_app.
      split; [now apply (Hall a) | rewrite <- Hg; apply Hk].
Qed.

Lemma succeeded_bind {A B} (m : M A) (k : A -> M B) (b : B) :
  (forall a, result m = inr a ->
             Forall (fun req => generateComposition req = None)
                    (generations (trace m))) ->
  (forall a b', result (k a) = inr b' ->
                Forall (fun req => generateComposition req = None)
                       (generations (trace (k a)))) ->
  result (bind m k) = inr b ->
  Forall (fun req => generateComposition req = None)
         (generations (trace (bind m k))).
Proof.
  intros Hm Hk. rewrite result_bind, generations_bind.
  destruct (result m) as [e|a] eqn:Hr; [discriminate|].
  intros Hb. apply Forall_app. split; [now apply (Hm a) | now apply (Hk a b)].
Qed.

Lemma for_each_orderly {A} (l : list A) (body : A -> M unit) :
  (forall x, Forall (fun req => generateComposition req = None)
                    (removelast (generations (trace (body x))))) ->
  (forall x u, result (body x) = inr u ->
               Forall (fun req => generateComposition req = None)
                      (generations (trace (body x)))) ->
  Forall (fun req => generateComposition req = None)
         (removelast (generations (trace (for_each l body))))
  /\ (forall u, result (for_each l body) = inr u ->
                Forall (fun req => generateComposition req = None)
                       (generations (trace (for_each l body)))).
Proof.
  intros Hlast Hall. induction l as [|x l [IHlast IHall]].
  - split; [constructor | intros; constructor].
  - cbn [for_each]. split.
    + apply orderly_bind; [apply Hlast | apply Hall | intros _; exact IHlast].
    + intros u. apply succeeded_bind; [apply Hall | intros _; exact IHall].
Qed.

(** X6.  [runOnce] generates one composition at a time and stops at the
    first failure: every generation call it makes except the last one has
    succeeded, and when [runOnce] returns all of them have. *)
Theorem runOnce_stops_at_first_failure
    (runs : list Run) (projectDir : option string) (opts : GenerateOpts)
    (cfg : Config) (dslSubset : option (list string)) :
  Forall (fun req => generateComposition req = None)
         (removelast
            (generations (trace (runOnce runs projectDir opts cfg dslSubset))))
  /\ (result (runOnce runs projectDir opts cfg dslSubset) = inr tt ->
      Forall (fun req => generateComposition req = None)
             (generations (trace (runOnce runs projectDir opts cfg dslSubset)))).
Proof.
  assert (Hturn : forall run comp,
            Forall (fun req => generateComposition req = None)
              (removelast (generations (trace
                 (paths <- lift (defaultsForComposition (id comp) (path run)
                                   projectDir opts) ;;
                  awaitGenerate (requestFor opts cfg run comp paths)))))
            /\ (forall u,
                  result (paths <- lift (defaultsForComposition (id comp)
                                           (path run) projectDir opts) ;;
                          awaitGenerate (requestFor opts cfg run comp paths))
                  = inr u ->
                  Forall (fun req => generateComposition req = None)
                    (generations (trace
                       (paths <- lift (defaultsForComposition (id comp)
                                         (path run) projectDir opts) ;;
                        awaitGenerate (requestFor opts cfg run comp paths)))))).
  { intros run comp.
    destruct (runOnce_turn projectDir opts cfg run comp)
      as [[e [_ ->]]|[paths [_ ->]]].
    - split; [constructor | intros; constructor].
    - split; [constructor|]. cbn [result snd trace fst generations].
      destruct (generateComposition (requestFor opts cfg run comp paths)) eqn:Hg;
        [discriminate|]. intros _ _. now repeat constructor. }
  assert (Hrun : forall run,
            Forall (fun req => generateComposition req = None)
              (removelast (generations (trace
                 (if match dslSubset with
                     | Some subset => negb (Js.includes subset (path run))
                     | None => false
                     end
                  then ret tt
                  else for_each (compositions run) (fun comp =>
                         paths <- lift (defaultsForComposition (id comp)
                                          (path run) projectDir opts) ;;
                         awaitGenerate (requestFor opts cfg run comp paths))))))
            /\ (forall u,
                  result
                    (if match dslSubset with
                        | Some subset => negb (Js.includes subset (path run))
                        | None => false
                        end
                     then ret tt
                     else for_each (compositions run) (fun comp =>
                            paths <- lift (defaultsForComposition (id comp)
                                             (path run) projectDir opts) ;;
                            awaitGenerate (requestFor opts cfg run comp paths)))
                  = inr u ->
                  Forall (fun req => generateComposition req = None)
                    (generations (trace
                       (if match dslSubset with
                           | Some subset => negb (Js.includes subset (path run))
                           | None => false
                           end
                        then ret tt
                        else for_each (compositions run) (fun comp =>
                               paths <- lift (defaultsForComposition (id comp)
                                                (path run) projectDir opts) ;;
                               awaitGenerate
                                 (requestFor opts cfg run comp paths))))))).
  { intros run.
    destruct (match dslSubset with
              | Some subset => negb (Js.includes subset (path run))
              | None => false
              end).
    - split; [constructor | intros; constructor].
    - apply for_each_orderly; intros comp; apply Hturn. }
  unfold runOnce.
  destruct (for_each_orderly runs _ (fun run => proj1 (Hrun run))
              (fun run => proj2 (Hrun run))) as [Hlast Hall].
  split; [exact Hlast | apply Hall].
Qed.

End RunOnceProperties.

Lemma runOnce_stops_at_first_failure_witness :
  map (fun req => @id Demo.domain (composition req))
      (generations
         (trace (@runOnce Demo.domain Strict.collaborators
                   [{| path := "/p/two.babulus.ts";
                       compositions := [Demo.comp "outro"; Demo.comp "intro"] |};
                    {| path := "/p/solo/intro.babulus.ts";
                       compositions := [Demo.comp "intro"] |}]
                   None Demo.watching tt None)))
  = ["outro"]
  /\ Forall (fun req => @generateComposition Demo.domain Strict.collaborators req
                        = None)
       (removelast
          (generations
             (trace (@runOnce Demo.domain Strict.collaborators
                       [{| path := "/p/two.babulus.ts";
                           compositions := [Demo.comp "outro"; Demo.comp "intro"] |};
                        {| path := "/p/solo/intro.babulus.ts";
                           compositions := [Demo.comp "intro"] |}]
                       None Demo.watching tt None)))).
Proof.
  split; [reflexivity|].
  apply (@runOnce_stops_at_first_failure Demo.domain Strict.collaborators).
Defined.

Section RunOnceOrder.
Context `{Collaborators}.

(** A sequence returns only if both of its parts do. *)
Lemma result_bind_inr {A B} (m : M A) (k : A -> M B) (b : B) :
  result (bind m k) = inr b ->
  exists a, result m = inr a /\ result (k a) = inr b.
Proof.
  rewrite result_bind. destruct (result m) as [e|a]; [discriminate|].
  intros Hb. now exists a.
Qed.

Lemma runOnce_inner_order (projectDir : option string) (opts : GenerateOpts)
    (cfg : Config) (run : Run) (comps : list CompositionSpec) :
  result (for_each comps (fun comp =>
            paths <- lift (defaultsForComposition (id comp) (path run)
                             projectDir opts) ;;
            awaitGenerate (requestFor opts cfg run comp paths))) = inr tt ->
  map (fun req => (dslPath req, composition req))
      (generations (trace (for_each comps (fun comp =>
         paths <- lift (defaultsForComposition (id comp) (path run)
                          projectDir opts) ;;
         awaitGenerate (requestFor opts cfg run comp paths)))))
  = map (fun comp => (path run, comp)) comps.
Proof.
  induction comps as [|comp comps IH]; [reflexivity|].
  cbn [for_each]. intros Hr. apply result_bind_inr in Hr.
  destruct Hr as [[] [Hturn Hrest]].
  rewrite generations_bind, Hturn, map_app, (IH Hrest). cbn [map].
  destruct (runOnce_turn projectDir opts cfg run comp)
    as [[e [_ E]]|[paths [_ E]]]; rewrite E in Hturn |- *.
  - discriminate Hturn.
  - reflexivity.
Qed.

(** The generation calls of a [runOnce] that returns, as (path, composition) pairs. *)
Lemma runOnce_order
    (runs : list Run) (projectDir : option string) (opts : GenerateOpts)
    (cfg : Config) (dslSubset : option (list string)) :
  result (runOnce runs projectDir opts cfg dslSubset) = inr tt ->
  map (fun req => (dslPath req, composition req))
      (generations (trace (runOnce runs projectDir opts cfg dslSubset)))
  = flat_map (fun run => map (fun comp => (path run, comp)) (compositions run))
      (filter (fun run =>
                 match dslSubset with
                 | Some subset => Js.includes subset (path run)
                 | None => true
                 end) runs).
Proof.
  unfold runOnce. induction runs as [|run runs IH]; [reflexivity|].
  cbn [for_each filter]. intros Hr. apply result_bind_inr in Hr.
  destruct Hr as [[] [Hrun Hrest]].
  rewrite generations_bind, Hrun, map_app, (IH Hrest).
  destruct dslSubset as [subset|].
  - destruct (Js.includes subset (path run)); cbn [negb] in *.
    + cbn [flat_map]. f_equal. now apply runOnce_inner_order.
    + reflexivity.
  - cbn [flat_map]. f_equal. now apply runOnce_inner_order.
Qed.

(** X7.  When [runOnce] returns, it has generated every composition of every
    run in scope exactly once, run after run in the order of the runs and,
    within a run, in the order of its compositions; a run out of scope is
    skipped whole. *)
Theorem runOnce_generates_in_order
    (runs : list Run) (projectDir : option string) (opts : GenerateOpts)
    (cfg : Config) (dslSubset : option (list string)) :
  result (runOnce runs projectDir opts cfg dslSubset) = inr tt ->
  map (fun req => (dslPath req, composition req))
      (generations (trace (runOnce runs projectDir opts cfg dslSubset)))
  = flat_map (fun run => map (fun comp => (path run, comp)) (compositions run))
      (filter (fun run =>
                 match dslSubset with
                 | Some subset => Js.includes subset (path run)
                 | None => true
                 end) runs).
Proof.
  exact (runOnce_order runs projectDir opts cfg dslSubset).
Qed.

End RunOnceOrder.

Lemma runOnce_generates_in_order_witness :
  map (fun req => (dslPath req, @id Demo.domain (composition req)))
      (generations (trace (runOnce Demo.twoRuns None Demo.watching tt None)))
  = [("/p/two.babulus.ts", "intro"); ("/p/two.babulus.ts", "outro")].
Proof.
  exact (runOnce_generates_in_order Demo.twoRuns None Demo.watching tt None
           eq_refl).
Defined.

(** * Beyond the claims: the [generate] command as a whole *)

Section GenerateProperties.
Context `{Collaborators}.

(** [resolve(cwd, opts.projectDir)] when the option is given. *)
Lemma generate_steps (fs : Fs.Node) (cwd : string) (dslArg : option string)
    (opts : GenerateOpts) (dslPaths : list string) (tr : list Effect)
    (runs : list Run) :
  resolveDslPaths fs dslArg cwd = inr dslPaths ->
  loadCompositions dslPaths = (tr, inr runs) ->
  optWatch opts && anyOutputOverride opts
  && negb (List.length dslPaths =? 1)%nat = false ->
  anyOutputOverride opts && negb (totalComps runs =? 1)%nat = false ->
  generate fs cwd dslArg opts
  = bind (trace (envStep opts) ++ tr, inr tt) (fun _ =>
      let projectDir :=
        match optProjectDir opts with
        | Some d => if Js.truthy d then Some (Path.resolve cwd d) else None
        | None => None
        end in
      cfg <- call (LoadConfig projectDir (hd_error dslPaths))
                  (loadConfig projectDir (hd_error dslPaths)) ;;
      if negb (optWatch opts) then
        runOnce runs projectDir opts cfg None ;;
        ret None
      else
        let configPath :=
          findConfigPathForWatch fs projectDir (hd_error dslPaths) in
        let dslDirs := Js.dedupe (map Path.dirname dslPaths) in
        let watchDirs :=
          match configPath with
          | Some c => if Js.truthy c then dslDirs ++ [Path.dirname c] else dslDirs
          | None => dslDirs
          end in
        emit (Watch watchDirs) ;;
        emit (ConsoleError ("Watching for changes... (Ctrl+C to stop)" +++ newline)) ;;
        (if negb (optQuiet opts) then
           emit (ConsoleError
             ("Watching directories:" +++ newline
              +++ String.concat newline (map (fun d => "  - " +++ d) watchDirs)
              +++ newline))
         else ret tt) ;;
        ret (Some {|
          wsCwd := cwd; wsConfigPath := configPath; wsDslPaths := dslPaths;
          wsDslDirs := dslDirs; wsWatchDirs := watchDirs; wsRuns := runs;
          wsProjectDir := projectDir; wsOpts := opts; wsConfig := cfg |})).
Proof.
  intros Hres Hload Hwatch Hsingle.
  destruct (envStep_ok opts) as [tr0 [E0 _]]. rewrite E0. cbn [trace fst].
  rewrite (bind_inr (tr0 ++ tr)). cbv zeta.
  unfold generate. rewrite E0, Hres, (bind_inr tr0).
  unfold lift. rewrite !(bind_inr []).
  rewrite Hwatch, !bind_ret_l, Hload, !(bind_inr tr), Hsingle, !bind_ret_l.
  cbn [trace fst result snd]. rewrite !app_nil_l, app_assoc.
  reflexivity.
Qed.

Lemma generations_guard (cond : bool) (e : Err) :
  generations (trace (if cond then throw e else ret tt : M unit)) = [].
Proof. now destruct cond. Qed.

(** The generation calls of [generate], stage by stage. *)
Lemma generate_generations (fs : Fs.Node) (cwd : string)
    (dslArg : option string) (opts : GenerateOpts) :
  generations (trace (generate fs cwd dslArg opts))
  = match resolveDslPaths fs dslArg cwd with
    | inl _ => []
    | inr dslPaths =>
        if optWatch opts && anyOutputOverride opts
           && negb (List.length dslPaths =? 1)%nat
        then []
        else
          match result (loadCompositions dslPaths) with
          | inl _ => []
          | inr runs =>
              if anyOutputOverride opts && negb (totalComps runs =? 1)%nat
              then []
              else
                match loadConfig
                        match optProjectDir opts with
                        | Some d =>
                            if Js.truthy d then Some (Path.resolve cwd d)
                            else None
                        | None => None
                        end (hd_error dslPaths) with
                | inl _ => []
                | inr cfg =>
                    if optWatch opts then []
                    else
                      generations
                        (trace (runOnce runs
                                  match optProjectDir opts with
                                  | Some d =>
                                      if Js.truthy d
                                      then Some (Path.resolve cwd d)
                                      else None
                                  | None => None
                                  end opts cfg None))
                end
          end
    end.
Proof.
  unfold generate. rewrite generations_bind.
  destruct (envStep_ok opts) as [tr0 [E0 G0]]. rewrite E0.
  cbn [trace fst result snd]. rewrite G0. cbn [app].
  rewrite generations_bind. unfold lift.
  cbn [trace fst result snd generations app].
  destruct (resolveDslPaths fs dslArg cwd) as [e|dslPaths]; [reflexivity|].
  rewrite generations_bind, generations_guard, result_guard. cbn [app].
  destruct (optWatch opts && anyOutputOverride opts
            && negb (List.length dslPaths =? 1)%nat); [reflexivity|].
  rewrite generations_bind, loadCompositions_trace. cbn [app].
  destruct (result (loadCompositions dslPaths)) as [e|runs]; [reflexivity|].
  rewrite generations_bind, generations_guard, result_guard. cbn [app].
  destruct (anyOutputOverride opts && negb (totalComps runs =? 1)%nat);
    [reflexivity|].
  rewrite generations_bind. unfold call.
  cbn [trace fst result snd generations app].
  destruct (loadConfig _ (hd_error dslPaths)) as [e|cfg]; [reflexivity|].
  destruct (optWatch opts); cbn [negb].
  - rewrite !generations_bind. cbn [emit trace fst result snd generations app].
    now destruct (negb (optQuiet opts)).
  - rewrite generations_bind.
    destruct (result (runOnce runs _ opts cfg None)); cbn;
      now rewrite app_nil_r.
Qed.

(** X8.  [generate] calls [generateComposition] only once everything before
    has gone through: not in watch mode (a session starts without an initial
    run), the source paths resolved, every source loaded, the override guard
    passed and the config loaded; the calls are then those of one full
    [runOnce]. *)
Theorem generate_generates_after_validation
    (fs : Fs.Node) (cwd : string) (dslArg : option string)
    (opts : GenerateOpts) :
  generations (trace (generate fs cwd dslArg opts)) <> [] ->
  optWatch opts = false
  /\ exists dslPaths runs cfg,
       resolveDslPaths fs dslArg cwd = inr dslPaths
       /\ result (loadCompositions dslPaths) = inr runs
       /\ (anyOutputOverride opts = true -> totalComps runs = 1)
       /\ loadConfig
            match optProjectDir opts with
            | Some d => if Js.truthy d then Some (Path.resolve cwd d) else None
            | None => None
            end (hd_error dslPaths) = inr cfg
       /\ generations (trace (generate fs cwd dslArg opts))
          = generations
              (trace (runOnce runs
                        match optProjectDir opts with
                        | Some d =>
                            if Js.truthy d then Some (Path.resolve cwd d)
                            else None
                        | None => None
                        end opts cfg None)).
Proof.
  rewrite generate_generations.
  destruct (resolveDslPaths fs dslArg cwd) as [e|dslPaths]; [contradiction|].
  destruct (optWatch opts && anyOutputOverride opts
            && negb (List.length dslPaths =? 1)%nat); [contradiction|].
  destruct (result (loadCompositions dslPaths)) as [e|runs] eqn:Hload;
    [contradiction|].
  destruct (anyOutputOverride opts && negb (totalComps runs =? 1)%nat)
    eqn:Hsingle; [contradiction|].
  destruct (loadConfig _ (hd_error dslPaths)) as [e|cfg] eqn:Hcfg;
    [contradiction|].
  destruct (optWatch opts); [contradiction|].
  intros _. split; [reflexivity|]. exists dslPaths, runs, cfg.
  split; [reflexivity|]. split; [exact Hload|]. split.
  - intros Hany. rewrite Hany in Hsingle. cbn [andb] in Hsingle.
    apply negb_false_iff in Hsingle. now apply Nat.eqb_eq.
  - split; [exact Hcfg | reflexivity].
Qed.

(** Closed form of a one-shot [generate] that passes every check. *)
Lemma generate_once_closed
    (fs : Fs.Node) (cwd : string) (dslArg : option string)
    (opts : GenerateOpts) (dslPaths : list string) (tr : list Effect)
    (runs : list Run) (cfg : Config) :
  let projectDir :=
    match optProjectDir opts with
    | Some d => if Js.truthy d then Some (Path.resolve cwd d) else None
    | None => None
    end in
  optWatch opts = false ->
  resolveDslPaths fs dslArg cwd = inr dslPaths ->
  loadCompositions dslPaths = (tr, inr runs) ->
  (anyOutputOverride opts = true -> totalComps runs = 1) ->
  loadConfig projectDir (hd_error dslPaths) = inr cfg ->
  generate fs cwd dslArg opts
  = (trace (envStep opts) ++ map LoadVideoFile dslPaths
     ++ [LoadConfig projectDir (hd_error dslPaths)]
     ++ trace (runOnce runs projectDir opts cfg None),
     match result (runOnce runs projectDir opts cfg None) with
     | inl e => inl e
     | inr _ => inr None
     end).
Proof.
  intros projectDir Hwatch Hres Hload Hguard Hcfg.
  destruct (loadCompositions_returns _ _ _ Hload) as [Htr _].
  rewrite (generate_steps fs cwd dslArg opts dslPaths tr runs Hres Hload).
  - rewrite bind_inr. cbv zeta. fold projectDir. unfold call.
    rewrite Hcfg, bind_inr, Hwatch. cbn [negb].
    rewrite trace_bind, result_bind. subst tr.
    destruct (runOnce runs projectDir opts cfg None) as [tr1 [e|[]]];
      cbn [trace fst result snd ret]; rewrite ?app_nil_r, <- ?app_assoc;
      reflexivity.
  - now rewrite Hwatch.
  - destruct (anyOutputOverride opts); [|reflexivity].
    rewrite (Hguard eq_refl). reflexivity.
Qed.

(** X9.  A one-shot [generate] whose sources resolve and load, whose guard on
    overrides passes and whose config loads does, in this order: the
    environment step, one loader call per source path, one [loadConfig] call
    for the first source path, and one [runOnce] over all the runs; it
    returns if [runOnce] does and throws what [runOnce] throws. *)
Theorem generate_once_sequence
    (fs : Fs.Node) (cwd : string) (dslArg : option string)
    (opts : GenerateOpts) (dslPaths : list string) (tr : list Effect)
    (runs : list Run) (cfg : Config) :
  let projectDir :=
    match optProjectDir opts with
    | Some d => if Js.truthy d then Some (Path.resolve cwd d) else None
    | None => None
    end in
  optWatch opts = false ->
  resolveDslPaths fs dslArg cwd = inr dslPaths ->
  loadCompositions dslPaths = (tr, inr runs) ->
  (anyOutputOverride opts = true -> totalComps runs = 1) ->
  loadConfig projectDir (hd_error dslPaths) = inr cfg ->
  generate fs cwd dslArg opts
  = (trace (envStep opts) ++ map LoadVideoFile dslPaths
     ++ [LoadConfig projectDir (hd_error dslPaths)]
     ++ trace (runOnce runs projectDir opts cfg None),
     match result (runOnce runs projectDir opts cfg None) with
     | inl e => inl e
     | inr _ => inr None
     end).
Proof.
  exact (generate_once_closed fs cwd dslArg opts dslPaths tr runs cfg).
Qed.

(** X10.  An explicit argument that names nothing ends [generate] at once:
    after the environment step nothing is loaded, generated or watched, the
    message names the resolved path, and the exit code is 2. *)
Theorem generate_missing_path
    (fs : Fs.Node) (cwd arg : string) (opts : GenerateOpts) :
  Js.truthy arg = true ->
  Fs.existsSync fs (Path.resolve cwd arg) = false ->
  vml fs cwd (CmdGenerate (Some arg) opts)
  = (trace (envStep opts)
     ++ [ConsoleError ("Path does not exist: " +++ Path.resolve cwd arg)], 2).
Proof.
  intros Harg Hmissing. cbn [vml]. unfold generate.
  destruct (envStep_ok opts) as [tr0 [-> _]]. cbn [trace fst].
  unfold resolveDslPaths. cbn [Js.truthyOpt]. rewrite Harg, Hmissing.
  cbn [negb]. rewrite bind_inr. unfold lift. rewrite bind_inl.
  cbn [trace fst result snd]. now rewrite app_nil_r.
Qed.

(** X11.  An explicit directory without a matching file is no error of the
    resolver: it returns the empty list.  A one-shot [generate] without
    output overrides then loads the config for no source path and generates
    nothing.  What [loadConfig] answers decides the rest: when it returns,
    the exit code is 0; when it throws, its error goes to the top-level
    handler, exit code 2 for a [BabulusError] and 1 for any other. *)
Theorem generate_empty_directory
    (fs : Fs.Node) (cwd arg : string) (opts : GenerateOpts)
    (entries : list (string * Fs.Node)) :
  let projectDir :=
    match optProjectDir opts with
    | Some d => if Js.truthy d then Some (Path.resolve cwd d) else None
    | None => None
    end in
  Js.truthy arg = true ->
  Fs.lookup fs (Path.resolve cwd arg) = Some (Fs.Dir entries) ->
  findDslFilesAt (Path.resolve cwd arg) (Fs.Dir entries) true = [] ->
  optWatch opts = false ->
  anyOutputOverride opts = false ->
  resolveDslPaths fs (Some arg) cwd = inr []
  /\ generations (effects (vml fs cwd (CmdGenerate (Some arg) opts))) = []
  /\ vml fs cwd (CmdGenerate (Some arg) opts)
     = match loadConfig projectDir None with
       | inr _ => (trace (envStep opts) ++ [LoadConfig projectDir None], 0)
       | inl (BabulusError message) =>
           (trace (envStep opts)
            ++ [LoadConfig projectDir None; ConsoleError message], 2)
       | inl e =>
           (trace (envStep opts)
            ++ [LoadConfig projectDir None; ConsoleErrorObject e], 1)
       end.
Proof.
  intros projectDir Harg Hdir Hempty Hwatch Hany.
  assert (Hres : resolveDslPaths fs (Some arg) cwd = inr []).
  { unfold resolveDslPaths, Fs.existsSync, Fs.statIsFile, findDslFiles.
    cbn [Js.truthyOpt]. rewrite Harg, Hdir. cbn [negb Fs.isFile].
    now rewrite Hempty. }
  assert (Henv : generations (trace (envStep opts)) = []).
  { unfold envStep. destruct (orElse (optEnv opts) (optEnvironment opts)) as [v|];
      [destruct (Js.truthy v)|]; reflexivity. }
  assert (Hvml : vml fs cwd (CmdGenerate (Some arg) opts)
            = match loadConfig projectDir None with
              | inr _ => (trace (envStep opts) ++ [LoadConfig projectDir None], 0)
              | inl (BabulusError message) =>
                  (trace (envStep opts)
                   ++ [LoadConfig projectDir None; ConsoleError message], 2)
              | inl e =>
                  (trace (envStep opts)
                   ++ [LoadConfig projectDir None; ConsoleErrorObject e], 1)
              end).
  { cbn [vml].
    rewrite (generate_steps fs cwd (Some arg) opts [] [] [] Hres eq_refl).
    - rewrite app_nil_r, bind_inr. cbv zeta. fold projectDir.
      cbn [hd_error]. unfold call.
      destruct (loadConfig projectDir None) as [e|cfg].
      + rewrite bind_inl. cbn [parseAsyncCatch].
        destruct e; cbn [result snd trace fst]; rewrite <- app_assoc;
          reflexivity.
      + rewrite bind_inr, Hwatch. cbn [negb runOnce for_each].
        rewrite bind_ret_l. cbn [ret parseAsyncCatch]. now rewrite app_nil_r.
    - now rewrite Hwatch.
    - now rewrite Hany. }
  split; [exact Hres|]. split; [|exact Hvml].
  rewrite Hvml.
  destruct (loadConfig projectDir None) as [[message|code p| |description]|cfg];
    cbn [effects fst]; rewrite generations_app, Henv; reflexivity.
Qed.

End GenerateProperties.

Lemma generate_generates_after_validation_witness :
  generations (trace (generate Demo.fs "/p" (Some "solo") noOpts)) <> []
  /\ optWatch (@noOpts Demo.domain) = false.
Proof.
  assert (Hgen : generations (trace (generate Demo.fs "/p" (Some "solo") noOpts))
                 <> []) by (simpl; discriminate).
  split; [exact Hgen|].
  apply (generate_generates_after_validation Demo.fs "/p" (Some "solo") noOpts
           Hgen).
Defined.

Lemma generate_once_sequence_witness :
  map (fun e => match e with
                | LoadVideoFile _ => "load"
                | LoadConfig _ _ => "config"
                | GenerateComposition _ => "generate"
                | _ => "other"
                end)
      (trace (generate Demo.fs "/p" (Some "content") noOpts))
  = ["load"; "load"; "load"; "config"; "generate"; "generate"; "generate"].
Proof.
  rewrite (generate_once_sequence Demo.fs "/p" (Some "content")
             noOpts
             ["/p/content/a.babulus.ts"; "/p/content/b.babulus.xml";
              "/p/content/sub/c.babulus.ts"]
             (map LoadVideoFile
                ["/p/content/a.babulus.ts"; "/p/content/b.babulus.xml";
                 "/p/content/sub/c.babulus.ts"])
             [{| path := "/p/content/a.babulus.ts";
                 compositions := [Demo.comp "intro"] |};
              {| path := "/p/content/b.babulus.xml";
                 compositions := [Demo.comp "intro"] |};
              {| path := "/p/content/sub/c.babulus.ts";
                 compositions := [Demo.comp "intro"] |}]
             (tt : @Config Demo.domain)).
  - reflexivity.
  - reflexivity.
  - reflexivity.
  - reflexivity.
  - simpl. discriminate.
  - reflexivity.
Defined.

Lemma generate_missing_path_witness :
  vml Demo.fs "/p" (CmdGenerate (Some "nowhere") Demo.watching)
  = ([ConsoleError "Path does not exist: /p/nowhere"], 2).
Proof.
  apply (generate_missing_path Demo.fs "/p" "nowhere" Demo.watching).
  - reflexivity.
  - reflexivity.
Defined.

Lemma generate_empty_directory_witness :
  resolveDslPaths Demo.fs (Some ".videoml") "/p" = inr []
  /\ generations (effects (vml Demo.fs "/p"
                             (CmdGenerate (Some ".videoml") noOpts))) = []
  /\ vml Demo.fs "/p" (CmdGenerate (Some ".videoml") noOpts)
     = ([LoadConfig None None], 0).
Proof.
  exact (generate_empty_directory Demo.fs "/p" ".videoml" noOpts
           [("config.yml", Fs.File "")]
           eq_refl eq_refl eq_refl eq_refl eq_refl).
Defined.

(** * Beyond the claims: the watch session and its listener *)

Section WatchProperties.
Context `{Collaborators}.

Lemma generations_emit_before (e : Effect) (m : M unit) :
  (forall req, e <> GenerateComposition req) ->
  generations (trace (emit e ;; m)) = generations (trace m).
Proof.
  intros He. rewrite generations_bind. cbn [emit trace fst result snd].
  destruct e; try reflexivity. exfalso. now apply (He req).
Qed.

Lemma generations_emit_after (m : M unit) (line : string) :
  generations (trace (m ;; emit (ConsoleError line))) = generations (trace m).
Proof.
  rewrite generations_bind. destruct (result m); cbn; now rewrite app_nil_r.
Qed.

(** X12.  The third branch of the listener: a change of a [.ts] or [.xml]
    file that is neither the config path nor a tracked source path runs
    [runOnce()] over every run when the file lies below the directory of
    some tracked source, at any depth, and does nothing otherwise, also when
    it lies in the watched directory of the config file. *)
Theorem watch_event_shared (s : WatchSession) (changedPath : string) :
  let absChanged := Path.resolve (wsCwd s) changedPath in
  let rel := relativeTo (wsCwd s) absChanged in
  let rebuild := runOnce (wsRuns s) (wsProjectDir s) (wsOpts s) (wsConfig s) in
  Js.endsWith absChanged ".ts" = true \/ Js.endsWith absChanged ".xml" = true ->
  wsConfigPath s <> Some absChanged ->
  ~ In absChanged (wsDslPaths s) ->
  ((exists dir, In dir (wsDslDirs s)
                /\ Js.startsWith absChanged (dir +++ "/") = true) ->
   onWatchEvent s changedPath
   = (emit (ConsoleError (newline +++ "CHANGE DETECTED (Shared): " +++ rel)) ;;
      emit (ConsoleError "Shared file changed; regenerating all compositions...") ;;
      rebuild None ;;
      emit (ConsoleError waitingLine)))
  /\ ((forall dir, In dir (wsDslDirs s) ->
                   Js.startsWith absChanged (dir +++ "/") = false) ->
      onWatchEvent s changedPath = ret tt).
Proof.
  intros absChanged rel rebuild Hext Hnot Hnotin.
  assert (Hfilter : hasWatchedExtension absChanged = true).
  { unfold hasWatchedExtension.
    destruct Hext as [E|E]; rewrite E; now rewrite ?orb_true_r. }
  assert (Hsrc : Js.endsWith absChanged ".ts" || Js.endsWith absChanged ".xml"
                 = true).
  { destruct Hext as [E|E]; rewrite E; now rewrite ?orb_true_r. }
  assert (Hcfg : match wsConfigPath s with
                 | Some configPath =>
                     Js.truthy configPath && (absChanged =? configPath)
                 | None => false
                 end = false).
  { destruct (wsConfigPath s) as [c|]; [|reflexivity].
    destruct (String.eqb_spec absChanged c) as [E|_];
      [|apply andb_false_r].
    exfalso. apply Hnot. now rewrite E. }
  assert (Hhead : forall b,
            existsb (fun dir => Js.startsWith absChanged (dir +++ Path.sep))
                    (wsDslDirs s) = b ->
            onWatchEvent s changedPath
            = if b
              then (emit (ConsoleError (newline +++ "CHANGE DETECTED (Shared): "
                                        +++ rel)) ;;
                    emit (ConsoleError
                            "Shared file changed; regenerating all compositions...") ;;
                    rebuild None ;;
                    emit (ConsoleError waitingLine))
              else ret tt).
  { intros b Hb. unfold onWatchEvent. fold absChanged.
    rewrite extension_filter, Hfilter. cbn [negb].
    rewrite Hcfg, (find_eq_not_In _ _ Hnotin). cbn [Js.truthyOpt].
    rewrite Hb, Hsrc. now destruct b. }
  split.
  - intros [dir [Hdir Hunder]]. apply (Hhead true).
    apply existsb_exists. now exists dir.
  - intros Hnone. apply (Hhead false).
    destruct (existsb _ (wsDslDirs s)) eqn:Hex; [|reflexivity].
    apply existsb_exists in Hex. destruct Hex as [dir [Hdir Hunder]].
    unfold Path.sep in Hunder. now rewrite (Hnone dir Hdir) in Hunder.
Qed.

(** X13.  Whatever the event, the listener generates nothing, or what
    [runOnce()] over every run generates, or what [runOnce] scoped to the
    changed path alone generates, and this last only when the changed path
    is a tracked source path: no other scope is ever rebuilt. *)
Theorem watch_event_scopes (s : WatchSession) (changedPath : string) :
  let absChanged := Path.resolve (wsCwd s) changedPath in
  let rebuild := runOnce (wsRuns s) (wsProjectDir s) (wsOpts s) (wsConfig s) in
  generations (trace (onWatchEvent s changedPath)) = []
  \/ generations (trace (onWatchEvent s changedPath))
     = generations (trace (rebuild None))
  \/ (In absChanged (wsDslPaths s)
      /\ generations (trace (onWatchEvent s changedPath))
         = generations (trace (rebuild (Some [absChanged])))).
Proof.
  intros absChanged rebuild. unfold onWatchEvent. fold absChanged. fold rebuild.
  destruct (negb (Js.endsWith absChanged ".ts")
            && negb (Js.endsWith absChanged ".xml")
            && negb (Js.endsWith absChanged ".yml")
            && negb (Js.endsWith absChanged ".yaml")); [now left|].
  destruct (match wsConfigPath s with
            | Some configPath =>
                Js.truthy configPath && (absChanged =? configPath)
            | None => false
            end).
  { right. left.
    rewrite !generations_emit_before by discriminate.
    apply generations_emit_after. }
  destruct (Js.find_eq (wsDslPaths s) absChanged) as [matched|] eqn:Hfind.
  - cbn [Js.truthyOpt]. destruct (Js.truthy matched).
    + right. right. unfold Js.find_eq in Hfind.
      apply find_some in Hfind. destruct Hfind as [Hin E].
      apply String.eqb_eq in E. subst matched. split; [exact Hin|].
      rewrite generations_emit_before by discriminate.
      apply generations_emit_after.
    + destruct (existsb _ (wsDslDirs s)
                && (Js.endsWith absChanged ".ts" || Js.endsWith absChanged ".xml"));
        [|now left].
      right. left. rewrite !generations_emit_before by discriminate.
      apply generations_emit_after.
  - cbn [Js.truthyOpt].
    destruct (existsb _ (wsDslDirs s)
              && (Js.endsWith absChanged ".ts" || Js.endsWith absChanged ".xml"));
      [|now left].
    right. left. rewrite !generations_emit_before by discriminate.
    apply generations_emit_after.
Qed.

End WatchProperties.

Lemma watch_event_shared_witness :
  onWatchEvent Demo.soloSession "solo/lib/theme.ts"
  = (emit (ConsoleError (newline +++ "CHANGE DETECTED (Shared): solo/lib/theme.ts")) ;;
     emit (ConsoleError "Shared file changed; regenerating all compositions...") ;;
     runOnce (wsRuns Demo.soloSession) None Demo.watching tt None ;;
     emit (ConsoleError waitingLine))
  /\ onWatchEvent Demo.soloSession ".videoml/hooks.ts" = ret tt.
Proof.
  split.
  - refine (proj1 (watch_event_shared Demo.soloSession "solo/lib/theme.ts"
                     _ _ _) _).
    + left. reflexivity.
    + simpl. discriminate.
    + simpl. intros [E|[]]. discriminate E.
    + exists "/p/solo". split; [left; reflexivity | reflexivity].
  - refine (proj2 (watch_event_shared Demo.soloSession ".videoml/hooks.ts"
                     _ _ _) _).
    + left. reflexivity.
    + simpl. discriminate.
    + simpl. intros [E|[]]. discriminate E.
    + simpl. intros dir [<-|[]]. reflexivity.
Defined.

Section WatchSetProperties.
Context `{Collaborators}.

Lemma dedupe_from_spec (l seen : list string) :
  NoDup (Js.dedupe_from seen l)
  /\ (forall x, In x (Js.dedupe_from seen l) <-> In x l /\ ~ In x seen).
Proof.
  revert seen. induction l as [|y l IH]; intros seen.
  - split; [constructor|]. intros x. cbn. tauto.
  - cbn [Js.dedupe_from]. destruct (Js.includes seen y) eqn:Hy.
    + apply includes_In in Hy. destruct (IH seen) as [Hnd Hin].
      split; [exact Hnd|]. intros x. rewrite Hin. cbn [In]. split.
      * intros [Hx Hs]. split; [now right | exact Hs].
      * intros [[<-|Hx] Hs]; [contradiction | now split].
    + assert (Hy' : ~ In y seen).
      { intros Hin. apply includes_In in Hin. rewrite Hin in Hy. discriminate. }
      destruct (IH (y :: seen)) as [Hnd Hin]. split.
      * constructor; [|exact Hnd]. rewrite Hin. cbn [In]. tauto.
      * intros x. cbn [In]. rewrite Hin. cbn [In]. split.
        -- intros [<-|[Hx Hs]]; [now split; [left|] | split; [now right | tauto]].
        -- intros [[<-|Hx] Hs]; [now left|].
           destruct (String.eqb_spec y x) as [E|E]; [now left|].
           right. split; [exact Hx|]. intros [E'|Hs']; [now apply E | now apply Hs].
Qed.

(** The whole of [generate] when it leaves a session. *)
Lemma generate_watching (fs : Fs.Node) (cwd : string) (dslArg : option string)
    (opts : GenerateOpts) (s : WatchSession) :
  result (generate fs cwd dslArg opts) = inr (Some s) ->
  wsWatchDirs s
  = match wsConfigPath s with
    | Some c =>
        if Js.truthy c then wsDslDirs s ++ [Path.dirname c] else wsDslDirs s
    | None => wsDslDirs s
    end
  /\ In (Watch (wsWatchDirs s)) (trace (generate fs cwd dslArg opts)).
Proof.
  intros Hs.
  assert (Hwatch : optWatch opts = true).
  { destruct (optWatch opts) eqn:Hw; [reflexivity|]. exfalso.
    assert (Hgen : forall dslPaths tr runs,
              resolveDslPaths fs dslArg cwd = inr dslPaths ->
              loadCompositions dslPaths = (tr, inr runs) ->
              anyOutputOverride opts && negb (totalComps runs =? 1)%nat = false ->
              False).
    { intros dslPaths tr runs Hres Hload Hsingle.
      rewrite (generate_steps fs cwd dslArg opts dslPaths tr runs Hres Hload)
        in Hs by (rewrite ?Hw; auto).
      rewrite result_bind in Hs. cbn [result snd] in Hs. cbv zeta in Hs.
      rewrite result_bind in Hs. unfold call at 1 in Hs. cbn [result snd] in Hs.
      destruct (loadConfig _ (hd_error dslPaths)); [discriminate|].
      rewrite Hw in Hs. cbn [negb] in Hs. rewrite result_bind in Hs.
      destruct (result (runOnce runs _ opts c None)); discriminate. }
    unfold generate in Hs. rewrite result_bind in Hs.
    destruct (envStep_ok opts) as [tr0 [E0 _]]. rewrite E0 in Hs.
    cbn [result snd] in Hs. rewrite result_bind in Hs. unfold lift at 1 in Hs.
    cbn [result snd] in Hs.
    destruct (resolveDslPaths fs dslArg cwd) as [e|dslPaths] eqn:Hres;
      [discriminate|].
    rewrite result_bind, result_guard, Hw in Hs. cbn [andb] in Hs.
    rewrite result_bind in Hs.
    destruct (loadCompositions dslPaths) as [tr [e|runs]] eqn:Hload;
      [discriminate|].
    cbn [result snd] in Hs. rewrite result_bind, result_guard in Hs.
    destruct (anyOutputOverride opts && negb (totalComps runs =? 1)%nat)
      eqn:Hsingle; [discriminate|].
    exact (Hgen dslPaths tr runs eq_refl Hload Hsingle). }
  unfold generate in Hs |- *.
  destruct (envStep_ok opts) as [tr0 [E0 _]]. rewrite E0 in Hs |- *.
  rewrite (bind_inr tr0) in Hs |- *. cbn [trace fst result snd] in Hs |- *.
  unfold lift in Hs |- *.
  destruct (resolveDslPaths fs dslArg cwd) as [e|dslPaths];
    [discriminate|].
  rewrite (bind_inr []) in Hs |- *. cbn [trace fst result snd] in Hs |- *.
  destruct (optWatch opts && anyOutputOverride opts
            && negb (List.length dslPaths =? 1)%nat); [discriminate|].
  rewrite bind_ret_l in Hs |- *.
  destruct (loadCompositions dslPaths) as [tr [e|runs]]; [discriminate|].
  rewrite (bind_inr tr) in Hs |- *. cbn [trace fst result snd] in Hs |- *.
  destruct (anyOutputOverride opts && negb (totalComps runs =? 1)%nat);
    [discriminate|].
  rewrite bind_ret_l in Hs |- *. unfold call in Hs |- *.
  destruct (loadConfig _ (hd_error dslPaths)) as [e|cfg]; [discriminate|].
  rewrite bind_inr in Hs |- *. cbn [trace fst result snd] in Hs |- *.
  rewrite Hwatch in Hs |- *. cbn [negb] in Hs |- *.
  unfold emit in Hs |- *. rewrite !bind_inr in Hs |- *.
  cbn [trace fst result snd] in Hs |- *.
  destruct (negb (optQuiet opts)); cbn [ret trace fst result snd] in Hs |- *;
    rewrite ?bind_inr in Hs |- *; cbn [ret trace fst result snd] in Hs |- *;
    injection Hs as <-; cbn [wsWatchDirs wsConfigPath wsDslDirs];
    (split; [reflexivity|]);
    do 4 (apply in_or_app; right); apply in_or_app; left; now left.
Qed.

(** X14.  The session [generate --watch] leaves behind watches the directory
    of every tracked source path, each once, and the directory of the config
    file when one was found: the config file found exists, and it is
    [.videoml/config.yml] under the project root, or [.babulus/config.yml]
    when the former does not exist.  [chokidar.watch] has been called with
    exactly these directories. *)
Theorem watch_session_directories
    (fs : Fs.Node) (cwd : string) (dslArg : option string)
    (opts : GenerateOpts) (s : WatchSession) :
  result (generate fs cwd dslArg opts) = inr (Some s) ->
  NoDup (wsDslDirs s)
  /\ (forall d, In d (wsDslDirs s)
                <-> exists p, In p (wsDslPaths s) /\ d = Path.dirname p)
  /\ (forall d, In d (wsWatchDirs s)
                <-> In d (wsDslDirs s)
                    \/ exists c, wsConfigPath s = Some c /\ d = Path.dirname c)
  /\ (forall c, wsConfigPath s = Some c ->
                Fs.existsSync fs c = true
                /\ exists root,
                     projectRootFor (wsProjectDir s) (hd_error (wsDslPaths s))
                     = inr root
                     /\ (c = Path.join3 root ".videoml" "config.yml"
                         \/ (c = Path.join3 root ".babulus" "config.yml"
                             /\ Fs.existsSync fs
                                  (Path.join3 root ".videoml" "config.yml")
                                = false)))
  /\ In (Watch (wsWatchDirs s)) (trace (generate fs cwd dslArg opts)).
Proof.
  intros Hs.
  destruct (generate_session fs cwd dslArg opts s Hs)
    as [_ [_ [_ [Hconfig Hdirs]]]].
  destruct (generate_watching fs cwd dslArg opts s Hs) as [Hwatch Htrace].
  destruct (dedupe_from_spec (map Path.dirname (wsDslPaths s)) [])
    as [Hnd Hin].
  fold (Js.dedupe (map Path.dirname (wsDslPaths s))) in Hnd, Hin.
  rewrite <- Hdirs in Hnd, Hin.
  split; [exact Hnd|]. split; [|split; [|split; [|exact Htrace]]].
  - intros d. rewrite Hin, in_map_iff. split.
    + intros [[p [E Hp]] _]. now exists p.
    + intros [p [Hp E]]. split; [now exists p | intros []].
  - intros d. rewrite Hwatch. destruct (wsConfigPath s) as [c|] eqn:Hc.
    + symmetry in Hconfig.
      destruct (findConfigPathForWatch_yml _ _ _ _ Hconfig) as [_ Htruthy].
      rewrite Htruthy, in_app_iff. cbn [In]. split.
      * intros [Hd|[<-|[]]]; [now left | right; now exists c].
      * intros [Hd|[c' [E ->]]]; [now left|]. injection E as <-. right. now left.
    + split; [now left | intros [Hd|[c [E _]]]; [exact Hd | discriminate E]].
  - intros c Hc. rewrite Hc in Hconfig. symmetry in Hconfig.
    unfold findConfigPathForWatch in Hconfig.
    destruct (projectRootFor (wsProjectDir s) (hd_error (wsDslPaths s)))
      as [e|root]; [discriminate|].
    destruct (Fs.existsSync fs (Path.join3 root ".videoml" "config.yml")) eqn:Hv.
    + injection Hconfig as <-. split; [exact Hv|]. exists root.
      split; [reflexivity | now left].
    + destruct (Fs.existsSync fs (Path.join3 root ".babulus" "config.yml")) eqn:Hb;
        [|discriminate].
      injection Hconfig as <-. split; [exact Hb|]. exists root.
      split; [reflexivity | right; now split].
Qed.

End WatchSetProperties.

Lemma watch_session_directories_witness :
  NoDup (wsDslDirs Demo.soloSession)
  /\ In (Watch ["/p/solo"; "/p/.videoml"])
        (trace (generate Demo.fs "/p" (Some "solo") Demo.watching)).
Proof.
  destruct (watch_session_directories Demo.fs "/p" (Some "solo") Demo.watching
              Demo.soloSession) as [Hnd [_ [_ [_ Htrace]]]].
  - reflexivity.
  - split; [exact Hnd | exact Htrace].
Defined.

(** * The watch listener on the event loop *)

Section WatchLoop.
Context `{Collaborators}.

(** A turn of a call that has no generation call to come runs to the end. *)
Lemma untilAwait_none (tr : list Effect) :
  generations tr = [] -> untilAwait tr = (tr, None).
Proof.
  induction tr as [|e tr IH]; [reflexivity|].
  destruct e; cbn [generations untilAwait]; try discriminate;
    intros Hg; now rewrite (IH Hg).
Qed.

(** A turn of a call stops right after its first generation call. *)
Lemma untilAwait_first (before rest : list Effect) (req : GenerationRequest) :
  generations before = [] ->
  untilAwait (before ++ GenerateComposition req :: rest)
  = (before ++ [GenerateComposition req], Some rest).
Proof.
  induction before as [|e before IH]; [reflexivity|].
  destruct e; cbn [generations app untilAwait]; try discriminate;
    intros Hg; now rewrite (IH Hg).
Qed.

(** Between two generation calls [runOnce] does nothing one could see. *)
Lemma for_each_only_generations {A} (l : list A) (body : A -> M unit) :
  (forall x, trace (body x)
             = map GenerateComposition (generations (trace (body x)))) ->
  trace (for_each l body)
  = map GenerateComposition (generations (trace (for_each l body))).
Proof.
  intros Hbody. induction l as [|x l IH]; [reflexivity|].
  cbn [for_each]. rewrite trace_bind, generations_app, map_app, <- Hbody.
  f_equal. destruct (result (body x)); [reflexivity | exact IH].
Qed.

Lemma runOnce_only_generations (runs : list Run) (projectDir : option string)
    (opts : GenerateOpts) (cfg : Config) (dslSubset : option (list string)) :
  trace (runOnce runs projectDir opts cfg dslSubset)
  = map GenerateComposition
      (generations (trace (runOnce runs projectDir opts cfg dslSubset))).
Proof.
  unfold runOnce. apply for_each_only_generations. intros run.
  destruct (match dslSubset with
            | Some subset => negb (Js.includes subset (path run))
            | None => false
            end); [reflexivity|].
  apply for_each_only_generations. intros comp.
  destruct (runOnce_turn projectDir opts cfg run comp)
    as [[e [_ ->]]|[paths [_ ->]]]; reflexivity.
Qed.

(** A rebuild between the lines the listener prints. *)
Lemma announced_rebuild (lines : list string) (rebuild : M unit) :
  (for_each lines (fun line => emit (ConsoleError line)) ;;
   rebuild ;;
   emit (ConsoleError waitingLine))
  = (map ConsoleError lines
     ++ trace rebuild
     ++ match result rebuild with
        | inr _ => [ConsoleError waitingLine]
        | inl _ => []
        end,
     result rebuild).
Proof.
  assert (Hlines : for_each lines (fun line => emit (ConsoleError line))
                   = (map ConsoleError lines, inr tt)).
  { induction lines as [|line lines IH]; [reflexivity|].
    cbn [for_each]. rewrite IH. reflexivity. }
  rewrite Hlines, bind_inr. destruct rebuild as [tr [e|[]]].
  - rewrite bind_inl. cbn [trace fst result snd]. now rewrite app_nil_r.
  - rewrite bind_inr. reflexivity.
Qed.

(** What a listener call is when it generates: the lines of its branch, a
    [runOnce] over everything or over the changed source alone, the closing
    line. *)
Lemma onWatchEvent_rebuilds (s : WatchSession) (changedPath : string) :
  let absChanged := Path.resolve (wsCwd s) changedPath in
  let rel := relativeTo (wsCwd s) absChanged in
  let rebuild := runOnce (wsRuns s) (wsProjectDir s) (wsOpts s) (wsConfig s) in
  onWatchEvent s changedPath = ret tt
  \/ exists lines scope,
       ((lines = [newline +++ "CHANGE DETECTED (Config): " +++ rel;
                  "Regenerating all compositions..."]
         /\ scope = None)
        \/ (lines = [newline +++ "CHANGE DETECTED (DSL): " +++ rel]
            /\ scope = Some [absChanged] /\ In absChanged (wsDslPaths s))
        \/ (lines = [newline +++ "CHANGE DETECTED (Shared): " +++ rel;
                     "Shared file changed; regenerating all compositions..."]
            /\ scope = None))
       /\ onWatchEvent s changedPath
          = (for_each lines (fun line => emit (ConsoleError line)) ;;
             rebuild scope ;;
             emit (ConsoleError waitingLine)).
Proof.
  intros absChanged rel rebuild.
  assert (Hone : forall (a : string) (m : M unit),
            (emit (ConsoleError a) ;; m)
            = (for_each [a] (fun line => emit (ConsoleError line)) ;; m)).
  { intros a m. destruct m as [tr r]. reflexivity. }
  assert (Htwo : forall (a b : string) (m : M unit),
            (emit (ConsoleError a) ;; emit (ConsoleError b) ;; m)
            = (for_each [a; b] (fun line => emit (ConsoleError line)) ;; m)).
  { intros a b m. destruct m as [tr r]. reflexivity. }
  unfold onWatchEvent. fold absChanged. fold rel. fold rebuild.
  destruct (negb (Js.endsWith absChanged ".ts")
            && negb (Js.endsWith absChanged ".xml")
            && negb (Js.endsWith absChanged ".yml")
            && negb (Js.endsWith absChanged ".yaml")); [now left|].
  destruct (match wsConfigPath s with
            | Some configPath =>
                Js.truthy configPath && (absChanged =? configPath)
            | None => false
            end).
  { right. eexists _, None. split; [left; split; reflexivity|]. apply Htwo. }
  destruct (Js.find_eq (wsDslPaths s) absChanged) as [matched|] eqn:Hfind.
  - cbn [Js.truthyOpt]. destruct (Js.truthy matched).
    + right. unfold Js.find_eq in Hfind.
      apply find_some in Hfind. destruct Hfind as [Hin E].
      apply String.eqb_eq in E. subst matched.
      eexists _, (Some [absChanged]).
      split; [right; left; repeat split; exact Hin|]. apply Hone.
    + destruct (existsb _ (wsDslDirs s)
                && (Js.endsWith absChanged ".ts" || Js.endsWith absChanged ".xml"));
        [|now left].
      right. eexists _, None. split; [right; right; split; reflexivity|].
      apply Htwo.
  - cbn [Js.truthyOpt].
    destruct (existsb _ (wsDslDirs s)
              && (Js.endsWith absChanged ".ts" || Js.endsWith absChanged ".xml"));
      [|now left].
    right. eexists _, None. split; [right; right; split; reflexivity|].
    apply Htwo.
Qed.

(** C2, as the code has it.  Delivering a change event whose listener call
    generates starts that rebuild at once.  The call prints the lines of its
    branch and issues the first generation call of its [runOnce], over
    everything or over the changed source alone, whatever listener calls are
    suspended at that time; these stay suspended as they were, and the new
    call joins them with the rest of its rebuild and the closing line still
    to come.  Nothing is queued and nothing is merged: there is one more
    rebuild in flight than before. *)
Theorem watch_rebuild_starts_at_once
    (s : WatchSession) (l : Loop unit (M unit)) (changedPath : string) :
  let absChanged := Path.resolve (wsCwd s) changedPath in
  let rel := relativeTo (wsCwd s) absChanged in
  let rebuild := runOnce (wsRuns s) (wsProjectDir s) (wsOpts s) (wsConfig s) in
  unhandled l = None ->
  generations (trace (onWatchEvent s changedPath)) <> [] ->
  exists lines scope req later,
    ((lines = [newline +++ "CHANGE DETECTED (Config): " +++ rel;
               "Regenerating all compositions..."]
      /\ scope = None)
     \/ (lines = [newline +++ "CHANGE DETECTED (DSL): " +++ rel]
         /\ scope = Some [absChanged] /\ In absChanged (wsDslPaths s))
     \/ (lines = [newline +++ "CHANGE DETECTED (Shared): " +++ rel;
                  "Shared file changed; regenerating all compositions..."]
         /\ scope = None))
    /\ generations (trace (rebuild scope)) = req :: later
    /\ step (watchListener s) l (Changed changedPath)
       = {| variables := variables l;
            performed :=
              performed l ++ map ConsoleError lines ++ [GenerateComposition req];
            inFlight :=
              inFlight l
              ++ [(map GenerateComposition later
                   ++ match result (rebuild scope) with
                      | inr _ => [ConsoleError waitingLine]
                      | inl _ => []
                      end,
                   result (rebuild scope))];
            unhandled := None |}
    /\ List.length (inFlight (step (watchListener s) l (Changed changedPath)))
       = S (List.length (inFlight l)).
Proof.
  intros absChanged rel rebuild Hrun Hgen.
  destruct (onWatchEvent_rebuilds s changedPath)
    as [Hnone|(lines & scope & Hbranch & Hcall)].
  { rewrite Hnone in Hgen. now contradiction Hgen. }
  fold absChanged rel rebuild in Hbranch, Hcall.
  rewrite announced_rebuild in Hcall.
  assert (Hlines : generations (map ConsoleError lines) = []).
  { clear. induction lines as [|line lines IH]; [reflexivity | exact IH]. }
  assert (Hclosing : generations
                       match result (rebuild scope) with
                       | inr _ => [ConsoleError waitingLine]
                       | inl _ => []
                       end = []).
  { destruct (result (rebuild scope)); reflexivity. }
  rewrite Hcall in Hgen. cbn [trace fst] in Hgen.
  rewrite !generations_app, Hlines, Hclosing, app_nil_r in Hgen.
  cbn [app] in Hgen.
  destruct (generations (trace (rebuild scope))) as [|req later] eqn:Hg;
    [now contradiction Hgen|].
  assert (Htrace : trace (rebuild scope)
                   = GenerateComposition req :: map GenerateComposition later).
  { unfold rebuild. rewrite runOnce_only_generations. fold rebuild.
    now rewrite Hg. }
  exists lines, scope, req, later.
  split; [exact Hbranch|]. split; [exact Hg|].
  assert (Hstep : step (watchListener s) l (Changed changedPath)
            = {| variables := variables l;
                 performed :=
                   performed l ++ map ConsoleError lines
                   ++ [GenerateComposition req];
                 inFlight :=
                   inFlight l
                   ++ [(map GenerateComposition later
                        ++ match result (rebuild scope) with
                           | inr _ => [ConsoleError waitingLine]
                           | inl _ => []
                           end,
                        result (rebuild scope))];
                 unhandled := None |}).
  { unfold step. rewrite Hrun. cbn [watchListener onEvent]. unfold advance.
    rewrite Hcall. cbn [trace fst result snd]. rewrite Htrace.
    cbn [app]. rewrite (untilAwait_first _ _ _ Hlines).
    cbn [afterTurn]. now rewrite app_nil_r. }
  split; [exact Hstep|]. rewrite Hstep. cbn [inFlight].
  rewrite length_app. cbn [List.length]. lia.
Qed.

(** The loop does not decide this: the listener does.  Under the listener
    of the specification the same loop never has two rebuilds in flight. *)
Lemma singleFlight_invariant (s : WatchSession) (events : list LoopEvent) :
  let l := eventLoop (singleFlightListener s)
             {| rebuilding := false; queued := false |} events in
  (List.length (inFlight l) <= 1)%nat
  /\ (rebuilding (variables l) = false -> inFlight l = []).
Proof.
  unfold eventLoop.
  assert (Hfrom : forall l0 : Loop Flight (M unit),
            ((List.length (inFlight l0) <= 1)%nat
             /\ (rebuilding (variables l0) = false -> inFlight l0 = [])) ->
            let l := fold_left (step (singleFlightListener s)) events l0 in
            (List.length (inFlight l) <= 1)%nat
            /\ (rebuilding (variables l) = false -> inFlight l = [])).
  { induction events as [|ev events IH]; intros l0 Hinv; [exact Hinv|].
    cbn [fold_left]. apply IH. destruct Hinv as [Hlen Hidle].
    unfold step. destruct (unhandled l0); [now split|].
    destruct ev as [changedPath|k].
    - cbn [singleFlightListener onEvent].
      destruct (generations (trace (onWatchEvent s changedPath)))
        as [|req more] eqn:Hg.
      + unfold advance. rewrite (untilAwait_none _ Hg).
        destruct (result (onWatchEvent s changedPath));
          cbn [afterTurn inFlight variables app]; rewrite app_nil_r;
          now split.
      + destruct (rebuilding (variables l0)) eqn:Hbusy.
        * cbn [afterTurn inFlight variables rebuilding app].
          rewrite app_nil_r. split; [exact Hlen | discriminate].
        * rewrite (Hidle eq_refl).
          destruct (advance (onWatchEvent s changedPath)) as [did how].
          cbn [afterTurn inFlight variables rebuilding app].
          split; [|discriminate].
          destruct how; cbn [List.length app]; lia.
    - destruct (nth_error (inFlight l0) k) as [frame|] eqn:Hnth; [|now split].
      assert (Hone : inFlight l0 = [frame] /\ k = 0).
      { destruct (inFlight l0) as [|f [|f' others]];
          [destruct k; discriminate Hnth | | cbn [List.length] in Hlen; lia].
        destruct k as [|k]; [|destruct k; discriminate Hnth].
        cbn [nth_error] in Hnth. injection Hnth as ->. now split. }
      destruct Hone as [Hin ->]. rewrite Hin.
      cbn [firstn skipn singleFlightListener onSettled].
      destruct (advance frame) as [did [frame'|  |e]].
      + cbn [afterTurn inFlight variables app List.length].
        split; [lia|]. intros Hbusy. rewrite (Hidle Hbusy) in Hin.
        discriminate Hin.
      + destruct (queued (variables l0)).
        * destruct (advance (runOnce (wsRuns s) (wsProjectDir s) (wsOpts s)
                               (wsConfig s) None)) as [did' [frame'| |e]];
            cbn [afterTurn inFlight variables rebuilding app List.length];
            (split; [lia|]); try discriminate; reflexivity.
        * cbn [afterTurn inFlight variables rebuilding app List.length].
          split; [lia | reflexivity].
      + cbn [afterTurn inFlight variables app List.length].
        split; [lia|]. intros Hbusy. rewrite (Hidle Hbusy) in Hin.
        discriminate Hin. }
  apply Hfrom. cbn. split; [lia | reflexivity].
Qed.

End WatchLoop.

Lemma watch_rebuild_starts_at_once_witness :
  step (watchListener Demo.soloSession)
    (eventLoop (watchListener Demo.soloSession) tt
       [Changed "solo/intro.babulus.ts"])
    (Changed "solo/intro.babulus.ts")
  = eventLoop (watchListener Demo.soloSession) tt
      [Changed "solo/intro.babulus.ts"; Changed "solo/intro.babulus.ts"]
  /\ List.length
       (inFlight
          (eventLoop (watchListener Demo.soloSession) tt
             [Changed "solo/intro.babulus.ts"; Changed "solo/intro.babulus.ts"]))
     = 2.
Proof.
  split; [reflexivity|].
  destruct (watch_rebuild_starts_at_once Demo.soloSession
              (eventLoop (watchListener Demo.soloSession) tt
                 [Changed "solo/intro.babulus.ts"])
              "solo/intro.babulus.ts")
    as (lines & scope & req & later & _ & _ & _ & Hlen).
  - reflexivity.
  - simpl. discriminate.
  - exact Hlen.
Defined.

(** C2 as stated fails: after two changes of the tracked source, the second
    delivered before the generation call of the first has settled, two
    rebuilds are in flight together; both generation calls have been issued,
    neither has settled, and both write the same script. *)
Lemma watch_rebuild_counterexample :
  result (generate Demo.fs "/p" (Some "solo") Demo.watching)
  = inr (Some Demo.soloSession)
  /\ List.length
       (inFlight (eventLoop (watchListener Demo.soloSession) tt
                    [Changed "solo/intro.babulus.ts"])) = 1
  /\ List.length
       (inFlight (eventLoop (watchListener Demo.soloSession) tt
                    [Changed "solo/intro.babulus.ts";
                     Changed "solo/intro.babulus.ts"])) = 2
  /\ map scriptOut
       (generations
          (performed (eventLoop (watchListener Demo.soloSession) tt
                        [Changed "solo/intro.babulus.ts";
                         Changed "solo/intro.babulus.ts"])))
     = ["/p/src/videos/intro/intro.script.json";
        "/p/src/videos/intro/intro.script.json"].
Proof.
  split; [reflexivity|]. split; [reflexivity|]. split; reflexivity.
Qed.

(** * Beyond the claims: the [render] command *)

Section RenderProperties.
Context `{Collaborators}.

Lemma readFileSync_error (fs : Fs.Node) (p : string) (e : Err) :
  Fs.readFileSync fs p = inl e -> isBabulusError e = false.
Proof.
  unfold Fs.readFileSync.
  destruct (Fs.lookup fs p) as [[c|es|]|]; intros E;
    try discriminate E; injection E as <-; reflexivity.
Qed.

(** X15.  [render] calls the renderer at most once, and only with a script
    read from the resolved script path and parsed, with the frames and
    output paths resolved against the working directory, and with the
    timeline read and parsed when a timeline path is given; the line
    [write: <output>] is printed after the renderer has succeeded and in no
    other case. *)
Theorem render_outcomes (fs : Fs.Node) (cwd : string) (opts : RenderOpts) :
  let described (req : RenderRequest) :=
    (exists text, Fs.readFileSync fs (Path.resolve cwd (optScript opts)) = inr text
                  /\ JSON_parse text = Some (script req))
    /\ framesDir req = Path.resolve cwd (optFrames opts)
    /\ outputPath req = Path.resolve cwd (optOut opts)
    /\ (forall t, optTimeline opts = Some t -> Js.truthy t = true ->
          exists text j, Fs.readFileSync fs (Path.resolve cwd t) = inr text
                         /\ JSON_parse text = Some j /\ timeline req = Some j)
    /\ (forall a, optAudio opts = Some a -> Js.truthy a = true ->
          audioPath req = Some (Path.resolve cwd a))
    /\ cleanFrames req = optClean opts
    /\ ffmpegArgs req = optFfmpegArg opts in
  (exists e, render fs cwd opts = ([], inl e))
  \/ (exists req e,
        described req /\ renderVideoFromScript req = Some e
        /\ render fs cwd opts = ([RenderVideoFromScript req], inl e))
  \/ (exists req,
        described req /\ renderVideoFromScript req = None
        /\ render fs cwd opts
           = ([RenderVideoFromScript req;
               ConsoleError ("write: " +++ Path.resolve cwd (optOut opts))],
              inr tt)).
Proof.
  intros described. unfold render. cbv zeta.
  destruct (Fs.readFileSync fs (Path.resolve cwd (optScript opts)))
    as [e|text] eqn:Hread.
  { left. now exists e. }
  rewrite bind_lift_inr.
  destruct (JSON_parse text) as [scriptData|] eqn:Hparse.
  2:{ left. now exists SyntaxError. }
  rewrite bind_ret_l.
  assert (Hfinish : forall timelineData,
            (forall t, optTimeline opts = Some t -> Js.truthy t = true ->
               exists text' j,
                 Fs.readFileSync fs (Path.resolve cwd t) = inr text'
                 /\ JSON_parse text' = Some j /\ timelineData = Some j) ->
            forall req,
              script req = scriptData -> timeline req = timelineData ->
              framesDir req = Path.resolve cwd (optFrames opts) ->
              outputPath req = Path.resolve cwd (optOut opts) ->
              audioPath req
              = match optAudio opts with
                | Some p => if Js.truthy p then Some (Path.resolve cwd p) else None
                | None => None
                end ->
              cleanFrames req = optClean opts ->
              ffmpegArgs req = optFfmpegArg opts ->
              described req).
  { intros timelineData Htl req Hs Ht Hf Ho Ha Hc Hargs. unfold described.
    split; [exists text; now rewrite Hs|].
    split; [exact Hf|]. split; [exact Ho|]. split.
    - intros t Hopt Htruthy. destruct (Htl t Hopt Htruthy) as [text' [j [? [? ?]]]].
      exists text', j. rewrite Ht. now repeat split.
    - split; [|now split]. intros a Hopt Htruthy. now rewrite Ha, Hopt, Htruthy. }
  destruct (optTimeline opts) as [t|] eqn:Hopt.
  - destruct (Js.truthy t) eqn:Htruthy.
    + destruct (Fs.readFileSync fs (Path.resolve cwd t)) as [e|text'] eqn:Hread'.
      { left. now exists e. }
      rewrite bind_lift_inr.
      destruct (JSON_parse text') as [timelineData|] eqn:Hparse'.
      2:{ left. now exists SyntaxError. }
      rewrite !bind_ret_l. unfold call, emit.
      match goal with
      | |- context [renderVideoFromScript ?r] =>
          assert (Hd : described r);
          [apply (Hfinish (Some timelineData)); try reflexivity;
           intros t' E _; injection E as <-; now exists text', timelineData
          | destruct (renderVideoFromScript r) as [e|] eqn:Hrender ]
      end.
      * right. left. eexists. exists e. split; [exact Hd|]. now split.
      * right. right. eexists. split; [exact Hd|]. now split.
    + rewrite !bind_ret_l. unfold call, emit.
      match goal with
      | |- context [renderVideoFromScript ?r] =>
          assert (Hd : described r);
          [apply (Hfinish None); try reflexivity;
           intros t' E Ht'; injection E as <-; rewrite Ht' in Htruthy;
           discriminate
          | destruct (renderVideoFromScript r) as [e|] eqn:Hrender ]
      end.
      * right. left. eexists. exists e. split; [exact Hd|]. now split.
      * right. right. eexists. split; [exact Hd|]. now split.
  - rewrite !bind_ret_l. unfold call, emit.
    match goal with
    | |- context [renderVideoFromScript ?r] =>
        assert (Hd : described r);
        [apply (Hfinish None); try reflexivity; intros t' E; discriminate E
        | destruct (renderVideoFromScript r) as [e|] eqn:Hrender ]
    end.
    + right. left. eexists. exists e. split; [exact Hd|]. now split.
    + right. right. eexists. split; [exact Hd|]. now split.
Qed.

(** X16.  Once the script file has been read, [render] still fails before
    the renderer is called, with exit code 1 and the error object printed,
    when the script is not JSON, and when a timeline path is given and that
    file cannot be read. *)
Theorem render_bad_inputs
    (fs : Fs.Node) (cwd : string) (opts : RenderOpts) (text : string) :
  Fs.readFileSync fs (Path.resolve cwd (optScript opts)) = inr text ->
  (JSON_parse text = None ->
   vml fs cwd (CmdRender opts) = ([ConsoleErrorObject SyntaxError], 1))
  /\ (forall t e,
        JSON_parse text <> None ->
        optTimeline opts = Some t -> Js.truthy t = true ->
        Fs.readFileSync fs (Path.resolve cwd t) = inl e ->
        vml fs cwd (CmdRender opts) = ([ConsoleErrorObject e], 1)).
Proof.
  intros Hread. split.
  - intros Hparse. cbn [vml]. unfold render. cbv zeta.
    rewrite Hread, bind_lift_inr, Hparse. reflexivity.
  - intros t e Hparse Hopt Htruthy Hread'. cbn [vml]. unfold render. cbv zeta.
    rewrite Hread, bind_lift_inr.
    destruct (JSON_parse text) as [scriptData|]; [|contradiction].
    rewrite bind_ret_l, Hopt, Htruthy, Hread'.
    pose proof (readFileSync_error fs _ e Hread') as He.
    destruct e; try discriminate He; reflexivity.
Qed.

End RenderProperties.

Lemma render_bad_inputs_witness :
  vml Demo.fs "/p"
    (CmdRender
       {| optScript := "intro.script.json"; optFrames := "frames";
          optOut := "out.mp4"; optTimeline := Some "intro.timeline.json";
          optAudio := None; optTitle := None; optSubtitle := None;
          optStart := None; optEnd := None; optPattern := "frame-%06d.png";
          optScale := None; optWorkers := None; optBrowserBundle := None;
          optFfmpegArg := []; optFps := None; optWidth := None;
          optHeight := None; optDuration := None; optDebugLayout := false;
          optClean := true; optFfmpeg := "ffmpeg" |})
  = ([ConsoleErrorObject (SystemError "ENOENT" "/p/intro.timeline.json")], 1).
Proof.
  refine (proj2 (render_bad_inputs Demo.fs "/p" _ "{}" _)
            "intro.timeline.json" _ _ _ _ _).
  - reflexivity.
  - simpl. discriminate.
  - reflexivity.
  - reflexivity.
  - reflexivity.
Defined.

(** * Beyond the claims: the [pipeline] command *)

Section PipelineProperties.
Context `{Collaborators}.

(** X17.  [pipeline] wants one source path and one composition: with any
    other number of resolved source paths it ends with exit code 2 before
    loading anything, and with any other number of compositions in the one
    source it ends with exit code 2 after that one loader call, before the
    config is loaded and before anything is generated or rendered. *)
Theorem pipeline_rejects
    (fs fsGenerated : Fs.Node) (cwd : string) (dslArg : option string)
    (opts : PipelineOpts) (dslPaths : list string) :
  resolveDslPaths fs dslArg cwd = inr dslPaths ->
  (List.length dslPaths <> 1 ->
   vmlPipeline fs fsGenerated cwd dslArg opts
   = ([ConsoleError pipelinePathsMessage], 2))
  /\ (forall source comps,
        dslPaths = [source] ->
        loadVideoFile source = inr comps ->
        List.length comps <> 1 ->
        vmlPipeline fs fsGenerated cwd dslArg opts
        = ([LoadVideoFile source; ConsoleError pipelineCompositionMessage], 2)).
Proof.
  intros Hres. unfold vmlPipeline, pipeline. rewrite Hres, bind_lift_inr. split.
  - intros Hlen. destruct dslPaths as [|a [|b rest]]; try reflexivity.
    now contradiction Hlen.
  - intros source comps -> Hload Hlen. unfold call. rewrite Hload, bind_inr.
    destruct comps as [|a [|b rest]]; try reflexivity.
    now contradiction Hlen.
Qed.

(** Case analysis of [pipeline]: no render call, or the four calls in order. *)
Lemma pipeline_cases
    (fs fsGenerated : Fs.Node) (cwd : string) (dslArg : option string)
    (opts : PipelineOpts) :
  let projectDir :=
    match popProjectDir opts with
    | Some d => if Js.truthy d then Some (Path.resolve cwd d) else None
    | None => None
    end in
  renders (trace (pipeline fs fsGenerated cwd dslArg opts)) = []
  \/ exists source comp paths cfg scriptText scriptData timelineText timelineData,
       resolveDslPaths fs dslArg cwd = inr [source]
       /\ loadVideoFile source = inr [comp]
       /\ defaultsForComposition (id comp) source projectDir noOpts = inr paths
       /\ loadConfig projectDir (Some source) = inr cfg
       /\ generateComposition (pipelineGeneration comp source paths cfg) = None
       /\ Fs.readFileSync fsGenerated (apScriptOut paths) = inr scriptText
       /\ JSON_parse scriptText = Some scriptData
       /\ Fs.readFileSync fsGenerated (apTimelineOut paths) = inr timelineText
       /\ JSON_parse timelineText = Some timelineData
       /\ let output :=
            match (if Js.truthyOpt (popOut opts) then popOut opts else None) with
            | Some o => Path.resolve cwd o
            | None => Path.join3 (publicRoot cwd projectDir) "videoml"
                        (id comp +++ ".mp4")
            end in
          let frames :=
            match (if Js.truthyOpt (popFrames opts) then popFrames opts else None) with
            | Some f => Path.resolve cwd f
            | None => Path.join (apOutDir paths) "frames"
            end in
          let req :=
            pipelineRender scriptData timelineData frames output
              (apAudioOut paths) in
          trace (pipeline fs fsGenerated cwd dslArg opts)
          = [LoadVideoFile source; LoadConfig projectDir (Some source);
             GenerateComposition (pipelineGeneration comp source paths cfg);
             RenderVideoFromScript req]
            ++ match renderVideoFromScript req with
               | Some _ => []
               | None => [ConsoleError ("write: " +++ output)]
               end.
Proof.
  intros projectDir.
  remember (pipeline fs fsGenerated cwd dslArg opts) as m eqn:Hm.
  unfold pipeline in Hm. fold projectDir in Hm.
  destruct (resolveDslPaths fs dslArg cwd) as [e|dslPaths] eqn:Hres;
    [subst m; now left|].
  rewrite bind_lift_inr in Hm.
  destruct dslPaths as [|source [|other rest]]; try (subst m; now left).
  unfold call at 1 in Hm.
  destruct (loadVideoFile source) as [e|comps] eqn:Hload; [subst m; now left|].
  rewrite bind_inr in Hm.
  destruct comps as [|comp [|other rest]]; try (subst m; now left).
  destruct (defaultsForComposition (id comp) source projectDir noOpts)
    as [e|paths] eqn:Hpaths; [subst m; now left|].
  rewrite bind_lift_inr in Hm. unfold call at 1 in Hm.
  destruct (loadConfig projectDir (Some source)) as [e|cfg] eqn:Hcfg;
    [subst m; now left|].
  rewrite bind_inr in Hm. unfold awaitGenerate, call at 1 in Hm.
  destruct (generateComposition (pipelineGeneration comp source paths cfg))
    as [e|] eqn:Hgen; [subst m; now left|].
  rewrite bind_inr in Hm. unfold readJson at 1 in Hm.
  destruct (Fs.readFileSync fsGenerated (apScriptOut paths))
    as [e|scriptText] eqn:Hs; [subst m; now left|].
  rewrite bind_lift_inr in Hm.
  destruct (JSON_parse scriptText) as [scriptData|] eqn:Hsp;
    [|subst m; now left].
  rewrite bind_ret_l in Hm. unfold readJson at 1 in Hm.
  destruct (Fs.readFileSync fsGenerated (apTimelineOut paths))
    as [e|timelineText] eqn:Ht; [subst m; now left|].
  rewrite bind_lift_inr in Hm.
  destruct (JSON_parse timelineText) as [timelineData|] eqn:Htp;
    [|subst m; now left].
  rewrite bind_ret_l in Hm. right.
  exists source, comp, paths, cfg, scriptText, scriptData, timelineText,
    timelineData.
  repeat (split; [reflexivity || assumption|]). cbv zeta.
  subst m. unfold call, emit.
  destruct (renderVideoFromScript _); reflexivity.
Qed.

(** X18.  [pipeline] renders at most once, and only after its single
    generation call has succeeded: the trace is then the loader call, the
    config call, the generation call and the render call, in this order.
    The render request carries the script and the timeline read, after the
    generation, from the paths given to the generation, the audio path given
    to the generation, the frames directory [--frames] or [<outDir>/frames],
    and the output [--out] or [<publicRoot>/videoml/<id>.mp4]; the line
    [write: <output>] follows when the renderer has succeeded. *)
Theorem pipeline_outcomes
    (fs fsGenerated : Fs.Node) (cwd : string) (dslArg : option string)
    (opts : PipelineOpts) :
  let projectDir :=
    match popProjectDir opts with
    | Some d => if Js.truthy d then Some (Path.resolve cwd d) else None
    | None => None
    end in
  renders (trace (pipeline fs fsGenerated cwd dslArg opts)) = []
  \/ exists source comp paths cfg scriptText scriptData timelineText timelineData,
       resolveDslPaths fs dslArg cwd = inr [source]
       /\ loadVideoFile source = inr [comp]
       /\ defaultsForComposition (id comp) source projectDir noOpts = inr paths
       /\ loadConfig projectDir (Some source) = inr cfg
       /\ generateComposition (pipelineGeneration comp source paths cfg) = None
       /\ Fs.readFileSync fsGenerated (apScriptOut paths) = inr scriptText
       /\ JSON_parse scriptText = Some scriptData
       /\ Fs.readFileSync fsGenerated (apTimelineOut paths) = inr timelineText
       /\ JSON_parse timelineText = Some timelineData
       /\ let output :=
            match (if Js.truthyOpt (popOut opts) then popOut opts else None) with
            | Some o => Path.resolve cwd o
            | None => Path.join3 (publicRoot cwd projectDir) "videoml"
                        (id comp +++ ".mp4")
            end in
          let frames :=
            match (if Js.truthyOpt (popFrames opts) then popFrames opts else None) with
            | Some f => Path.resolve cwd f
            | None => Path.join (apOutDir paths) "frames"
            end in
          let req :=
            pipelineRender scriptData timelineData frames output
              (apAudioOut paths) in
          trace (pipeline fs fsGenerated cwd dslArg opts)
          = [LoadVideoFile source; LoadConfig projectDir (Some source);
             GenerateComposition (pipelineGeneration comp source paths cfg);
             RenderVideoFromScript req]
            ++ match renderVideoFromScript req with
               | Some _ => []
               | None => [ConsoleError ("write: " +++ output)]
               end.
Proof.
  exact (pipeline_cases fs fsGenerated cwd dslArg opts).
Qed.

(** X19.  Without [--project-dir] and without [--out], the video [pipeline]
    asks for goes under the working directory,
    [<cwd>/public/videoml/<id>.mp4], whereas the audio it passes on is the
    one under the project root that [findProjectRoot] finds for the source,
    [<root>/public/videoml/<id>.wav]. *)
Theorem pipeline_video_under_cwd
    (fs fsGenerated : Fs.Node) (cwd : string) (dslArg : option string)
    (opts : PipelineOpts) :
  Js.truthyOpt (popProjectDir opts) = false ->
  Js.truthyOpt (popOut opts) = false ->
  Forall
    (fun req =>
       exists source comp root,
         resolveDslPaths fs dslArg cwd = inr [source]
         /\ loadVideoFile source = inr [comp]
         /\ findProjectRoot (Some source) = inr root
         /\ outputPath req
            = Path.join3 (Path.join cwd "public") "videoml" (id comp +++ ".mp4")
         /\ audioPath req
            = Some (Path.join root ("public/videoml/" +++ id comp +++ ".wav")))
    (renders (trace (pipeline fs fsGenerated cwd dslArg opts))).
Proof.
  intros Hpd Hout.
  assert (Epd : match popProjectDir opts with
                | Some d => if Js.truthy d then Some (Path.resolve cwd d) else None
                | None => None
                end = None).
  { destruct (popProjectDir opts) as [d|]; [|reflexivity].
    cbn [Js.truthyOpt] in Hpd. now rewrite Hpd. }
  destruct (pipeline_cases fs fsGenerated cwd dslArg opts)
    as [Hnone|Hsome]; [rewrite Hnone; constructor|].
  destruct Hsome as (source & comp & paths & cfg & st & sd & tl & td & Hres
                     & Hload & Hpaths & _ & _ & _ & _ & _ & _ & Htrace).
  cbv zeta in Htrace. rewrite Htrace. clear Htrace.
  rewrite Epd in Hpaths. unfold defaultsForComposition in Hpaths.
  cbn [projectRootFor] in Hpaths.
  destruct (findProjectRoot (Some source)) as [e|root] eqn:Hroot;
    [discriminate|].
  injection Hpaths as <-.
  destruct (renderVideoFromScript _); cbn [app renders];
    (constructor; [|constructor]); exists source, comp, root;
    (split; [exact Hres|]); (split; [exact Hload|]); (split; [exact Hroot|]);
    cbn [pipelineRender outputPath audioPath]; rewrite Hout, Epd;
    (split; reflexivity).
Qed.

End PipelineProperties.

Lemma pipeline_rejects_witness :
  vmlPipeline Demo.fs DemoPipeline.fsGenerated "/p" (Some "two.babulus.ts")
    DemoPipeline.plain
  = ([LoadVideoFile "/p/two.babulus.ts";
      ConsoleError pipelineCompositionMessage], 2).
Proof.
  refine (proj2 (pipeline_rejects Demo.fs DemoPipeline.fsGenerated "/p"
                   (Some "two.babulus.ts") DemoPipeline.plain
                   ["/p/two.babulus.ts"] _)
            "/p/two.babulus.ts" [Demo.comp "intro"; Demo.comp "outro"] _ _ _).
  - reflexivity.
  - reflexivity.
  - reflexivity.
  - simpl. lia.
Defined.

Lemma pipeline_video_under_cwd_witness :
  Forall (fun req =>
            outputPath req = "/p/solo/public/videoml/intro.mp4"
            /\ audioPath req = Some "/p/public/videoml/intro.wav")
         (renders (trace (pipeline Demo.fs DemoPipeline.fsGenerated "/p/solo"
                            None DemoPipeline.plain)))
  /\ List.length
       (renders (trace (pipeline Demo.fs DemoPipeline.fsGenerated "/p/solo"
                          None DemoPipeline.plain))) = 1.
Proof.
  split; [|reflexivity].
  eapply Forall_impl;
    [|exact (pipeline_video_under_cwd Demo.fs DemoPipeline.fsGenerated
               "/p/solo" None DemoPipeline.plain eq_refl eq_refl)].
  intros req (source & comp & root & Hres & Hload & Hroot & Ho & Ha).
  vm_compute in Hres, Hroot. injection Hres as <-. injection Hroot as <-.
  vm_compute in Hload. injection Hload as <-.
  rewrite Ho, Ha. split; reflexivity.
Defined.

(** * Beyond the claims: discovery, the guard's count, the environment *)

Section DiscoveryProperties.
Context `{Collaborators}.

(** X20.  Without a [content/] entry in the working directory, discovery
    looks at the working directory's own entries only: it finds exactly the
    regular files there whose name ends in [.babulus.ts] or [.babulus.xml],
    sorted, and nothing from any subdirectory. *)
Theorem discovery_outside_content
    (fs : Fs.Node) (cwd : string) (entries : list (string * Fs.Node)) :
  Fs.existsSync fs (Path.join cwd "content") = false ->
  Fs.lookup fs cwd = Some (Fs.Dir entries) ->
  exists found,
    discoverProjectDsls fs cwd = inr found
    /\ (forall p,
          In p found <->
          exists name content,
            In (name, Fs.File content) entries
            /\ isDslName name = true /\ p = Path.join cwd name)
    /\ StronglySorted (fun a b => String.leb a b = true) found.
Proof.
  intros Hcontent Hcwd.
  exists (findDslFilesAt cwd (Fs.Dir entries) false).
  split; [|split].
  - unfold discoverProjectDsls, findDslFiles. now rewrite Hcontent, Hcwd.
  - intros p. rewrite findDslFilesAt_Dir. split.
    + intros Hp.
      apply (Permutation_in _ (Permutation_sym (StringSort.Permuted_sort _))) in Hp.
      apply in_flat_map in Hp. destruct Hp as [[name child] [Hin Hp]].
      unfold Tree.scanEntry in Hp. cbn [fst snd] in Hp.
      destruct child as [content|children|]; try contradiction.
      destruct (isDslName name) eqn:Hname; [|contradiction].
      destruct Hp as [<-|[]]. now exists name, content.
    + intros [name [content [Hin [Hname ->]]]].
      apply (Permutation_in _ (StringSort.Permuted_sort _)).
      apply in_flat_map. exists (name, Fs.File content). split; [exact Hin|].
      unfold Tree.scanEntry. cbn [fst snd]. rewrite Hname. now left.
  - rewrite findDslFilesAt_Dir.
    exact (StringSort.StronglySorted_sort _ StringOrder_transitive).
Qed.

(** X21.  A [content] entry that is not a directory is not skipped: discovery
    tries to read it as a directory, and [generate] without argument ends
    with the file system's [ENOTDIR] error and exit code 1, whatever source
    files lie in the working directory. *)
Theorem discovery_content_not_a_directory
    (fs : Fs.Node) (cwd : string) (opts : GenerateOpts) (node : Fs.Node) :
  Fs.lookup fs (Path.join cwd "content") = Some node ->
  Fs.isDirectory node = false ->
  resolveDslPaths fs None cwd
  = inl (SystemError "ENOTDIR" (Path.join cwd "content"))
  /\ vml fs cwd (CmdGenerate None opts)
     = (trace (envStep opts)
        ++ [ConsoleErrorObject (SystemError "ENOTDIR" (Path.join cwd "content"))],
        1).
Proof.
  intros Hnode Hdir.
  assert (Hres : resolveDslPaths fs None cwd
                 = inl (SystemError "ENOTDIR" (Path.join cwd "content"))).
  { unfold resolveDslPaths, discoverProjectDsls, Fs.existsSync, findDslFiles.
    cbn [Js.truthyOpt]. rewrite Hnode.
    destruct node as [c|es|]; [reflexivity | discriminate Hdir | reflexivity]. }
  split; [exact Hres|]. cbn [vml]. unfold generate.
  destruct (envStep_ok opts) as [tr0 [-> _]]. cbn [trace fst].
  rewrite Hres, bind_inr. unfold lift. rewrite bind_inl.
  cbn [trace fst result snd parseAsyncCatch]. now rewrite app_nil_r.
Qed.

Lemma totalComps_from (runs : list Run) (n : nat) :
  fold_left (fun sum r => sum + List.length (compositions r)) runs n
  = n + List.length
          (flat_map (fun run => map (fun comp => (path run, comp))
                                    (compositions run)) runs).
Proof.
  revert n. induction runs as [|r runs IH]; intros n; cbn [fold_left flat_map].
  - cbn. lia.
  - rewrite IH, length_app, length_map. lia.
Qed.

(** X22.  The number the override guard compares with one is the number of
    generation calls a full rebuild makes when it returns: one per
    composition of every run. *)
Theorem totalComps_counts_generations
    (runs : list Run) (projectDir : option string) (opts : GenerateOpts)
    (cfg : Config) :
  result (runOnce runs projectDir opts cfg None) = inr tt ->
  List.length (generations (trace (runOnce runs projectDir opts cfg None)))
  = totalComps runs.
Proof.
  intros Hr. unfold totalComps. rewrite totalComps_from. cbn [Nat.add].
  rewrite <- (length_map (fun req => (dslPath req, composition req))).
  rewrite (runOnce_order runs projectDir opts cfg None Hr).
  assert (Hall : forall l : list Run, filter (fun _ => true) l = l).
  { induction l as [|r l IH]; [reflexivity|]. cbn [filter]. now rewrite IH. }
  now rewrite Hall.
Qed.

(** X23.  [generate] sets [VIDEOML_ENV] before anything else, so also when
    the invocation is then rejected.  The value is [--env] when that option
    is given, and [--environment] only when [--env] is absent: an empty
    [--env] sets nothing, whatever [--environment] says. *)
Theorem generate_sets_environment_first
    (fs : Fs.Node) (cwd : string) (dslArg : option string)
    (opts : GenerateOpts) :
  (exists rest, trace (generate fs cwd dslArg opts)
                = trace (envStep opts) ++ rest)
  /\ (forall v, optEnv opts = Some v ->
                trace (envStep opts)
                = if Js.truthy v then [SetEnv "VIDEOML_ENV" v] else [])
  /\ (forall v, optEnv opts = None -> optEnvironment opts = Some v ->
                trace (envStep opts)
                = if Js.truthy v then [SetEnv "VIDEOML_ENV" v] else [])
  /\ (optEnv opts = None -> optEnvironment opts = None ->
      trace (envStep opts) = []).
Proof.
  split; [|split; [|split]].
  - unfold generate. rewrite trace_bind. eexists. reflexivity.
  - intros v Hv. unfold envStep, orElse. rewrite Hv. now destruct (Js.truthy v).
  - intros v Hnone Hv. unfold envStep, orElse. rewrite Hnone, Hv.
    now destruct (Js.truthy v).
  - intros Hnone Hnone'. unfold envStep, orElse. now rewrite Hnone, Hnone'.
Qed.

End DiscoveryProperties.

Lemma discovery_outside_content_witness :
  discoverProjectDsls Demo.fs "/q" = inr ["/q/x.babulus.ts"; "/q/y.babulus.xml"].
Proof.
  destruct (discovery_outside_content Demo.fs "/q"
              [("x.babulus.ts", Fs.File ""); ("y.babulus.xml", Fs.File "")])
    as [found [Hfound _]].
  - reflexivity.
  - reflexivity.
  - rewrite Hfound. vm_compute in Hfound. now injection Hfound as <-.
Defined.

Lemma discovery_content_not_a_directory_witness :
  resolveDslPaths
    (Fs.Dir [("w", Fs.Dir [("content", Fs.File "notes");
                           ("intro.babulus.ts", Fs.File "")])])
    None "/w"
  = inl (SystemError "ENOTDIR" "/w/content").
Proof.
  refine (proj1 (discovery_content_not_a_directory
                   (Fs.Dir [("w", Fs.Dir [("content", Fs.File "notes");
                                          ("intro.babulus.ts", Fs.File "")])])
                   "/w" (@noOpts Demo.domain) (Fs.File "notes") _ _)).
  - reflexivity.
  - reflexivity.
Defined.

Lemma totalComps_counts_generations_witness :
  List.length (generations (trace (runOnce Demo.twoRuns None Demo.watching tt None)))
  = 2.
Proof.
  exact (totalComps_counts_generations Demo.twoRuns None Demo.watching
           (tt : @Config Demo.domain) eq_refl).
Defined.
